(** * RAJAPerf CUDA kernels: PI_REDUCE, POLYBENCH_FLOYD_WARSHALL and the
      variant/tuning dispatch around them

    A shallow embedding of [PI_REDUCE-Cuda.cpp],
    [POLYBENCH_FLOYD_WARSHALL-Cuda.cpp] and [CONVECTION3DPA-OMPTarget.cpp].

    - [Real_type] is a type class: the kernels are written once over its
      operations, with binary64 and the rationals as instances.  Statements
      that only depend on the control structure hold for every instance;
      statements about the value of a sum or of a shortest path need the
      laws of exact arithmetic, stated as the classes [ExactSum] and
      [ExactOrder], which the rationals satisfy and binary64 does not.
    - [Index_type] and [size_t] values are integers in [Z]; their
      declarations live outside these sources and no width is assumed.
    - A device thread that reads or writes outside an array yields [None].
      The two [while]-like loops of [pi_reduce] carry a bound on their
      passes and yield [None] beyond it; the properties below show that
      the bound is never reached for a thread of a launch.
    - What the CUDA runtime leaves open (the order in which the blocks'
      atomic updates land, the order of the threads of one launch) is an
      explicit schedule argument.
    - Calls into the CUDA runtime and the data utilities are recorded in a
      log, in program order, and are taken to succeed: what
      [cudaGetLastError()] reports after a launch (on a grid of zero
      blocks, say) is decided by the runtime, outside these sources.  The
      host fault that these sources do decide, the division by
      [i_block_sz = 0] in the grid of a Floyd-Warshall launch, yields
      [None]. *)

From Stdlib Require Import ZArith QArith Lia Floats Uint63.
From stdpp Require Import base tactics option list numbers strings pretty.

Local Open Scope Z_scope.

(** ** Arithmetic on [Real_type] *)

Class RealOps (Real_type : Type) := {
  radd : Real_type → Real_type → Real_type;
  rmul : Real_type → Real_type → Real_type;
  rdiv : Real_type → Real_type → Real_type;
  rltb : Real_type → Real_type → bool;
  (** the conversion [double(i)] *)
  of_Index : Z → Real_type;
  r_zero : Real_type;
  (** the literals [0.5], [1.0] and [4.0] *)
  r_half : Real_type;
  r_one : Real_type;
  r_four : Real_type;
  (** [sizeof(Real_type)] *)
  sizeof_Real_type : Z
}.

Declare Scope real_scope.
Delimit Scope real_scope with real.
Infix "⊕" := radd (at level 50, left associativity) : real_scope.
Infix "⊗" := rmul (at level 40, left associativity) : real_scope.
Infix "⊘" := rdiv (at level 40, left associativity) : real_scope.
Local Open Scope real_scope.

(** [a ≤ b] read off the comparison the code uses: not [b < a]. *)
Definition rle `{RealOps T} (a b : T) : Prop := rltb b a = false.

(** [std::min (a, b)]: [(b < a) ? b : a]. *)
Definition rmin `{RealOps T} (a b : T) : T := if rltb b a then b else a.

(** Sum of a list, right to left; the empty sum is [r_zero]. *)
Definition rsum `{RealOps T} (l : list T) : T := foldr radd r_zero l.

(** The laws of exact arithmetic that the value of a sum relies on.
    Floating-point addition does not satisfy [radd_assoc]. *)
Class ExactSum (T : Type) `{RealOps T} : Prop := {
  radd_assoc : ∀ a b c : T, a ⊕ (b ⊕ c) = (a ⊕ b) ⊕ c;
  radd_comm : ∀ a b : T, a ⊕ b = b ⊕ a;
  radd_0_l : ∀ a : T, r_zero ⊕ a = a
}.

(** The laws of exact arithmetic that comparisons of sums rely on. *)
Class ExactOrder (T : Type) `{RealOps T} : Prop := {
  exact_order_sum :: ExactSum T;
  rltb_irrefl : ∀ a : T, rltb a a = false;
  rltb_asym : ∀ a b : T, rltb a b = true → rltb b a = false;
  rle_trans : ∀ a b c : T, rle a b → rle b c → rle a c;
  radd_le_mono : ∀ a b c d : T, rle a b → rle c d → rle (a ⊕ c) (b ⊕ d)
}.

(** Exact rational arithmetic, the instance used to run the model. *)
Definition Qltb (a b : Q) : bool := negb (Qle_bool b a).

#[export] Instance Q_RealOps : RealOps Q := {|
  radd := Qplus; rmul := Qmult; rdiv := Qdiv; rltb := Qltb;
  of_Index := inject_Z;
  r_zero := 0%Q; r_half := (1 # 2)%Q; r_one := 1%Q; r_four := 4%Q;
  sizeof_Real_type := 8
|}.

(** IEEE 754 binary64, the arithmetic of [double] that the kernels run
    on; [of_Index] is exact up to 2^53. *)
Definition binary64_of_Z (z : Z) : float :=
  if (z <? 0)%Z
  then PrimFloat.opp (PrimFloat.of_uint63 (Uint63.of_Z (- z)))
  else PrimFloat.of_uint63 (Uint63.of_Z z).

#[export] Instance binary64_RealOps : RealOps float := {|
  radd := PrimFloat.add; rmul := PrimFloat.mul; rdiv := PrimFloat.div;
  rltb := PrimFloat.ltb;
  of_Index := binary64_of_Z;
  r_zero := 0%float; r_half := 0.5%float; r_one := 1%float;
  r_four := 4%float;
  sizeof_Real_type := 8
|}.

(** ** Array accesses *)

Definition load {A} (mem : list A) (ix : Z) : option A :=
  if decide (0 ≤ ix) then mem !! Z.to_nat ix else None.

Definition store {A} (mem : list A) (ix : Z) (v : A) : option (list A) :=
  if decide (0 ≤ ix < Z.of_nat (length mem))
  then Some (<[Z.to_nat ix := v]> mem) else None.

(** [mem[ix]] as a value, for an index known to be in range. *)
Definition at_index `{RealOps T} (mem : list T) (ix : Z) : T :=
  default r_zero (load mem ix).

(** The sum of the first [n] elements of [mem]. *)
Definition window_sum `{RealOps T} (mem : list T) (n : Z) : T :=
  rsum (at_index mem <$> seqZ 0 n).

(** Modelled from the spec: the macro [RAJA_DIVIDE_CEILING_INT], whose
    definition is outside these sources; section 4.2 of the specification
    reads it as [ceil(iend / block_size)]. *)
Definition RAJA_DIVIDE_CEILING_INT (dividend divisor : Z) : Z :=
  (dividend + divisor - 1) / divisor.

(** ** The kernel [pi_reduce<block_size>] *)

Section pi_reduce.
Context `{RealOps Real_type}.

(** A write to the global accumulator [*dpi].  [PlainStore] is the
    [*dpi += ppi[ 0 ]] of the [#else] branch of the kernel, which the
    preprocessor removes. *)
Inductive dpi_write :=
| AtomicAdd (blockIdx threadIdx : Z) (v : Real_type)
| PlainStore (blockIdx threadIdx : Z) (v : Real_type).

Definition apply_write (dpi : Real_type) (w : dpi_write) : Real_type :=
  match w with
  | AtomicAdd _ _ v => dpi ⊕ v
  | PlainStore _ _ v => dpi ⊕ v
  end.

(** [double x = (double(i) + 0.5) * dx;  dx / (1.0 + x * x)] *)
Definition midpoint_term (dx : Real_type) (i : Z) : Real_type :=
  let x := (of_Index i ⊕ r_half) ⊗ dx in
  dx ⊘ (r_one ⊕ x ⊗ x).

(** [for ( ; i < iend ; i += gridDim.x * block_size ) ppi[threadIdx.x] += ...]
    with [acc] standing for the thread's slot [ppi[threadIdx.x]]; at most
    [fuel] evaluations of the loop condition. *)
Fixpoint stride_loop (fuel : nat) (dx : Real_type) (iend stride i : Z)
    (acc : Real_type) : option Real_type :=
  match fuel with
  | O => None
  | S fuel' =>
      if decide (i < iend)
      then stride_loop fuel' dx iend stride (i + stride)
             (acc ⊕ midpoint_term dx i)
      else Some acc
  end.

(** Lines 34-40 for one thread: the value of its slot at the first
    barrier.  With a positive stride the condition is evaluated at most
    [iend + 1] times. *)
Definition thread_partial (block_size : Z) (dx pi_init : Real_type)
    (iend gridDim blockIdx threadIdx : Z) : option Real_type :=
  stride_loop (S (Z.to_nat iend)) dx iend (gridDim * block_size)
    (blockIdx * block_size + threadIdx) pi_init.

(** One pass of the reduction loop, between two barriers: the threads
    with [threadIdx.x < i] add the slot [i] places further on. *)
Definition tree_step (block_size i : Z) (ppi : list Real_type)
    : option (list Real_type) :=
  mapM (λ t, if decide (t < i)
             then a ← load ppi t; b ← load ppi (t + i); Some (a ⊕ b)
             else load ppi t)
       (seqZ 0 block_size).

(** [for ( i = block_size / 2; i > 0; i /= 2 )], at most [fuel]
    evaluations of the loop condition. *)
Fixpoint tree_loop (fuel : nat) (block_size i : Z) (ppi : list Real_type)
    : option (list Real_type) :=
  match fuel with
  | O => None
  | S fuel' =>
      if decide (0 < i)
      then ppi' ← tree_step block_size i ppi;
           tree_loop fuel' block_size (Z.quot i 2) ppi'
      else Some ppi
  end.

(** Lines 50-53 for one thread. *)
Definition thread_commit (ppi : list Real_type) (blockIdx threadIdx : Z)
    : option (list dpi_write) :=
  if decide (threadIdx = 0)
  then v ← load ppi 0; Some [AtomicAdd blockIdx threadIdx v]
  else Some [].

(** Lines 34-48 for one block: the shared array [ppi] when the
    reduction loop is left. *)
Definition block_ppi (block_size : Z) (dx pi_init : Real_type)
    (iend gridDim blockIdx : Z) : option (list Real_type) :=
  ppi ← mapM (thread_partial block_size dx pi_init iend gridDim blockIdx)
             (seqZ 0 block_size);
  tree_loop (S (Z.to_nat block_size)) block_size (block_size / 2) ppi.

(** The slot of a thread at the first barrier as a value, [r_zero]
    standing for "no value". *)
Definition partial_of (block_size : Z) (dx pi_init : Real_type)
    (iend gridDim blockIdx threadIdx : Z) : Real_type :=
  default r_zero
    (thread_partial block_size dx pi_init iend gridDim blockIdx threadIdx).

(** The indices below [iend] that the stride sequence from [start] visits. *)
Definition thread_indices (stride start iend : Z) : list Z :=
  filter (λ i, i `mod` stride = start) (seqZ 0 iend).

(** The sum of the slots of all threads of the grid at the first barrier. *)
Definition grid_sum (block_size : Z) (dx pi_init : Real_type)
    (iend gridDim : Z) : Real_type :=
  rsum ((λ b, rsum (partial_of block_size dx pi_init iend gridDim b
                    <$> seqZ 0 block_size))
        <$> seqZ 0 gridDim).

(** The block's total: [ppi[0]] after the reduction loop. *)
Definition block_total (block_size : Z) (dx pi_init : Real_type)
    (iend gridDim blockIdx : Z) : option Real_type :=
  ppi ← block_ppi block_size dx pi_init iend gridDim blockIdx;
  load ppi 0.

(** The same as a value, [r_zero] standing for "no value". *)
Definition total_of (block_size : Z) (dx pi_init : Real_type)
    (iend gridDim blockIdx : Z) : Real_type :=
  default r_zero (block_total block_size dx pi_init iend gridDim blockIdx).

(** One block of the kernel: the writes it performs on [*dpi]. *)
Definition pi_reduce (block_size : Z) (dx pi_init : Real_type)
    (iend gridDim blockIdx : Z) : option (list dpi_write) :=
  ppi ← block_ppi block_size dx pi_init iend gridDim blockIdx;
  ws ← mapM (thread_commit ppi blockIdx) (seqZ 0 block_size);
  Some (concat ws).

(** [pi_reduce<block_size><<<grid_size, block_size, shmem, stream>>>]:
    [sched] lists the blocks in the order in which their updates of
    [*dpi] take effect. *)
Definition launch_pi_reduce (block_size grid_size : Z) (sched : list Z)
    (dx pi_init : Real_type) (iend : Z) : option (list dpi_write) :=
  ws ← mapM (pi_reduce block_size dx pi_init iend grid_size) sched;
  Some (concat ws).

(** A schedule of a launch runs every block of the grid once. *)
Definition block_schedule (grid_size : Z) (sched : list Z) : Prop :=
  sched ≡ₚ seqZ 0 grid_size.
End pi_reduce.

Arguments dpi_write : clear implicits.


(** ** Host side: the kernel object and its collaborators *)

(** The variant ids that the sources name; the enumeration itself is
    declared outside them. *)
Inductive VariantID :=
| Base_OpenMPTarget | RAJA_OpenMPTarget
| Base_CUDA | Lambda_CUDA | RAJA_CUDA.

#[export] Instance VariantID_eq_dec : EqDecision VariantID.
Proof. solve_decision. Defined.

(** What is sent to [getCout()]. *)
Inductive out_item :=
| out_string (s : string)
| out_VariantID (vid : VariantID)
| out_endl.

(** Calls into the timing harness, the data utilities and the CUDA
    runtime, in program order. *)
Inductive host_call :=
| setBlockSize (block_size : Z)
| startTimer
| stopTimer
| allocData (len : Z)
| deallocData
| cudaMemcpyAsync_HostToDevice
| pi_reduce_launch (grid_size block_size shmem : Z)
| poly_floyd_warshall_launch (nblocks_x nblocks_y nthreads_x nthreads_y
                               shmem stream k : Z)
| cudaGetLastError
| cudaMemcpyAsync_DeviceToHost
| cudaStreamSynchronize.

(** [for (x = 0; x < n; ++x) body], and [seq_for] over a list of sizes. *)
Fixpoint for_each {A St} (body : A → St → option St) (l : list A) (s : St)
    : option St :=
  match l with
  | [] => Some s
  | x :: l' => s' ← body x s; for_each body l' s'
  end.

Section PI_REDUCE.
Context `{RealOps Real_type}.

(** The members of the kernel object that the CUDA variants touch.
    Modelled from the spec: the macro [PI_REDUCE_DATA_SETUP], defined
    outside these sources, which supplies the step size [dx]; section 6
    lists step size and initial value as scalar parameters of the problem,
    here the members [m_dx] and [m_pi_init]. *)
Record PI_REDUCE := {
  m_dx : Real_type;
  m_pi_init : Real_type;
  m_pi : Real_type;
  getActualProblemSize : Z;
  getRunReps : Z;
  calls : list host_call;
  getCout : list out_item
}.

Definition set_m_pi (v : Real_type) (k : PI_REDUCE) : PI_REDUCE :=
  {| m_dx := m_dx k; m_pi_init := m_pi_init k; m_pi := v;
     getActualProblemSize := getActualProblemSize k;
     getRunReps := getRunReps k; calls := calls k;
     getCout := getCout k |}.

Definition call (c : list host_call) (k : PI_REDUCE) : PI_REDUCE :=
  {| m_dx := m_dx k; m_pi_init := m_pi_init k; m_pi := m_pi k;
     getActualProblemSize := getActualProblemSize k;
     getRunReps := getRunReps k; calls := calls k ++ c;
     getCout := getCout k |}.

Definition print (o : list out_item) (k : PI_REDUCE) : PI_REDUCE :=
  {| m_dx := m_dx k; m_pi_init := m_pi_init k; m_pi := m_pi k;
     getActualProblemSize := getActualProblemSize k;
     getRunReps := getRunReps k; calls := calls k;
     getCout := getCout k ++ o |}.

(** What the sources take from outside: the list [gpu_block_sizes_type],
    the run parameters, the occupancy query, the RAJA reducer, and the
    order in which the device completes the blocks of repetition [irep]. *)
Record Collaborators := {
  gpu_block_sizes_type : list Z;
  numValidGPUBlockSize : Z;
  validGPUBlockSize : Z → bool;
  getCudaOccupancyMaxBlocks : Z → Z → Z;
  RAJA_forall_ReduceSum :
    bool → Z → Real_type → Z → Z → (Z → Real_type) → Real_type;
  block_order : Z → Z → list Z
}.

(** The accumulator [*dpi] over one repetition: the value copied in, the
    writes of the launch, the value copied out. *)
Record dpi_history := {
  dpi_reset : Real_type;
  dpi_writes : list (dpi_write Real_type);
  dpi_read : Real_type
}.

(** Lines 82-95 (and 148-161): reset, launch on [grid_size] blocks,
    copy back, synchronize. *)
Definition reduce_on_device (block_size grid_size : Z) (sched : list Z)
    (dx pi_init : Real_type) (iend : Z) : option dpi_history :=
  ws ← launch_pi_reduce block_size grid_size sched dx pi_init iend;
  Some {| dpi_reset := pi_init; dpi_writes := ws;
          dpi_read := foldl apply_write pi_init ws |}.

Definition rep_calls (grid_size block_size shmem : Z) : list host_call :=
  [cudaMemcpyAsync_HostToDevice;
   pi_reduce_launch grid_size block_size shmem; cudaGetLastError;
   cudaMemcpyAsync_DeviceToHost; cudaStreamSynchronize].

(** The object after one pass of a [Base_CUDA] repetition loop that
    launched [grid_size] blocks and read [acc] back. *)
Definition after_rep (grid_size block_size : Z) (acc : Real_type)
    (k : PI_REDUCE) : PI_REDUCE :=
  set_m_pi (acc ⊗ r_four)
    (set_m_pi acc
       (call (rep_calls grid_size block_size (sizeof_Real_type * block_size))
          k)).

(** The body of the repetition loop of [runCudaVariantBlock], [Base_CUDA]. *)
Definition Block_rep (env : Collaborators) (block_size : Z) (irep : Z)
    (k : PI_REDUCE) : option PI_REDUCE :=
  let iend := getActualProblemSize k in
  let dx := m_dx k in
  let grid_size := RAJA_DIVIDE_CEILING_INT iend block_size in
  let shmem := sizeof_Real_type * block_size in
  h ← reduce_on_device block_size grid_size (block_order env irep grid_size)
        dx (m_pi_init k) iend;
  let k := call (rep_calls grid_size block_size shmem) k in
  let k := set_m_pi (dpi_read h) k in
  Some (set_m_pi (m_pi k ⊗ r_four) k).

(** The body of the repetition loop of [runCudaVariantOccGS], [Base_CUDA]. *)
Definition OccGS_rep (env : Collaborators) (block_size max_grid_size : Z)
    (irep : Z) (k : PI_REDUCE) : option PI_REDUCE :=
  let iend := getActualProblemSize k in
  let dx := m_dx k in
  let shmem := sizeof_Real_type * block_size in
  let normal_grid_size := RAJA_DIVIDE_CEILING_INT iend block_size in
  let grid_size := Z.min normal_grid_size max_grid_size in
  h ← reduce_on_device block_size grid_size (block_order env irep grid_size)
        dx (m_pi_init k) iend;
  let k := call (rep_calls grid_size block_size shmem) k in
  let k := set_m_pi (dpi_read h) k in
  Some (set_m_pi (m_pi k ⊗ r_four) k).

(** The body of the repetition loop of the [RAJA_CUDA] branches:
    [m_pi = 4.0 * pi.get()].  The reducer and [RAJA::forall] are a
    collaborator; the macro [PI_REDUCE_BODY] is read as the term of the
    midpoint rule that the kernel adds. *)
Definition RAJA_rep (env : Collaborators) (occ_calc : bool)
    (block_size : Z) (irep : Z) (k : PI_REDUCE) : option PI_REDUCE :=
  let ibegin := 0 in
  let iend := getActualProblemSize k in
  let dx := m_dx k in
  let pi := RAJA_forall_ReduceSum env occ_calc block_size (m_pi_init k)
              ibegin iend (midpoint_term dx) in
  Some (set_m_pi (r_four ⊗ pi) k).

Definition unknown_Cuda_variant (vid : VariantID) : list out_item :=
  [out_string "
  PI_REDUCE : Unknown Cuda variant id = "; out_VariantID vid; out_endl].

Definition runCudaVariantBlock (env : Collaborators) (block_size : Z)
    (vid : VariantID) (k : PI_REDUCE) : option PI_REDUCE :=
  let run_reps := getRunReps k in
  if decide (vid = Base_CUDA) then
    let k := call [allocData 1; startTimer] k in
    k ← for_each (Block_rep env block_size) (seqZ 0 run_reps) k;
    Some (call [stopTimer; deallocData] k)
  else if decide (vid = RAJA_CUDA) then
    let k := call [startTimer] k in
    k ← for_each (RAJA_rep env false block_size) (seqZ 0 run_reps) k;
    Some (call [stopTimer] k)
  else Some (print (unknown_Cuda_variant vid) k).

Definition runCudaVariantOccGS (env : Collaborators) (block_size : Z)
    (vid : VariantID) (k : PI_REDUCE) : option PI_REDUCE :=
  let run_reps := getRunReps k in
  if decide (vid = Base_CUDA) then
    let k := call [allocData 1] k in
    let shmem := sizeof_Real_type * block_size in
    let max_grid_size := getCudaOccupancyMaxBlocks env block_size shmem in
    let k := call [startTimer] k in
    k ← for_each (OccGS_rep env block_size max_grid_size)
          (seqZ 0 run_reps) k;
    Some (call [stopTimer; deallocData] k)
  else if decide (vid = RAJA_CUDA) then
    let k := call [startTimer] k in
    k ← for_each (RAJA_rep env true block_size) (seqZ 0 run_reps) k;
    Some (call [stopTimer] k)
  else Some (print (unknown_Cuda_variant vid) k).

(** The test that guards a block size in both traversals. *)
Definition accepted (env : Collaborators) (block_size : Z) : bool :=
  bool_decide (numValidGPUBlockSize env = 0)
  || validGPUBlockSize env block_size.

(** The lambda given to [seq_for] in [runCudaVariant]; the pair is the
    captured counter [t] and the kernel object. *)
Definition tuning_step (env : Collaborators) (vid : VariantID)
    (tune_idx : Z) (block_size : Z) (s : Z * PI_REDUCE)
    : option (Z * PI_REDUCE) :=
  let '(t, k) := s in
  if accepted env block_size then
    k ← (if decide (tune_idx = t)
         then runCudaVariantBlock env block_size vid
                (call [setBlockSize block_size] k)
         else Some k);
    let t := t + 1 in
    k ← (if decide (tune_idx = t)
         then runCudaVariantOccGS env block_size vid
                (call [setBlockSize block_size] k)
         else Some k);
    let t := t + 1 in
    Some (t, k)
  else Some (t, k).

Definition runCudaVariant (env : Collaborators) (vid : VariantID)
    (tune_idx : Z) (k : PI_REDUCE) : option PI_REDUCE :=
  let t := 0 in
  if decide (vid = Base_CUDA ∨ vid = RAJA_CUDA) then
    s ← for_each (tuning_step env vid tune_idx)
          (gpu_block_sizes_type env) (t, k);
    Some s.2
  else Some (print (unknown_Cuda_variant vid) k).

(** [std::to_string(block_size)] *)
Definition to_string (block_size : Z) : string := pretty block_size.

(** [setCudaTuningDefinitions]: the names handed to
    [addVariantTuningName], in order. *)
Definition setCudaTuningDefinitions (env : Collaborators) (vid : VariantID)
    : list string :=
  if decide (vid = Base_CUDA ∨ vid = RAJA_CUDA) then
    flat_map (λ block_size,
      if accepted env block_size
      then ["block_" +:+ to_string block_size;
            "occgs_" +:+ to_string block_size]
      else []) (gpu_block_sizes_type env)
  else [].
End PI_REDUCE.

Arguments PI_REDUCE : clear implicits.
Arguments Collaborators : clear implicits.
Arguments dpi_history : clear implicits.

(** ** [CONVECTION3DPA::runOpenMPTargetVariant] *)

Definition unknown_OpenMPTarget_variant (vid : VariantID) : list out_item :=
  [out_string "
 CONVECTION3DPA : Unknown OpenMPTarget variant id = ";
   out_VariantID vid; out_endl].

(** The object is reduced to its output stream and the calls it makes. *)
Record CONVECTION3DPA := {
  c3d_calls : list host_call;
  c3d_getCout : list out_item
}.

Definition runOpenMPTargetVariant (vid : VariantID) (tune_idx : Z)
    (k : CONVECTION3DPA) : CONVECTION3DPA :=
  if decide (vid = Base_OpenMPTarget) then k
  else if decide (vid = RAJA_OpenMPTarget) then k
  else {| c3d_calls := c3d_calls k;
          c3d_getCout := c3d_getCout k ++ unknown_OpenMPTarget_variant vid |}.

(** ** POLYBENCH_FLOYD_WARSHALL *)

(** [#define j_block_sz (32)] and [#define i_block_sz (block_size / j_block_sz)] *)
Definition j_block_sz : Z := 32.
Definition i_block_sz (block_size : Z) : Z := block_size / j_block_sz.

Record dim3 := { dim_x : Z; dim_y : Z; dim_z : Z }.

(** [POLY_FLOYD_WARSHALL_THREADS_PER_BLOCK_CUDA] *)
Definition nthreads_per_block (block_size : Z) : dim3 :=
  {| dim_x := j_block_sz; dim_y := i_block_sz block_size; dim_z := 1 |}.

(** [POLY_FLOYD_WARSHALL_NBLOCKS_CUDA] *)
Definition nblocks (N block_size : Z) : dim3 :=
  {| dim_x := RAJA_DIVIDE_CEILING_INT N j_block_sz;
     dim_y := RAJA_DIVIDE_CEILING_INT N (i_block_sz block_size);
     dim_z := 1 |}.

(** [POLY_FLOYD_WARSHALL_NBLOCKS_CUDA] as the host evaluates it, once per
    pass of the launch loop: the integer division by [i_block_sz] inside
    [RAJA_DIVIDE_CEILING_INT] faults when [i_block_sz] is 0, that is for a
    block size below 32; [None] stands for the fault. *)
Definition eval_nblocks (N block_size : Z) : option dim3 :=
  if decide (i_block_sz block_size = 0) then None
  else Some (nblocks N block_size).

(** The coordinates of one device thread of a two-dimensional launch. *)
Record thread_id := {
  blockIdx_x : Z; blockIdx_y : Z;
  threadIdx_x : Z; threadIdx_y : Z
}.

(** All threads of a launch [<<<nb, nt>>>]. *)
Definition grid_threads (nb nt : dim3) : list thread_id :=
  b_y ← seqZ 0 (dim_y nb); b_x ← seqZ 0 (dim_x nb);
  t_y ← seqZ 0 (dim_y nt); t_x ← seqZ 0 (dim_x nt);
  [{| blockIdx_x := b_x; blockIdx_y := b_y;
      threadIdx_x := t_x; threadIdx_y := t_y |}].

(** An access of a thread to the matrix, by element offset. *)
Inductive access := Load (ix : Z) | Store (ix : Z).

Section FLOYD_WARSHALL.
Context `{RealOps Real_type}.

(** The device array behind [pin] and the accesses made to it so far. *)
Record device := {
  pin : list Real_type;
  accesses : list access
}.

Definition dev_load (ix : Z) (d : device) : option (Real_type * device) :=
  v ← load (pin d) ix;
  Some (v, {| pin := pin d; accesses := accesses d ++ [Load ix] |}).

Definition dev_store (ix : Z) (v : Real_type) (d : device) : option device :=
  m ← store (pin d) ix v;
  Some {| pin := m; accesses := accesses d ++ [Store ix] |}.

(** Modelled from the spec: the macro [POLYBENCH_FLOYD_WARSHALL_BODY],
    defined outside these sources.  Section 4.3 of the specification:
    the body "applies the relaxation
    pin[i,j] = min(pin[i,j], pin[i,k] + pin[k,j])"; the N×N matrix is
    laid out row by row, element [(i, j)] at offset [j + i*N].  Of the two
    arrays the kernel receives, [pout] and [pin], this body touches [pin]
    only. *)
Definition POLYBENCH_FLOYD_WARSHALL_BODY (k N i j : Z) (d : device)
    : option device :=
  '(a, d) ← dev_load (j + i * N) d;
  '(b, d) ← dev_load (k + i * N) d;
  '(c, d) ← dev_load (j + k * N) d;
  dev_store (j + i * N) (rmin a (b ⊕ c)) d.

(** The kernel [poly_floyd_warshall<j_block_size, i_block_size>], one
    thread. *)
Definition poly_floyd_warshall (j_block_size i_block_size : Z)
    (k N : Z) (th : thread_id) (d : device) : option device :=
  let i := blockIdx_y th * i_block_size + threadIdx_y th in
  let j := blockIdx_x th * j_block_size + threadIdx_x th in
  if decide (i < N ∧ j < N)
  then POLYBENCH_FLOYD_WARSHALL_BODY k N i j d
  else Some d.

(** The kernel [poly_floyd_warshall_lam], one thread. *)
Definition poly_floyd_warshall_lam (j_block_size i_block_size : Z)
    (N : Z) (body : Z → Z → device → option device)
    (th : thread_id) (d : device) : option device :=
  let i := blockIdx_y th * i_block_size + threadIdx_y th in
  let j := blockIdx_x th * j_block_size + threadIdx_x th in
  if decide (i < N ∧ j < N) then body i j d else Some d.

(** A launch: the threads take effect in the order [sched]. *)
Definition launch_threads (kernel : thread_id → device → option device)
    (sched : list thread_id) (d : device) : option device :=
  for_each kernel sched d.

(** A schedule of a launch runs every thread of the grid once. *)
Definition thread_schedule (nb nt : dim3) (sched : list thread_id) : Prop :=
  sched ≡ₚ grid_threads nb nt.

(** The members of the kernel object that the CUDA variants touch; the
    macro [POLYBENCH_FLOYD_WARSHALL_DATA_SETUP], defined outside these
    sources, hands the matrix order [N] and the device arrays to the
    variants. *)
Record POLYBENCH_FLOYD_WARSHALL := {
  m_N : Z;
  fw_getRunReps : Z;
  fw_device : device;
  fw_calls : list host_call;
  fw_getCout : list out_item
}.

Definition fw_set_device (d : device) (o : POLYBENCH_FLOYD_WARSHALL)
    : POLYBENCH_FLOYD_WARSHALL :=
  {| m_N := m_N o; fw_getRunReps := fw_getRunReps o; fw_device := d;
     fw_calls := fw_calls o; fw_getCout := fw_getCout o |}.

Definition fw_call (c : list host_call) (o : POLYBENCH_FLOYD_WARSHALL)
    : POLYBENCH_FLOYD_WARSHALL :=
  {| m_N := m_N o; fw_getRunReps := fw_getRunReps o;
     fw_device := fw_device o;
     fw_calls := fw_calls o ++ c; fw_getCout := fw_getCout o |}.

Definition fw_print (s : list out_item) (o : POLYBENCH_FLOYD_WARSHALL)
    : POLYBENCH_FLOYD_WARSHALL :=
  {| m_N := m_N o; fw_getRunReps := fw_getRunReps o;
     fw_device := fw_device o;
     fw_calls := fw_calls o; fw_getCout := fw_getCout o ++ s |}.

(** What the sources take from outside: the stream of the resource
    [getCudaResource()], the order in which the device runs the threads of
    launch [k] of repetition [irep], and the RAJA kernel of the
    [RAJA_CUDA] branch.  Launches on one stream run one after the other,
    in the order in which the host issues them. *)
Record fw_Collaborators := {
  get_stream : Z;
  thread_order : Z → Z → list thread_id;
  RAJA_kernel_resource : Z → Z → device → option device
}.

(** [<<<nblocks, nthreads_per_block, shmem, res.get_stream()>>>] with
    [shmem = 0]. *)
Definition launch_call (env : fw_Collaborators) (N block_size k : Z)
    : host_call :=
  let nb := nblocks N block_size in
  let nt := nthreads_per_block block_size in
  poly_floyd_warshall_launch (dim_x nb) (dim_y nb) (dim_x nt) (dim_y nt) 0
    (get_stream env) k.

(** The body of [for (Index_type k = 0; k < N; ++k)], [Base_CUDA]. *)
Definition Base_launch (env : fw_Collaborators) (block_size irep k : Z)
    (o : POLYBENCH_FLOYD_WARSHALL) : option POLYBENCH_FLOYD_WARSHALL :=
  let N := m_N o in
  _ ← eval_nblocks N block_size;
  d ← launch_threads
        (poly_floyd_warshall j_block_sz (i_block_sz block_size) k N)
        (thread_order env irep k) (fw_device o);
  Some (fw_call [launch_call env N block_size k; cudaGetLastError]
          (fw_set_device d o)).

(** The same for [Lambda_CUDA]; the lambda captures [k] and [N]. *)
Definition Lambda_launch (env : fw_Collaborators) (block_size irep k : Z)
    (o : POLYBENCH_FLOYD_WARSHALL) : option POLYBENCH_FLOYD_WARSHALL :=
  let N := m_N o in
  _ ← eval_nblocks N block_size;
  d ← launch_threads
        (poly_floyd_warshall_lam j_block_sz (i_block_sz block_size) N
           (λ i j, POLYBENCH_FLOYD_WARSHALL_BODY k N i j))
        (thread_order env irep k) (fw_device o);
  Some (fw_call [launch_call env N block_size k] (fw_set_device d o)).

Definition fw_unknown_Cuda_variant (vid : VariantID) : list out_item :=
  [out_string "
  POLYBENCH_FLOYD_WARSHALL : Unknown Cuda variant id = ";
   out_VariantID vid; out_endl].

(** One pass of the repetition loop, [Base_CUDA]. *)
Definition Base_rep (env : fw_Collaborators) (block_size irep : Z)
    (o : POLYBENCH_FLOYD_WARSHALL) : option POLYBENCH_FLOYD_WARSHALL :=
  for_each (Base_launch env block_size irep) (seqZ 0 (m_N o)) o.

Definition Lambda_rep (env : fw_Collaborators) (block_size irep : Z)
    (o : POLYBENCH_FLOYD_WARSHALL) : option POLYBENCH_FLOYD_WARSHALL :=
  for_each (Lambda_launch env block_size irep) (seqZ 0 (m_N o)) o.

Definition runCudaVariantImpl (env : fw_Collaborators) (block_size : Z)
    (vid : VariantID) (o : POLYBENCH_FLOYD_WARSHALL)
    : option POLYBENCH_FLOYD_WARSHALL :=
  let run_reps := fw_getRunReps o in
  if decide (vid = Base_CUDA) then
    let o := fw_call [startTimer] o in
    o ← for_each (Base_rep env block_size) (seqZ 0 run_reps) o;
    Some (fw_call [stopTimer] o)
  else if decide (vid = Lambda_CUDA) then
    let o := fw_call [startTimer] o in
    o ← for_each (Lambda_rep env block_size) (seqZ 0 run_reps) o;
    Some (fw_call [stopTimer] o)
  else if decide (vid = RAJA_CUDA) then
    let o := fw_call [startTimer] o in
    o ← for_each (λ irep o,
           d ← RAJA_kernel_resource env block_size (m_N o) (fw_device o);
           Some (fw_set_device d o)) (seqZ 0 run_reps) o;
    Some (fw_call [stopTimer] o)
  else Some (fw_print (fw_unknown_Cuda_variant vid) o).
End FLOYD_WARSHALL.

Arguments device : clear implicits.
Arguments POLYBENCH_FLOYD_WARSHALL : clear implicits.
Arguments fw_Collaborators : clear implicits.

(** ** The enumeration of tunings, as the specification words it

    Section 4.4: the declared tunings are "one or more block-size
    candidates, each optionally expanded into a plain and an
    occupancy-capped sub-tuning"; a tuning identifier maps "to a specific
    (block-size, grid-strategy) configuration". *)

Inductive grid_strategy := plain_grid | occupancy_capped_grid.

#[export] Instance grid_strategy_eq_dec : EqDecision grid_strategy.
Proof. solve_decision. Defined.

Section tunings.
Context `{RealOps Real_type}.

(** The configurations over the block sizes that pass the filter, in the
    order of the candidate list. *)
Definition tunings (env : Collaborators Real_type)
    : list (Z * grid_strategy) :=
  block_size ← filter (λ block_size, accepted env block_size = true)
                 (gpu_block_sizes_type env);
  [(block_size, plain_grid); (block_size, occupancy_capped_grid)].

(** The implementation a configuration stands for. *)
Definition run_tuning (env : Collaborators Real_type) (vid : VariantID)
    (cfg : Z * grid_strategy) (k : PI_REDUCE Real_type)
    : option (PI_REDUCE Real_type) :=
  match cfg with
  | (block_size, plain_grid) =>
      runCudaVariantBlock env block_size vid
        (call [setBlockSize block_size] k)
  | (block_size, occupancy_capped_grid) =>
      runCudaVariantOccGS env block_size vid
        (call [setBlockSize block_size] k)
  end.
End tunings.

(** The name of a configuration: "block_256", "occgs_256". *)
Definition tuning_name (cfg : Z * grid_strategy) : string :=
  match cfg with
  | (block_size, plain_grid) => "block_" +:+ to_string block_size
  | (block_size, occupancy_capped_grid) => "occgs_" +:+ to_string block_size
  end.

(** ** Shortest paths, as the specification words them

    Section 3: after launch [k] "every entry (i, j) reflects the shortest
    path using only intermediate vertices ≤ k".  The matrix is read as the
    edge weights of a graph on the vertices [0 .. N-1]; a path from [i] to
    [j] is given by the list of its intermediate vertices. *)

Section paths.
Context `{RealOps Real_type}.

(** Element [(i, j)] of a row-major N×N matrix. *)
Definition entry (M : list Real_type) (N i j : Z) : Real_type :=
  at_index M (j + i * N).

(** The weight of the path [i → path → j]. *)
Fixpoint path_weight (M : list Real_type) (N i : Z) (path : list Z) (j : Z)
    : Real_type :=
  match path with
  | [] => entry M N i j
  | v :: path' => entry M N i v ⊕ path_weight M N v path' j
  end.

(** [d] is the weight of a shortest path from [i] to [j] among the paths
    whose intermediate vertices are all below [k]. *)
Definition shortest_via (M : list Real_type) (N k i j : Z) (d : Real_type)
    : Prop :=
  (∃ path, Forall (λ v, 0 ≤ v < k) path ∧ path_weight M N i path j = d) ∧
  ∀ path, Forall (λ v, 0 ≤ v < k) path → rle d (path_weight M N i path j).

(** Every edge weight is non-negative. *)
Definition non_negative (M : list Real_type) : Prop :=
  Forall (λ x, rle r_zero x) M.
End paths.

(** The thread coordinates a launch can produce. *)
Definition valid_thread (th : thread_id) : Prop :=
  0 ≤ blockIdx_x th ∧ 0 ≤ blockIdx_y th ∧
  0 ≤ threadIdx_x th ∧ 0 ≤ threadIdx_y th.

Definition access_index (a : access) : Z :=
  match a with Load ix | Store ix => ix end.

(** The access falls inside an N×N matrix. *)
Definition in_matrix (N : Z) (a : access) : Prop :=
  0 ≤ access_index a < N * N.

(** The matrix element a thread of [poly_floyd_warshall] is assigned. *)
Definition thread_i (i_block_size : Z) (th : thread_id) : Z :=
  blockIdx_y th * i_block_size + threadIdx_y th.

Definition thread_j (j_block_size : Z) (th : thread_id) : Z :=
  blockIdx_x th * j_block_size + threadIdx_x th.

Section relaxation.
Context `{RealOps Real_type}.

(** The value the body computes for element [(i, j)] from the matrix [M]. *)
Definition relax_cell (M : list Real_type) (k N i j : Z) : Real_type :=
  rmin (entry M N i j) (entry M N i k ⊕ entry M N k j).

(** While launch [k] runs on the matrix [M0], every element of the array
    [M] holds its old or its new value. *)
Definition mid_launch (M0 : list Real_type) (N k : Z) (M : list Real_type)
    : Prop :=
  length M = Z.to_nat (N * N) ∧
  ∀ i j, 0 ≤ i < N → 0 ≤ j < N →
    entry M N i j = entry M0 N i j ∨ entry M N i j = relax_cell M0 k N i j.

(** The accesses of one execution of the body. *)
Definition body_accesses (k N i j : Z) : list access :=
  [Load (j + i * N); Load (k + i * N); Load (j + k * N); Store (j + i * N)].

(** The calls of one pass of the launch loop over the indices [ks]. *)
Definition launch_calls (env : fw_Collaborators Real_type)
    (N block_size : Z) (ks : list Z) : list host_call :=
  k ← ks; [launch_call env N block_size k; cudaGetLastError].
End relaxation.
(** ** Views of a call log *)

#[export] Instance host_call_eq_dec : EqDecision host_call.
Proof. solve_decision. Defined.

(** The calls of a log other than the error checks [cudaGetLastError]. *)
Definition without_error_checks (cs : list host_call) : list host_call :=
  filter (λ c, c ≠ cudaGetLastError) cs.

(** What a run of a Floyd-Warshall variant leaves, its error checks
    apart: the matrix order, the repetitions, the device array with the
    accesses made to it, the other calls, and the output. *)
Definition fw_view `{RealOps Real_type}
    (o : POLYBENCH_FLOYD_WARSHALL Real_type)
    : Z * Z * device Real_type * list host_call * list out_item :=
  (m_N o, fw_getRunReps o, fw_device o,
   without_error_checks (fw_calls o), fw_getCout o).

(** ** The state of the reduction loop of [pi_reduce]

    [g] gives the values of the slots when the loop is entered.  The slots
    below [w] hold sums of these values over pairwise disjoint,
    duplicate-free sets of slots, slot [t] among its own. *)
Definition disjoint_sums `{RealOps Real_type} (block_size : Z)
    (g : Z → Real_type) (w : Z) (ppi : list Real_type) : Prop :=
  length ppi = Z.to_nat block_size ∧
  ∃ S : Z → list Z,
    (∀ t, 0 ≤ t < w →
       at_index ppi t = rsum (g <$> S t) ∧ NoDup (S t) ∧ t ∈ S t ∧
       Forall (λ s, 0 ≤ s < block_size) (S t)) ∧
    (∀ t t' s, 0 ≤ t < w → 0 ≤ t' < w → s ∈ S t → s ∈ S t' → t = t').


(** ** Concrete configurations over the rationals *)

(** Collaborators with the block-size list [sizes] and the run parameter
    [valid] (the block sizes asked for on the command line; none means all),
    which report an occupancy of two resident blocks and complete the
    blocks of a launch last to first. *)
Definition example_env (sizes valid : list Z) : Collaborators Q := {|
  gpu_block_sizes_type := sizes;
  numValidGPUBlockSize := Z.of_nat (length valid);
  validGPUBlockSize := λ block_size, bool_decide (block_size ∈ valid);
  getCudaOccupancyMaxBlocks := λ _ _, 2;
  RAJA_forall_ReduceSum := λ _ _ init ibegin iend body,
    foldl Qplus init (body <$> seqZ ibegin (iend - ibegin));
  block_order := λ _ grid_size, reverse (seqZ 0 grid_size)
|}.

(** A kernel object with [iend] elements: one repetition. *)
Definition example_kernel (iend : Z) (dx pi_init : Q) : PI_REDUCE Q := {|
  m_dx := dx; m_pi_init := pi_init; m_pi := 0%Q;
  getActualProblemSize := iend; getRunReps := 1;
  calls := []; getCout := []
|}.

(** Collaborators of the Floyd-Warshall kernel for matrices of order [N]:
    the device runs the threads of every launch last to first. *)
Definition example_fw_env (N block_size : Z) : fw_Collaborators Q := {|
  get_stream := 0;
  thread_order := λ _ _,
    reverse (grid_threads (nblocks N block_size)
               (nthreads_per_block block_size));
  RAJA_kernel_resource := λ _ _ d, Some d
|}.

(** A kernel object holding the N×N matrix [M]: one repetition. *)
Definition example_fw (N : Z) (M : list Q) : POLYBENCH_FLOYD_WARSHALL Q := {|
  m_N := N; fw_getRunReps := 1;
  fw_device := {| pin := M; accesses := [] |};
  fw_calls := []; fw_getCout := []
|}.

(** * Properties *)

(** ** Loops and monadic traversals *)

Lemma bind_Some {A B} (x : A) (f : A → option B) : (Some x ≫= f) = f x.
Proof. reflexivity. Qed.

Lemma mapM_pointwise {A B} (f : A → option B) (g : A → B) (l : list A) :
  Forall (λ x, f x = Some (g x)) l → mapM f l = Some (g <$> l).
Proof.
  induction 1 as [|x l Hx _ IH]; [done|].
  cbn. rewrite Hx. cbn. rewrite IH. done.
Qed.

Lemma mapM_perm_fmap {A B} (f : A → option B) (g : A → B) (l l' : list A) :
  l ≡ₚ l' → Forall (λ x, f x = Some (g x)) l' → mapM f l = Some (g <$> l).
Proof.
  intros Hp Hall. apply mapM_pointwise. by rewrite Hp.
Qed.

Lemma concat_fmap_nil {A B} (l : list A) :
  concat ((λ _, @nil B) <$> l) = [].
Proof. induction l; cbn; auto. Qed.

Lemma concat_fmap_singleton {A B} (g : A → B) (l : list A) :
  concat ((λ x, [g x]) <$> l) = g <$> l.
Proof. induction l; cbn; congruence. Qed.

Lemma for_each_app {A St} (body : A → St → option St) l1 l2 s :
  for_each body (l1 ++ l2) s = (for_each body l1 s ≫= for_each body l2).
Proof.
  revert s. induction l1 as [|x l1 IH]; intros s; cbn; [done|].
  destruct (body x s); cbn; auto.
Qed.

Lemma for_each_ext {A St} (body body' : A → St → option St) l s :
  (∀ x s, body x s = body' x s) → for_each body l s = for_each body' l s.
Proof.
  intros Hb. revert s. induction l as [|x l IH]; intros s; [done|].
  cbn [for_each]. rewrite Hb. destruct (body' x s); cbn; auto.
Qed.

Lemma for_each_singleton {A St} (body : A → St → option St) x s :
  for_each body [x] s = body x s.
Proof. cbn. by destruct (body x s). Qed.

Lemma lookup_head {A} (x : A) (l : list A) : (x :: l) !! 0%nat = Some x.
Proof. reflexivity. Qed.

Lemma lookup_tail {A} (x : A) (l : list A) (n : nat) :
  (x :: l) !! S n = l !! n.
Proof. reflexivity. Qed.

Lemma load_lookup {A} (mem : list A) (ix : Z) :
  0 ≤ ix → load mem ix = mem !! Z.to_nat ix.
Proof. intros. unfold load. by rewrite decide_True. Qed.

Lemma load_is_Some {A} (mem : list A) (ix : Z) :
  0 ≤ ix < Z.of_nat (length mem) → is_Some (load mem ix).
Proof.
  intros. rewrite load_lookup by lia. apply lookup_lt_is_Some. lia.
Qed.

Lemma load_fmap_seqZ {A} (g : Z → A) (n ix : Z) :
  0 ≤ ix < n → load (g <$> seqZ 0 n) ix = Some (g ix).
Proof.
  intros. rewrite load_lookup by lia.
  rewrite list_lookup_fmap, lookup_seqZ_lt by lia. cbn. f_equal. f_equal. lia.
Qed.

(** [RAJA_DIVIDE_CEILING_INT] is the ceiling of the quotient. *)
Lemma RAJA_DIVIDE_CEILING_INT_spec (a b : Z) :
  0 < b →
  let g := RAJA_DIVIDE_CEILING_INT a b in (g - 1) * b < a ≤ g * b.
Proof.
  intros Hb g. subst g. unfold RAJA_DIVIDE_CEILING_INT.
  pose proof (Z.div_mod (a + b - 1) b ltac:(lia)).
  pose proof (Z.mod_pos_bound (a + b - 1) b Hb). nia.
Qed.

(** ** The kernel [pi_reduce], for every arithmetic *)

Section pi_reduce_structure.
Context `{RealOps Real_type}.
Implicit Types (dx pi_init acc : Real_type) (ppi : list Real_type).

Lemma stride_loop_terminates dx iend stride fuel i acc :
  0 < stride → (Z.to_nat (iend - i) < fuel)%nat →
  is_Some (stride_loop fuel dx iend stride i acc).
Proof.
  intros Hs. revert i acc.
  induction fuel as [|fuel IH]; intros i acc Hf; [lia|].
  cbn. case_decide; [|by eexists]. apply IH. lia.
Qed.

Lemma thread_partial_terminates block_size dx pi_init iend gridDim b t :
  0 < block_size → 0 ≤ b < gridDim → 0 ≤ t →
  is_Some (thread_partial block_size dx pi_init iend gridDim b t).
Proof.
  intros. apply stride_loop_terminates; nia.
Qed.

(** With an empty domain the loop body never runs. *)
Lemma thread_partial_empty block_size dx pi_init iend gridDim b t :
  iend ≤ b * block_size + t →
  thread_partial block_size dx pi_init iend gridDim b t = Some pi_init.
Proof.
  intros. unfold thread_partial. cbn. by rewrite decide_False by lia.
Qed.

Lemma tree_step_length block_size i ppi ppi' :
  tree_step block_size i ppi = Some ppi' →
  length ppi' = Z.to_nat block_size.
Proof.
  intros Hs. apply length_mapM in Hs. by rewrite length_seqZ in Hs.
Qed.

Lemma tree_step_terminates block_size i ppi :
  0 ≤ i → 2 * i ≤ block_size → length ppi = Z.to_nat block_size →
  is_Some (tree_step block_size i ppi).
Proof.
  intros Hi Hb Hlen. apply mapM_is_Some. apply Forall_seqZ.
  intros t Ht. cbn.
  destruct (load_is_Some ppi t) as [a Ha]; [lia|].
  case_decide; [|by rewrite Ha].
  destruct (load_is_Some ppi (t + i)) as [c Hc]; [lia|].
  rewrite Ha, Hc. by eexists.
Qed.

Lemma tree_loop_terminates block_size fuel i ppi :
  0 ≤ i → 2 * i ≤ block_size → length ppi = Z.to_nat block_size →
  (Z.to_nat i < fuel)%nat →
  ∃ ppi', tree_loop fuel block_size i ppi = Some ppi' ∧
          length ppi' = Z.to_nat block_size.
Proof.
  revert i ppi. induction fuel as [|fuel IH]; intros i ppi Hi Hb Hl Hf; [lia|].
  cbn. case_decide; [|by eauto].
  destruct (tree_step_terminates block_size i ppi) as [ppi1 H1]; [lia..|].
  rewrite H1. cbn.
  assert (Z.quot i 2 = i / 2) as -> by (apply Z.quot_div_nonneg; lia).
  apply IH.
  - apply Z.div_pos; lia.
  - pose proof (Z.mul_div_le i 2). lia.
  - by eapply tree_step_length.
  - assert (i / 2 < i) by (apply Z.div_lt; lia). lia.
Qed.

Lemma block_ppi_terminates block_size dx pi_init iend gridDim b :
  0 < block_size → 0 ≤ b < gridDim →
  ∃ ppi, block_ppi block_size dx pi_init iend gridDim b = Some ppi ∧
         length ppi = Z.to_nat block_size.
Proof.
  intros HB Hb. unfold block_ppi.
  destruct (mapM (thread_partial block_size dx pi_init iend gridDim b)
              (seqZ 0 block_size)) as [ppi0|] eqn:E0.
  - rewrite bind_Some. apply tree_loop_terminates.
    + apply Z.div_pos; lia.
    + pose proof (Z.mul_div_le block_size 2). lia.
    + apply length_mapM in E0. by rewrite length_seqZ in E0.
    + assert (block_size / 2 < block_size) by (apply Z.div_lt; lia). lia.
  - exfalso. apply mapM_None in E0. apply Exists_exists in E0.
    destruct E0 as (t & Ht & Hn). apply elem_of_seqZ in Ht.
    destruct (thread_partial_terminates block_size dx pi_init iend
                gridDim b t) as [v Hv]; [lia..|]. congruence.
Qed.

Lemma block_total_terminates block_size dx pi_init iend gridDim b :
  0 < block_size → 0 ≤ b < gridDim →
  is_Some (block_total block_size dx pi_init iend gridDim b).
Proof.
  intros HB Hb. unfold block_total.
  destruct (block_ppi_terminates block_size dx pi_init iend gridDim b)
    as (ppi & -> & Hl); [done..|].
  cbn. apply load_is_Some. lia.
Qed.

Lemma thread_commit_0 ppi b v :
  load ppi 0 = Some v → thread_commit ppi b 0 = Some [AtomicAdd b 0 v].
Proof. intros Hv. unfold thread_commit. case_decide; [|done]. by rewrite Hv. Qed.

Lemma thread_commit_other ppi b t : t ≠ 0 → thread_commit ppi b t = Some [].
Proof. intros. unfold thread_commit. by case_decide. Qed.

(** Only thread 0 of a block writes [*dpi]: one atomic add of [ppi[0]]. *)
Lemma commits_of_block ppi b v block_size :
  0 < block_size → load ppi 0 = Some v →
  (ws ← mapM (thread_commit ppi b) (seqZ 0 block_size); Some (concat ws))
  = Some [AtomicAdd b 0 v].
Proof.
  intros HB Hv.
  rewrite (seqZ_cons 0 block_size) by lia. cbn.
  rewrite (thread_commit_0 _ _ _ Hv). cbn.
  rewrite (mapM_pointwise _ (λ _, [])).
  - cbn. by rewrite concat_fmap_nil.
  - apply Forall_seqZ. intros t Ht. apply thread_commit_other. lia.
Qed.

Lemma pi_reduce_block_total block_size dx pi_init iend gridDim b v :
  0 < block_size →
  block_total block_size dx pi_init iend gridDim b = Some v →
  pi_reduce block_size dx pi_init iend gridDim b = Some [AtomicAdd b 0 v].
Proof.
  intros HB. unfold block_total, pi_reduce.
  destruct (block_ppi _ _ _ _ _ _) as [ppi|]; cbn; [|done].
  intros Hv. by apply commits_of_block.
Qed.

Lemma launch_pi_reduce_writes block_size grid_size sched dx pi_init iend :
  0 < block_size → block_schedule grid_size sched →
  launch_pi_reduce block_size grid_size sched dx pi_init iend
  = Some ((λ b, AtomicAdd b 0
                  (total_of block_size dx pi_init iend grid_size b))
          <$> sched).
Proof.
  intros HB Hs. unfold launch_pi_reduce.
  rewrite (mapM_perm_fmap _
    (λ b, [AtomicAdd b 0 (total_of block_size dx pi_init iend grid_size b)])
    _ _ Hs).
  - cbn. by rewrite concat_fmap_singleton.
  - apply Forall_seqZ. intros b Hb. unfold total_of.
    destruct (block_total_terminates block_size dx pi_init iend grid_size b)
      as [v Hv]; [lia..|].
    rewrite Hv. by apply pi_reduce_block_total.
Qed.
End pi_reduce_structure.

(** ** One repetition on the device, for every arithmetic *)

Lemma concat_replicate_S_end {A} (n : nat) (cs : list A) :
  concat (replicate (S n) cs) = concat (replicate n cs) ++ cs.
Proof.
  rewrite replicate_S_end, concat_app. cbn. by rewrite app_nil_r.
Qed.

Section reduce_on_device.
Context `{RealOps Real_type}.
Implicit Types (k : PI_REDUCE Real_type) (env : Collaborators Real_type).

Lemma block_schedule_empty grid_size sched :
  grid_size ≤ 0 → block_schedule grid_size sched → sched = [].
Proof.
  unfold block_schedule. intros Hg Hs. rewrite seqZ_nil in Hs by done.
  by apply Permutation_nil_r.
Qed.

Lemma reduce_on_device_history block_size grid_size sched dx pi_init iend :
  0 < block_size → block_schedule grid_size sched →
  let ws := (λ b, AtomicAdd b 0
                    (total_of block_size dx pi_init iend grid_size b))
            <$> sched in
  reduce_on_device block_size grid_size sched dx pi_init iend
  = Some {| dpi_reset := pi_init; dpi_writes := ws;
            dpi_read := foldl apply_write pi_init ws |}.
Proof.
  intros HB Hs ws. unfold reduce_on_device.
  by rewrite launch_pi_reduce_writes.
Qed.

Lemma Block_rep_history env block_size irep k :
  0 < block_size →
  let grid_size :=
    RAJA_DIVIDE_CEILING_INT (getActualProblemSize k) block_size in
  let sched := block_order env irep grid_size in
  block_schedule grid_size sched →
  ∃ h, reduce_on_device block_size grid_size sched (m_dx k) (m_pi_init k)
         (getActualProblemSize k) = Some h ∧
       Block_rep env block_size irep k
       = Some (after_rep grid_size block_size (dpi_read h) k).
Proof.
  intros HB g sched Hs. unfold Block_rep. fold g. fold sched.
  rewrite reduce_on_device_history by done.
  eexists. split; [done|]. done.
Qed.

Lemma OccGS_rep_history env block_size max_grid_size irep k :
  0 < block_size →
  let grid_size :=
    Z.min (RAJA_DIVIDE_CEILING_INT (getActualProblemSize k) block_size)
      max_grid_size in
  let sched := block_order env irep grid_size in
  block_schedule grid_size sched →
  ∃ h, reduce_on_device block_size grid_size sched (m_dx k) (m_pi_init k)
         (getActualProblemSize k) = Some h ∧
       OccGS_rep env block_size max_grid_size irep k
       = Some (after_rep grid_size block_size (dpi_read h) k).
Proof.
  intros HB g sched Hs. unfold OccGS_rep. fold g. fold sched.
  rewrite reduce_on_device_history by done.
  eexists. split; [done|]. done.
Qed.

(** A repetition loop whose body appends the same calls and keeps the
    problem description. *)
Lemma for_each_reps (body : Z → PI_REDUCE Real_type → option (PI_REDUCE Real_type))
    (cs : list host_call) (n : nat) k :
  (∀ irep k0, getActualProblemSize k0 = getActualProblemSize k →
     ∃ k1, body irep k0 = Some k1 ∧
           getActualProblemSize k1 = getActualProblemSize k ∧
           getRunReps k1 = getRunReps k0 ∧ m_dx k1 = m_dx k0 ∧
           m_pi_init k1 = m_pi_init k0 ∧ getCout k1 = getCout k0 ∧
           calls k1 = calls k0 ++ cs) →
  ∃ k', for_each body (seqZ 0 (Z.of_nat n)) k = Some k' ∧
        getActualProblemSize k' = getActualProblemSize k ∧
        getRunReps k' = getRunReps k ∧ m_dx k' = m_dx k ∧
        m_pi_init k' = m_pi_init k ∧ getCout k' = getCout k ∧
        calls k' = calls k ++ concat (replicate n cs).
Proof.
  intros Hbody. induction n as [|n IH].
  - exists k. cbn. by rewrite app_nil_r.
  - destruct IH as (k1 & E1 & Hp & Hr & Hd & Hi & Hc & Hcalls).
    rewrite seqZ_S, for_each_app, E1, bind_Some, for_each_singleton.
    destruct (Hbody (0 + Z.of_nat n) k1 Hp)
      as (k2 & -> & Hp2 & Hr2 & Hd2 & Hi2 & Hc2 & Hcalls2).
    exists k2. rewrite concat_replicate_S_end, Hcalls2, Hcalls, app_assoc.
    repeat split; congruence.
Qed.
End reduce_on_device.

(** ** Claims on the reduction that hold for every arithmetic *)

Lemma seqZ_to_nat (m n : Z) : seqZ m n = seqZ m (Z.of_nat (Z.to_nat n)).
Proof. unfold seqZ. by rewrite Nat2Z.id. Qed.

Lemma example_env_schedules sizes valid irep grid_size :
  block_schedule grid_size
    (block_order (example_env sizes valid) irep grid_size).
Proof. unfold block_schedule. cbn. apply reverse_Permutation. Qed.

(** C4.  During one launch of [pi_reduce], whatever the arithmetic, the
    block size and the grid: between the reset of the accumulator and its
    read-back, the writes to it are exactly one [AtomicAdd] per block of the
    grid, each issued by thread 0 of its block and carrying that block's
    total [ppi[0]]; the plain store of the disabled branch never occurs. *)
Theorem accumulator_written_once_per_block_by_thread_0
    `{RealOps Real_type} (block_size grid_size : Z) (sched : list Z)
    (dx pi_init : Real_type) (iend : Z) :
  0 < block_size → block_schedule grid_size sched →
  ∃ h, reduce_on_device block_size grid_size sched dx pi_init iend = Some h ∧
       dpi_reset h = pi_init ∧
       dpi_read h = foldl apply_write (dpi_reset h) (dpi_writes h) ∧
       Forall (λ w, ∃ b v, 0 ≤ b < grid_size ∧
                 block_total block_size dx pi_init iend grid_size b = Some v ∧
                 w = AtomicAdd b 0 v) (dpi_writes h) ∧
       dpi_writes h ≡ₚ
         (λ b, AtomicAdd b 0 (total_of block_size dx pi_init iend grid_size b))
         <$> seqZ 0 grid_size.
Proof.
  intros HB Hs. rewrite reduce_on_device_history by done.
  eexists. split; [done|]. cbn. repeat split.
  - apply Forall_fmap, Forall_forall. intros b Hb. cbn.
    rewrite Hs in Hb. apply elem_of_seqZ in Hb.
    destruct (block_total_terminates block_size dx pi_init iend grid_size b)
      as [v Hv]; [lia..|].
    exists b, v. unfold total_of. rewrite Hv. repeat split; (lia || done).
  - by rewrite Hs.
Qed.

Lemma accumulator_written_once_per_block_witness :
  ∃ h, reduce_on_device 4 2 [1; 0] (1 # 8)%Q 0%Q 8 = Some h ∧
       dpi_reset h = 0%Q ∧
       dpi_read h = foldl apply_write (dpi_reset h) (dpi_writes h) ∧
       Forall (λ w, ∃ b v, 0 ≤ b < 2 ∧
                 block_total 4 (1 # 8)%Q 0%Q 8 2 b = Some v ∧
                 w = AtomicAdd b 0 v) (dpi_writes h) ∧
       dpi_writes h ≡ₚ
         (λ b, AtomicAdd b 0 (total_of 4 (1 # 8)%Q 0%Q 8 2 b)) <$> seqZ 0 2.
Proof.
  apply (accumulator_written_once_per_block_by_thread_0 4 2 [1; 0]).
  - lia.
  - unfold block_schedule. cbn. apply Permutation_swap.
Defined.

(** C6.  In [runCudaVariantOccGS], [Base_CUDA], whatever the problem size,
    the block size and the answer of the occupancy query: every repetition
    launches [min(normal_grid_size, max_grid_size)] blocks, where
    [normal_grid_size] is the ceiling of [iend / block_size] and
    [max_grid_size] the answer of [getCudaOccupancyMaxBlocks] for this block
    size and shared-memory size; so the launched grid is never larger than
    the normal one. *)
Theorem OccGS_launches_clamped_grid
    `{RealOps Real_type} (env : Collaborators Real_type) (block_size : Z)
    (k : PI_REDUCE Real_type) :
  0 < block_size →
  (∀ irep grid_size, block_schedule grid_size (block_order env irep grid_size)) →
  let iend := getActualProblemSize k in
  let shmem := sizeof_Real_type * block_size in
  let normal_grid_size := RAJA_DIVIDE_CEILING_INT iend block_size in
  let max_grid_size := getCudaOccupancyMaxBlocks env block_size shmem in
  let grid_size := Z.min normal_grid_size max_grid_size in
  (∃ k', runCudaVariantOccGS env block_size Base_CUDA k = Some k' ∧
         calls k' = calls k ++ [allocData 1; startTimer] ++
                    concat (replicate (Z.to_nat (getRunReps k))
                              (rep_calls grid_size block_size shmem)) ++
                    [stopTimer; deallocData]) ∧
  grid_size ≤ normal_grid_size ∧
  (normal_grid_size - 1) * block_size < iend ≤ normal_grid_size * block_size.
Proof.
  intros HB Hs iend shmem normal cap g. split; [|split].
  - unfold runCudaVariantOccGS. rewrite decide_True by done.
    fold shmem. fold cap.
    set (k0 := call [startTimer] (call [allocData 1] k)).
    destruct (for_each_reps (OccGS_rep env block_size cap)
                (rep_calls g block_size shmem) (Z.to_nat (getRunReps k)) k0)
      as (k1 & E1 & _ & _ & _ & _ & _ & Hc).
    { intros irep k' Hp.
      destruct (OccGS_rep_history env block_size cap irep k' HB) as (h & _ & ->).
      - apply Hs.
      - eexists. split; [done|]. cbn. rewrite Hp. done. }
    change (getRunReps (call [allocData 1] k)) with (getRunReps k).
    rewrite (seqZ_to_nat 0 (getRunReps k)). fold k0. rewrite E1, bind_Some.
    eexists. split; [done|]. cbn. rewrite Hc. cbn.
    rewrite <- !app_assoc. done.
  - apply Z.le_min_l.
  - by apply RAJA_DIVIDE_CEILING_INT_spec.
Qed.

Lemma OccGS_clamped_grid_witness :
  (∃ k', runCudaVariantOccGS (example_env [4] []) 4 Base_CUDA
           (example_kernel 10 (1 # 10)%Q 0%Q) = Some k' ∧
         calls k' = [allocData 1; startTimer; cudaMemcpyAsync_HostToDevice;
                     pi_reduce_launch 2 4 32; cudaGetLastError;
                     cudaMemcpyAsync_DeviceToHost; cudaStreamSynchronize;
                     stopTimer; deallocData]) ∧
  2 ≤ 3 ∧ (3 - 1) * 4 < 10 ≤ 3 * 4.
Proof.
  assert (0 < 4) as HB by lia.
  exact (OccGS_launches_clamped_grid (example_env [4] []) 4
           (example_kernel 10 (1 # 10)%Q 0%Q) HB (example_env_schedules [4] [])).
Defined.

(** ** Sums in exact arithmetic *)

Section exact_sums.
Context `{ExactSum Real_type}.
Implicit Types (a b c x : Real_type) (l : list Real_type).

Lemma radd_0_r a : a ⊕ r_zero = a.
Proof. by rewrite radd_comm, radd_0_l. Qed.

Lemma radd_interchange a b c d : (a ⊕ b) ⊕ (c ⊕ d) = (a ⊕ c) ⊕ (b ⊕ d).
Proof.
  rewrite <- (radd_assoc a b), (radd_assoc b c d), (radd_comm b c).
  by rewrite <- (radd_assoc c b d), radd_assoc.
Qed.

Lemma rsum_nil : rsum (@nil Real_type) = r_zero.
Proof. reflexivity. Qed.

Lemma rsum_cons x l : rsum (x :: l) = x ⊕ rsum l.
Proof. reflexivity. Qed.

Lemma rsum_app l1 l2 : rsum (l1 ++ l2) = rsum l1 ⊕ rsum l2.
Proof.
  induction l1 as [|x l1 IH]; [by rewrite rsum_nil, radd_0_l|].
  rewrite <- app_comm_cons, !rsum_cons, IH. apply radd_assoc.
Qed.

Lemma rsum_singleton x : rsum [x] = x.
Proof. apply radd_0_r. Qed.

Lemma rsum_perm l1 l2 : l1 ≡ₚ l2 → rsum l1 = rsum l2.
Proof.
  induction 1 as [|x l1 l2 _ IH|x y l|l1 l2 l3 _ IH1 _ IH2].
  - done.
  - by rewrite !rsum_cons, IH.
  - by rewrite !rsum_cons, !radd_assoc, (radd_comm y x).
  - congruence.
Qed.

Lemma foldl_radd a l : foldl radd a l = a ⊕ rsum l.
Proof.
  revert a. induction l as [|x l IH]; intros a.
  - by rewrite rsum_nil, radd_0_r.
  - cbn [foldl]. by rewrite IH, rsum_cons, radd_assoc.
Qed.

Lemma rsum_fmap_radd {A} (f g : A → Real_type) (l : list A) :
  rsum ((λ i, f i ⊕ g i) <$> l) = rsum (f <$> l) ⊕ rsum (g <$> l).
Proof.
  induction l as [|i l IH]; [by rewrite !fmap_nil, rsum_nil, radd_0_l|].
  rewrite !fmap_cons, !rsum_cons, IH. apply radd_interchange.
Qed.

Lemma rsum_fmap_ext {A} (f g : A → Real_type) (l : list A) :
  (∀ i, i ∈ l → f i = g i) → rsum (f <$> l) = rsum (g <$> l).
Proof.
  intros Hfg. f_equal. apply list_fmap_ext. intros ? i Hi.
  apply Hfg. by eapply list_elem_of_lookup_2.
Qed.

(** Adding [x] to the summand of one index adds [x] to the sum. *)
Lemma rsum_fmap_update (f : Z → Real_type) (x : Real_type) (r : Z)
    (l : list Z) :
  NoDup l → r ∈ l →
  rsum ((λ i, if decide (i = r) then f i ⊕ x else f i) <$> l)
  = rsum (f <$> l) ⊕ x.
Proof.
  induction 1 as [|i l Hi Hnd IH]; intros Hr; [by apply elem_of_nil in Hr|].
  rewrite !fmap_cons, !rsum_cons. case_decide as Hir.
  - subst i. rewrite (rsum_fmap_ext _ f).
    + by rewrite <- !radd_assoc, (radd_comm x).
    + intros j Hj. rewrite decide_False; [done|]. by intros ->.
  - apply elem_of_cons in Hr as [->|Hr]; [done|].
    by rewrite (IH Hr), radd_assoc.
Qed.

Lemma rsum_replicate_add (n m : nat) x :
  rsum (replicate (n + m) x) = rsum (replicate n x) ⊕ rsum (replicate m x).
Proof. by rewrite replicate_add, rsum_app. Qed.

Lemma rsum_fmap_const {A} (l : list A) (m : nat) x :
  rsum ((λ _, rsum (replicate m x)) <$> l) = rsum (replicate (length l * m) x).
Proof.
  induction l as [|i l IH]; [done|].
  rewrite fmap_cons, rsum_cons, IH. cbn [length Nat.mul].
  by rewrite rsum_replicate_add.
Qed.
End exact_sums.

(** ** The grid-stride loop, index by index *)

Section grid_stride.
Context `{RealOps Real_type}.
Implicit Types (dx pi_init acc v : Real_type).

Lemma stride_condition (stride i n : Z) :
  0 < stride → i < n →
  (i + stride ≤ n ∧ (n - (i + stride)) `mod` stride = 0) ↔
  (i ≤ n ∧ (n - i) `mod` stride = 0).
Proof.
  intros Hs Hi.
  replace (n - (i + stride)) with ((n - i) + (-1) * stride) by lia.
  rewrite Z_mod_plus_full. split; intros [H1 H2]; split; try lia.
  pose proof (Z.div_mod (n - i) stride ltac:(lia)) as Hq.
  rewrite H2, Z.add_0_r in Hq.
  destruct (Z.le_gt_cases ((n - i) `div` stride) 0); nia.
Qed.

(** Extending the domain by the element [n] adds [midpoint_term dx n] to
    the slot of the one thread whose stride sequence reaches [n]. *)
Lemma stride_loop_extend dx stride n fuel fuel' i acc v :
  0 < stride →
  stride_loop fuel dx n stride i acc = Some v →
  (Z.to_nat (n + 1 - i) < fuel')%nat →
  stride_loop fuel' dx (n + 1) stride i acc
  = Some (if decide (i ≤ n ∧ (n - i) `mod` stride = 0)
          then v ⊕ midpoint_term dx n else v).
Proof.
  intros Hs. revert fuel' i acc.
  induction fuel as [|fuel IH]; intros fuel' i acc Hv Hf; [done|].
  cbn in Hv. destruct (decide (i < n)) as [Hin|Hin].
  - destruct fuel' as [|fuel']; [lia|]. cbn.
    rewrite decide_True by lia.
    rewrite (IH fuel' _ _ Hv) by lia.
    f_equal. pose proof (stride_condition stride i n Hs Hin).
    repeat case_decide; tauto.
  - injection Hv as <-.
    destruct fuel' as [|fuel']; [lia|]. cbn.
    destruct (decide (i < n + 1)) as [Hi1|Hi1].
    + assert (i = n) as -> by lia.
      destruct fuel' as [|fuel']; [lia|]. cbn.
      rewrite decide_False by lia.
      rewrite decide_True; [done|]. split; [lia|].
      by rewrite Z.sub_diag.
    + by rewrite decide_False by lia.
Qed.

Lemma residue_of_start (stride i0 n : Z) :
  0 ≤ i0 < stride → 0 ≤ n →
  (i0 ≤ n ∧ (n - i0) `mod` stride = 0) ↔ n `mod` stride = i0.
Proof.
  intros Hi Hn. split.
  - intros [Hle Hm].
    pose proof (Z.div_mod (n - i0) stride ltac:(lia)).
    symmetry. apply (Z.mod_unique n stride ((n - i0) `div` stride) i0); lia.
  - intros Hm.
    pose proof (Z.div_mod n stride ltac:(lia)).
    pose proof (Z.div_pos n stride ltac:(lia) ltac:(lia)).
    split; [nia|].
    replace (n - i0) with (0 + (n `div` stride) * stride) by lia.
    by rewrite Z_mod_plus_full.
Qed.

Lemma partial_of_0 block_size dx pi_init gridDim b t :
  0 < block_size → 0 ≤ b → 0 ≤ t →
  partial_of block_size dx pi_init 0 gridDim b t = pi_init.
Proof.
  intros. unfold partial_of. rewrite thread_partial_empty; [done|nia].
Qed.

Lemma thread_partial_value block_size dx pi_init iend gridDim b t :
  0 < block_size → 0 ≤ b < gridDim → 0 ≤ t →
  thread_partial block_size dx pi_init iend gridDim b t
  = Some (partial_of block_size dx pi_init iend gridDim b t).
Proof.
  intros. unfold partial_of.
  by destruct (thread_partial_terminates block_size dx pi_init iend
                 gridDim b t) as [v ->].
Qed.

Lemma partial_of_extend block_size dx pi_init n gridDim b t :
  0 < block_size → 0 ≤ b < gridDim → 0 ≤ t < block_size → 0 ≤ n →
  partial_of block_size dx pi_init (n + 1) gridDim b t
  = if decide (n `mod` (gridDim * block_size) = b * block_size + t)
    then partial_of block_size dx pi_init n gridDim b t ⊕ midpoint_term dx n
    else partial_of block_size dx pi_init n gridDim b t.
Proof.
  intros HB Hb Ht Hn.
  pose proof (thread_partial_value block_size dx pi_init n gridDim b t
                HB Hb ltac:(lia)) as Hv.
  assert (0 ≤ b * block_size + t < gridDim * block_size) as Hi0 by nia.
  unfold partial_of at 1. unfold thread_partial in *.
  assert (0 < gridDim * block_size) as Hs by lia.
  rewrite (stride_loop_extend _ _ _ _ _ _ _ _ Hs Hv) by lia.
  cbn. pose proof (residue_of_start (gridDim * block_size)
                     (b * block_size + t) n Hi0 Hn).
  repeat case_decide; tauto.
Qed.
End grid_stride.

(** ** The launch as a sum, in exact arithmetic *)

Section pi_reduce_exact.
Context `{ExactSum Real_type}.
Implicit Types (dx pi_init acc v : Real_type) (ppi : list Real_type).

Lemma rsum_const {A} (l : list A) (x : Real_type) :
  rsum ((λ _, x) <$> l) = rsum (replicate (length l) x).
Proof. induction l as [|i l IH]; [done|]. cbn. by f_equal. Qed.

Lemma grid_sum_0 block_size dx pi_init gridDim :
  0 < block_size → 0 ≤ gridDim →
  grid_sum block_size dx pi_init 0 gridDim
  = rsum (replicate (Z.to_nat (gridDim * block_size)) pi_init).
Proof.
  intros HB HG. unfold grid_sum.
  rewrite (rsum_fmap_ext _
             (λ _, rsum (replicate (Z.to_nat block_size) pi_init))).
  - rewrite rsum_fmap_const, length_seqZ. by rewrite Z2Nat.inj_mul by lia.
  - intros b Hb. apply elem_of_seqZ in Hb.
    rewrite (rsum_fmap_ext _ (λ _, pi_init)).
    + by rewrite rsum_const, length_seqZ.
    + intros t Ht. apply elem_of_seqZ in Ht. apply partial_of_0; lia.
Qed.

Lemma grid_sum_extend block_size dx pi_init n gridDim :
  0 < block_size → 0 < gridDim → 0 ≤ n →
  grid_sum block_size dx pi_init (n + 1) gridDim
  = grid_sum block_size dx pi_init n gridDim ⊕ midpoint_term dx n.
Proof.
  intros HB HG Hn. unfold grid_sum.
  set (r := n `mod` (gridDim * block_size)).
  assert (0 ≤ r < gridDim * block_size) as Hr
    by (apply Z.mod_pos_bound; nia).
  pose proof (Z.div_mod r block_size ltac:(lia)) as Hdm.
  pose proof (Z.mod_pos_bound r block_size HB) as Ht0.
  set (b0 := r `div` block_size) in *. set (t0 := r `mod` block_size) in *.
  assert (0 ≤ b0 < gridDim) as Hb0 by nia.
  rewrite (rsum_fmap_ext _
    (λ b, if decide (b = b0)
          then rsum (partial_of block_size dx pi_init n gridDim b
                     <$> seqZ 0 block_size) ⊕ midpoint_term dx n
          else rsum (partial_of block_size dx pi_init n gridDim b
                     <$> seqZ 0 block_size))).
  { apply rsum_fmap_update; [apply NoDup_seqZ|]. apply elem_of_seqZ. lia. }
  intros b Hb. apply elem_of_seqZ in Hb. case_decide as Hbb.
  - subst b.
    rewrite (rsum_fmap_ext _
      (λ t, if decide (t = t0)
            then partial_of block_size dx pi_init n gridDim b0 t
                 ⊕ midpoint_term dx n
            else partial_of block_size dx pi_init n gridDim b0 t)).
    { apply rsum_fmap_update; [apply NoDup_seqZ|]. apply elem_of_seqZ. lia. }
    intros t Ht. apply elem_of_seqZ in Ht.
    rewrite partial_of_extend by lia. fold r.
    repeat case_decide; (done || lia).
  - apply rsum_fmap_ext. intros t Ht. apply elem_of_seqZ in Ht.
    rewrite partial_of_extend by lia. fold r.
    rewrite decide_False; [done|]. intros Hrt. apply Hbb.
    apply (Z.div_unique r block_size b t); lia.
Qed.

(** The slots of the grid hold one seed per thread and every term of the
    midpoint rule once. *)
Lemma grid_sum_value block_size dx pi_init iend gridDim :
  0 < block_size → 0 < gridDim → 0 ≤ iend →
  grid_sum block_size dx pi_init iend gridDim
  = rsum (replicate (Z.to_nat (gridDim * block_size)) pi_init)
    ⊕ rsum (midpoint_term dx <$> seqZ 0 iend).
Proof.
  intros HB HG Hiend. rewrite <- (Z2Nat.id iend Hiend).
  induction (Z.to_nat iend) as [|n IH].
  - change (Z.of_nat 0) with 0. rewrite grid_sum_0 by lia.
    by rewrite seqZ_nil, fmap_nil, rsum_nil, radd_0_r.
  - rewrite seqZ_S, fmap_app, rsum_app, radd_assoc, <- IH.
    rewrite Nat2Z.inj_succ, <- Z.add_1_r, grid_sum_extend by lia.
    by rewrite fmap_cons, fmap_nil, rsum_singleton.
Qed.
End pi_reduce_exact.

(** ** The in-block tree reduction, in exact arithmetic *)

Section tree_reduction.
Context `{ExactSum Real_type}.
Implicit Types (dx pi_init acc v : Real_type) (ppi : list Real_type).

Lemma load_at_index ppi t :
  0 ≤ t < Z.of_nat (length ppi) → load ppi t = Some (at_index ppi t).
Proof.
  intros Ht. unfold at_index. by destruct (load_is_Some ppi t Ht) as [v ->].
Qed.

Lemma at_index_fmap (g : Z → Real_type) n t :
  0 ≤ t < n → at_index (g <$> seqZ 0 n) t = g t.
Proof. intros. unfold at_index. by rewrite load_fmap_seqZ. Qed.

Lemma window_sum_fmap (g : Z → Real_type) n :
  window_sum (g <$> seqZ 0 n) n = rsum (g <$> seqZ 0 n).
Proof.
  apply rsum_fmap_ext. intros t Ht. apply elem_of_seqZ in Ht.
  apply at_index_fmap. lia.
Qed.

Lemma tree_step_value block_size i ppi :
  0 ≤ i → 2 * i ≤ block_size → length ppi = Z.to_nat block_size →
  tree_step block_size i ppi
  = Some ((λ t, if decide (t < i)
                then at_index ppi t ⊕ at_index ppi (t + i)
                else at_index ppi t) <$> seqZ 0 block_size).
Proof.
  intros Hi Hb Hlen. apply mapM_pointwise, Forall_seqZ. intros t Ht. cbn.
  rewrite (load_at_index ppi t) by lia.
  case_decide; [|done]. by rewrite (load_at_index ppi (t + i)) by lia.
Qed.

(** One pass folds the upper half of the live window onto the lower half. *)
Lemma tree_step_window block_size i ppi ppi' :
  0 ≤ i → 2 * i ≤ block_size → length ppi = Z.to_nat block_size →
  tree_step block_size i ppi = Some ppi' →
  window_sum ppi' i = window_sum ppi (2 * i).
Proof.
  intros Hi Hb Hlen. rewrite tree_step_value by done. intros [= <-].
  unfold window_sum.
  rewrite (rsum_fmap_ext _ (λ t, at_index ppi t ⊕ at_index ppi (t + i))).
  - rewrite rsum_fmap_radd.
    replace (2 * i) with (i + i) by lia.
    rewrite seqZ_app, fmap_app, rsum_app by lia. f_equal.
    replace (seqZ (0 + i) i) with (Z.add i <$> seqZ 0 i)
      by (rewrite fmap_add_seqZ; f_equal; lia).
    rewrite <- list_fmap_compose.
    apply rsum_fmap_ext. intros t _. cbn. f_equal. lia.
  - intros t Ht. apply elem_of_seqZ in Ht.
    rewrite at_index_fmap by lia. by rewrite decide_True by lia.
Qed.

Lemma tree_loop_pow2 block_size (m : nat) fuel ppi :
  length ppi = Z.to_nat block_size → 2 ^ Z.of_nat m ≤ block_size →
  (m < fuel)%nat →
  ∃ ppi', tree_loop fuel block_size (2 ^ Z.of_nat m / 2) ppi = Some ppi' ∧
          load ppi' 0 = Some (window_sum ppi (2 ^ Z.of_nat m)).
Proof.
  revert fuel ppi. induction m as [|m IH]; intros fuel ppi Hlen Hb Hf.
  - destruct fuel as [|fuel]; [lia|]. exists ppi. split; [done|].
    change (2 ^ Z.of_nat 0) with 1 in *.
    rewrite load_at_index by lia. f_equal.
    unfold window_sum. change (seqZ 0 1) with [0].
    by rewrite fmap_cons, fmap_nil, rsum_singleton.
  - destruct fuel as [|fuel]; [lia|].
    assert (2 ^ Z.of_nat (S m) = 2 * 2 ^ Z.of_nat m) as Hp
      by (rewrite Nat2Z.inj_succ, Z.pow_succ_r; lia).
    assert (0 < 2 ^ Z.of_nat m) as Hpos by (apply Z.pow_pos_nonneg; lia).
    rewrite Hp in *.
    replace (2 * 2 ^ Z.of_nat m / 2) with (2 ^ Z.of_nat m)
      by (rewrite Z.mul_comm, Z.div_mul; lia).
    cbn [tree_loop]. rewrite decide_True by done.
    destruct (tree_step block_size (2 ^ Z.of_nat m) ppi) as [ppi1|] eqn:E1.
    + rewrite bind_Some.
      rewrite Z.quot_div_nonneg by lia.
      destruct (IH fuel ppi1) as (ppi' & -> & Hl').
      * by eapply tree_step_length.
      * lia.
      * lia.
      * exists ppi'. split; [done|]. rewrite Hl'. f_equal.
        eapply tree_step_window; [| |done|done]; lia.
    + destruct (tree_step_terminates block_size (2 ^ Z.of_nat m) ppi)
        as [? ?]; [lia..|congruence].
Qed.

(** For a block size [2^m], [ppi[0]] ends as the sum of all slots. *)
Lemma block_total_pow2 (m : nat) block_size dx pi_init iend gridDim b :
  block_size = 2 ^ Z.of_nat m → 0 ≤ b < gridDim →
  block_total block_size dx pi_init iend gridDim b
  = Some (rsum (partial_of block_size dx pi_init iend gridDim b
                <$> seqZ 0 block_size)).
Proof.
  intros HB Hb.
  assert (0 < block_size) as Hpos by (subst; apply Z.pow_pos_nonneg; lia).
  unfold block_total, block_ppi.
  rewrite (mapM_pointwise _
             (partial_of block_size dx pi_init iend gridDim b)).
  - rewrite bind_Some.
    destruct (tree_loop_pow2 block_size m (S (Z.to_nat block_size))
                (partial_of block_size dx pi_init iend gridDim b
                 <$> seqZ 0 block_size))
      as (ppi' & E & Hl).
    + by rewrite length_fmap, length_seqZ.
    + lia.
    + pose proof (Z.pow_gt_lin_r 2 (Z.of_nat m)). lia.
    + rewrite <- HB in E, Hl. rewrite E, bind_Some, Hl.
      by rewrite window_sum_fmap.
  - apply Forall_seqZ. intros t Ht. apply thread_partial_value; lia.
Qed.

Lemma foldl_apply_write (f : Z → Real_type) (sched : list Z) acc :
  foldl apply_write acc ((λ b, AtomicAdd b 0 (f b)) <$> sched)
  = acc ⊕ rsum (f <$> sched).
Proof.
  rewrite <- foldl_radd. revert acc.
  induction sched as [|b l IH]; intros acc; [done|]. cbn. apply IH.
Qed.

(** The value read back after a launch on [grid_size > 0] blocks of [2^m]
    threads, for every order in which the blocks' updates land. *)
Lemma reduce_on_device_sum (m : nat) block_size grid_size sched dx pi_init
    iend :
  block_size = 2 ^ Z.of_nat m → 0 < grid_size → 0 ≤ iend →
  block_schedule grid_size sched →
  ∃ h, reduce_on_device block_size grid_size sched dx pi_init iend = Some h ∧
       dpi_read h
       = pi_init ⊕ (rsum (replicate (Z.to_nat (grid_size * block_size)) pi_init)
                    ⊕ rsum (midpoint_term dx <$> seqZ 0 iend)).
Proof.
  intros HB HG Hiend Hs.
  assert (0 < block_size) as Hpos by (subst; apply Z.pow_pos_nonneg; lia).
  rewrite reduce_on_device_history by done.
  eexists. split; [done|]. cbn [dpi_read].
  rewrite foldl_apply_write. f_equal.
  rewrite <- grid_sum_value by done. unfold grid_sum.
  rewrite (rsum_perm _ _ (fmap_Permutation _ _ _ Hs)).
  apply rsum_fmap_ext. intros b Hb. apply elem_of_seqZ in Hb.
  unfold total_of. by rewrite (block_total_pow2 m) by (done || lia).
Qed.
End tree_reduction.

(** ** The rationals are an exact arithmetic *)

Lemma Qplus_assoc_eq (a b c : Q) : (a + (b + c) = (a + b) + c)%Q.
Proof.
  destruct a as [a1 a2], b as [b1 b2], c as [c1 c2].
  unfold Qplus. cbn [Qnum Qden]. f_equal.
  - rewrite !Pos2Z.inj_mul. ring.
  - apply Pos.mul_assoc.
Qed.

Lemma Qplus_comm_eq (a b : Q) : (a + b = b + a)%Q.
Proof.
  destruct a as [a1 a2], b as [b1 b2].
  unfold Qplus. cbn [Qnum Qden]. f_equal.
  - ring.
  - apply Pos.mul_comm.
Qed.

Lemma Qplus_0_l_eq (a : Q) : (0 + a = a)%Q.
Proof.
  destruct a as [a1 a2]. unfold Qplus. cbn [Qnum Qden]. f_equal; lia.
Qed.

#[export] Instance Q_ExactSum : ExactSum Q.
Proof.
  split; [apply Qplus_assoc_eq | apply Qplus_comm_eq | apply Qplus_0_l_eq].
Qed.

(** ** Claims on the value of the reduction *)

Section thread_slots.
Context `{ExactSum Real_type}.

Lemma thread_indices_extend stride start n :
  0 ≤ n →
  thread_indices stride start (n + 1)
  = thread_indices stride start n
    ++ (if decide (n `mod` stride = start) then [n] else []).
Proof.
  intros Hn. unfold thread_indices.
  replace (n + 1) with (Z.of_nat (S (Z.to_nat n))) by lia.
  rewrite seqZ_S, filter_app, Z2Nat.id, Z.add_0_l by done.
  by rewrite filter_cons, filter_nil.
Qed.

(** A slot holds the seed and the terms of the indices its thread visits. *)
Lemma partial_of_indices block_size dx pi_init iend gridDim b t :
  0 < block_size → 0 ≤ b < gridDim → 0 ≤ t < block_size → 0 ≤ iend →
  partial_of block_size dx pi_init iend gridDim b t
  = pi_init ⊕ rsum (midpoint_term dx
                    <$> thread_indices (gridDim * block_size)
                          (b * block_size + t) iend).
Proof.
  intros HB Hb Ht Hiend. rewrite <- (Z2Nat.id iend Hiend).
  induction (Z.to_nat iend) as [|n IH].
  - change (Z.of_nat 0) with 0. rewrite partial_of_0 by lia.
    unfold thread_indices.
    by rewrite seqZ_nil, filter_nil, fmap_nil, rsum_nil, radd_0_r.
  - rewrite Nat2Z.inj_succ, <- Z.add_1_r.
    rewrite partial_of_extend, thread_indices_extend by lia.
    rewrite fmap_app, rsum_app, radd_assoc, <- IH.
    case_decide; [by rewrite fmap_cons, fmap_nil, rsum_singleton|].
    by rewrite fmap_nil, rsum_nil, radd_0_r.
Qed.
End thread_slots.

Lemma Qeq_bool_false (a b : Q) : Qeq_bool a b = false → ¬ (a == b)%Q.
Proof. intros Hf He. apply Qeq_bool_iff in He. congruence. Qed.

(** C3, as amended.  In exact arithmetic and for a block size that is a
    power of two: every thread of the launch seeds its slot of [ppi] with
    the full [pi_init] and adds the terms of the indices it visits; after
    the launch the accumulator holds the value it was reset to, plus
    [pi_init] once per launched thread ([grid_size * block_size] times),
    plus every term of the midpoint rule once, in whatever order the
    blocks' atomic updates land. *)
Theorem seed_counted_once_per_thread
    `{ExactSum Real_type} (m : nat) (block_size grid_size : Z)
    (sched : list Z) (dx pi_init : Real_type) (iend : Z) :
  block_size = 2 ^ Z.of_nat m → 0 < grid_size → 0 ≤ iend →
  block_schedule grid_size sched →
  (∀ b t, 0 ≤ b < grid_size → 0 ≤ t < block_size →
     thread_partial block_size dx pi_init iend grid_size b t
     = Some (pi_init ⊕ rsum (midpoint_term dx
                             <$> thread_indices (grid_size * block_size)
                                   (b * block_size + t) iend))) ∧
  ∃ h, reduce_on_device block_size grid_size sched dx pi_init iend = Some h ∧
       dpi_reset h = pi_init ∧
       dpi_read h
       = dpi_reset h
         ⊕ (rsum (replicate (Z.to_nat (grid_size * block_size)) pi_init)
            ⊕ rsum (midpoint_term dx <$> seqZ 0 iend)).
Proof.
  intros HB HG Hiend Hs.
  assert (0 < block_size) as Hpos by (subst; apply Z.pow_pos_nonneg; lia).
  split.
  - intros b t Hb Ht. rewrite thread_partial_value by lia.
    by rewrite partial_of_indices.
  - destruct (reduce_on_device_sum m block_size grid_size sched dx pi_init
                iend HB HG Hiend Hs) as (h & Hh & Hread).
    exists h. split; [done|].
    rewrite reduce_on_device_history in Hh by done.
    injection Hh as <-. by cbn in *.
Qed.

Lemma seed_counted_once_per_thread_witness :
  (∀ b t, 0 ≤ b < 2 → 0 ≤ t < 4 →
     thread_partial 4 (1 # 8)%Q 1%Q 8 2 b t
     = Some (1%Q ⊕ rsum (midpoint_term (1 # 8)%Q
                         <$> thread_indices (2 * 4) (b * 4 + t) 8))) ∧
  ∃ h, reduce_on_device 4 2 [1; 0] (1 # 8)%Q 1%Q 8 = Some h ∧
       dpi_reset h = 1%Q ∧
       dpi_read h
       = dpi_reset h
         ⊕ (rsum (replicate (Z.to_nat (2 * 4)) 1%Q)
            ⊕ rsum (midpoint_term (1 # 8)%Q <$> seqZ 0 8)).
Proof.
  apply (seed_counted_once_per_thread 2 4 2 [1; 0] (1 # 8)%Q 1%Q 8).
  - reflexivity.
  - lia.
  - lia.
  - unfold block_schedule. cbn. apply Permutation_swap.
Defined.

(** C3 as stated fails for a block of 96 threads (three warps): the
    reduction loop runs with [i] = 48, 24, 12, 6, 3, 1; after [i = 3] the
    slots 0, 1, 2 hold the sums of the threads congruent to 0, 1, 2 modulo
    3, and [i = 1] adds only slot 1 to slot 0.  With [pi_init = 1] the
    accumulator counts the seed 64 times on top of the reset value, not 96
    times, and misses the terms of the indices 2 and 5 ([iend = 6]). *)
Lemma seed_count_block_size_96 :
  ∃ h, reduce_on_device 96 1 [0] (1 # 6)%Q 1%Q 6 = Some h ∧
       (dpi_read h
        == 1 + (64 + rsum (midpoint_term (1 # 6)%Q
                           <$> filter (λ i : Z, (i `mod` 3 ≠ 2)%Z) (seqZ 0 6))))%Q ∧
       ¬ (dpi_read h
          == rsum (replicate 96 1%Q)
             + rsum (midpoint_term (1 # 6)%Q <$> seqZ 0 6))%Q ∧
       ¬ (dpi_read h
          == 1 + (rsum (replicate 96 1%Q)
                  + rsum (midpoint_term (1 # 6)%Q <$> seqZ 0 6)))%Q.
Proof.
  eexists. split; [vm_compute; reflexivity|]. split; [|split].
  - apply Qeq_bool_iff. vm_compute. reflexivity.
  - apply Qeq_bool_false. vm_compute. reflexivity.
  - apply Qeq_bool_false. vm_compute. reflexivity.
Qed.

(** C1, as amended.  In exact arithmetic, for a block size that is a power
    of two and every [iend >= 0], step [dx] and initial value: one
    repetition of [runCudaVariantBlock] (reset, one launch on
    [ceil(iend / block_size)] blocks, copy back, synchronize) reads back
    [m_pi_init] from the reset, plus [m_pi_init] once per launched thread,
    plus the midpoint-rule sum of [dx / (1 + x_i^2)] over [i = 0 .. iend-1];
    the host stores this value times 4.0 in [m_pi]. *)
Theorem Block_rep_midpoint_rule
    `{ExactSum Real_type} (m : nat) (env : Collaborators Real_type)
    (block_size irep : Z) (k : PI_REDUCE Real_type) :
  let iend := getActualProblemSize k in
  let grid_size := RAJA_DIVIDE_CEILING_INT iend block_size in
  let acc :=
    m_pi_init k
    ⊕ (rsum (replicate (Z.to_nat (grid_size * block_size)) (m_pi_init k))
       ⊕ rsum (midpoint_term (m_dx k) <$> seqZ 0 iend)) in
  block_size = 2 ^ Z.of_nat m → 0 ≤ iend →
  block_schedule grid_size (block_order env irep grid_size) →
  (∃ h, reduce_on_device block_size grid_size (block_order env irep grid_size)
          (m_dx k) (m_pi_init k) iend = Some h ∧ dpi_read h = acc) ∧
  ∃ k', Block_rep env block_size irep k = Some k' ∧ m_pi k' = acc ⊗ r_four.
Proof.
  intros iend g acc HB Hiend Hs.
  assert (0 < block_size) as Hpos by (subst; apply Z.pow_pos_nonneg; lia).
  assert (∃ h, reduce_on_device block_size g (block_order env irep g)
                 (m_dx k) (m_pi_init k) iend = Some h ∧ dpi_read h = acc)
    as (h & Hh & Hread).
  { pose proof (RAJA_DIVIDE_CEILING_INT_spec iend block_size Hpos) as Hg.
    cbn in Hg. fold g in Hg.
    destruct (decide (iend = 0)) as [Hz|Hz].
    - assert (g = 0) as Hg0 by nia.
      rewrite reduce_on_device_history by done.
      eexists. split; [done|]. cbn [dpi_read]. subst acc.
      rewrite (block_schedule_empty g _ ltac:(lia) Hs), Hg0, Hz.
      rewrite Z.mul_0_l. change (Z.to_nat 0) with 0%nat.
      rewrite seqZ_nil by lia. cbn [replicate fmap list_fmap foldl].
      by rewrite rsum_nil, radd_0_l, radd_0_r.
    - apply (reduce_on_device_sum m); (done || nia). }
  split; [by exists h|].
  destruct (Block_rep_history env block_size irep k Hpos Hs)
    as (h' & Hh' & ->).
  fold iend g in Hh'. rewrite Hh in Hh'. injection Hh' as <-.
  eexists. split; [done|]. cbn. by rewrite Hread.
Qed.

Lemma Block_rep_midpoint_rule_witness :
  let acc := (0 + (rsum (replicate 12 0%Q)
                   + rsum (midpoint_term (1 # 10)%Q <$> seqZ 0 10)))%Q in
  (∃ h, reduce_on_device 4 3 [2; 1; 0] (1 # 10)%Q 0%Q 10 = Some h ∧
        dpi_read h = acc) ∧
  ∃ k', Block_rep (example_env [4] []) 4 0 (example_kernel 10 (1 # 10)%Q 0%Q)
        = Some k' ∧ m_pi k' = (acc * 4)%Q.
Proof.
  assert (4 = 2 ^ Z.of_nat 2) as HB by reflexivity.
  assert (0 ≤ 10) as Hiend by lia.
  exact (Block_rep_midpoint_rule 2 (example_env [4] []) 4 0
           (example_kernel 10 (1 # 10)%Q 0%Q) HB Hiend
           (example_env_schedules [4] [] 0 3)).
Defined.

(** C1 as stated fails for a block of 96 threads: with [pi_init = 0],
    [iend = 6] and [dx = 1/6] the value stored in [m_pi] is not four times
    the midpoint-rule sum; the terms of the indices 2 and 5, which sit in
    slots congruent to 2 modulo 3, never reach slot 0. *)
Lemma Block_rep_block_size_96_misses_terms :
  ∃ k', Block_rep (example_env [96] []) 96 0
          (example_kernel 6 (1 # 6)%Q 0%Q) = Some k' ∧
        (m_pi k'
         == rsum (midpoint_term (1 # 6)%Q
                  <$> filter (λ i : Z, (i `mod` 3 ≠ 2)%Z) (seqZ 0 6)) * 4)%Q ∧
        ¬ (m_pi k'
           == rsum (midpoint_term (1 # 6)%Q <$> seqZ 0 6) * 4)%Q.
Proof.
  eexists. split; [vm_compute; reflexivity|]. split.
  - apply Qeq_bool_iff. vm_compute. reflexivity.
  - apply Qeq_bool_false. vm_compute. reflexivity.
Qed.

(** The same loss on the smallest grid that shows it, small enough to
    trace by hand: three threads, [ppi = [1; 1/5; 1/13]], one pass with
    [i = 1]; slot 2 is never added to slot 0. *)
Example block_size_3_by_hand :
  launch_pi_reduce 3 1 [0] 2%Q 0%Q 3 = Some [AtomicAdd 0 0 (384 # 320)%Q] ∧
  (384 # 320 == 1 + 1 / 5)%Q ∧
  (rsum (midpoint_term 2%Q <$> seqZ 0 3) == 1 + 1 / 5 + 1 / 13)%Q.
Proof. repeat split. Qed.

(** Why the statements above ask for exact arithmetic: in binary64 the
    value read back depends on the order in which the blocks' atomic
    updates land.  Three blocks of one thread, [iend = 3], [dx = 1/3]. *)
Example binary64_accumulator_depends_on_block_order :
  let dx := PrimFloat.div 1%float 3%float in
  let readback sched :=
    default 0%float
      (dpi_read <$> reduce_on_device 1 3 sched dx 0%float 3) in
  PrimFloat.ltb (readback [0; 1; 2]) (readback [2; 1; 0]) = true.
Proof. vm_compute. reflexivity. Qed.

(** ** The tuning dispatcher *)

Section dispatch.
Context `{RealOps Real_type}.
Implicit Types (k : PI_REDUCE Real_type) (env : Collaborators Real_type).

(** The configurations over the accepted sizes of a list of candidates. *)
Local Abbreviation configs env sizes :=
  (filter (λ block_size, accepted env block_size = true) sizes
   ≫= λ block_size,
        [(block_size, plain_grid); (block_size, occupancy_capped_grid)]).

Local Abbreviation n_accepted env sizes :=
  (Z.of_nat (length (filter (λ block_size, accepted env block_size = true)
                       sizes))).

Lemma configs_rejected env block_size sizes :
  accepted env block_size = false →
  configs env (block_size :: sizes) = configs env sizes.
Proof. intros Hr. rewrite filter_cons, decide_False; [done|congruence]. Qed.

Lemma configs_accepted env block_size sizes :
  accepted env block_size = true →
  configs env (block_size :: sizes)
  = (block_size, plain_grid) :: (block_size, occupancy_capped_grid)
    :: configs env sizes.
Proof. intros Ha. by rewrite filter_cons, decide_True. Qed.

Lemma n_accepted_rejected env block_size sizes :
  accepted env block_size = false →
  n_accepted env (block_size :: sizes) = n_accepted env sizes.
Proof. intros Hr. rewrite filter_cons, decide_False; [done|congruence]. Qed.

Lemma n_accepted_accepted env block_size sizes :
  accepted env block_size = true →
  n_accepted env (block_size :: sizes) = 1 + n_accepted env sizes.
Proof. intros Ha. rewrite filter_cons, decide_True by done. cbn [length]. lia. Qed.

(** A block size that fails the filter changes neither [t] nor the object. *)
Lemma tuning_step_rejected env vid tune_idx block_size t k :
  accepted env block_size = false →
  tuning_step env vid tune_idx block_size (t, k) = Some (t, k).
Proof. intros Hr. unfold tuning_step. by rewrite Hr. Qed.

(** An accepted block size advances [t] by two; only [t] and [t + 1] can
    select an implementation. *)
Lemma tuning_step_accepted env vid tune_idx block_size t k :
  accepted env block_size = true →
  tuning_step env vid tune_idx block_size (t, k)
  = if decide (tune_idx = t) then
      k' ← run_tuning env vid (block_size, plain_grid) k; Some (t + 2, k')
    else if decide (tune_idx = t + 1) then
      k' ← run_tuning env vid (block_size, occupancy_capped_grid) k;
      Some (t + 2, k')
    else Some (t + 2, k).
Proof.
  intros Ha. unfold tuning_step. rewrite Ha. cbn [run_tuning].
  destruct (decide (tune_idx = t)) as [->|Ht].
  - destruct (runCudaVariantBlock _ _ _ _) as [k'|]; [|done].
    rewrite bind_Some, decide_False by lia. rewrite bind_Some.
    by replace (t + 1 + 1) with (t + 2) by lia.
  - rewrite bind_Some. destruct (decide (tune_idx = t + 1)) as [->|Ht1].
    + destruct (runCudaVariantOccGS _ _ _ _) as [k'|]; [|done].
      rewrite !bind_Some. by replace (t + 1 + 1) with (t + 2) by lia.
    + rewrite bind_Some. by replace (t + 1 + 1) with (t + 2) by lia.
Qed.

(** Once [t] has passed [tune_idx] nothing more is selected. *)
Lemma tuning_loop_passed env vid tune_idx sizes t k :
  tune_idx < t →
  for_each (tuning_step env vid tune_idx) sizes (t, k)
  = Some (t + 2 * n_accepted env sizes, k).
Proof.
  revert t. induction sizes as [|block_size sizes IH]; intros t Ht.
  - cbn. do 2 f_equal. lia.
  - cbn [for_each]. destruct (accepted env block_size) eqn:Ha.
    + rewrite tuning_step_accepted by done.
      rewrite !decide_False by lia. rewrite bind_Some, IH by lia.
      rewrite n_accepted_accepted by done. do 2 f_equal. lia.
    + rewrite tuning_step_rejected by done.
      rewrite bind_Some, IH by lia. by rewrite n_accepted_rejected.
Qed.

(** The loop of [runCudaVariant] from counter value [t]: it runs the
    configuration at position [tune_idx - t], if there is one. *)
Lemma tuning_loop env vid tune_idx sizes t k :
  t ≤ tune_idx →
  for_each (tuning_step env vid tune_idx) sizes (t, k)
  = match configs env sizes !! Z.to_nat (tune_idx - t) with
    | Some cfg =>
        k' ← run_tuning env vid cfg k;
        Some (t + 2 * n_accepted env sizes, k')
    | None => Some (t + 2 * n_accepted env sizes, k)
    end.
Proof.
  revert t k. induction sizes as [|block_size sizes IH]; intros t k Ht.
  - cbn. do 2 f_equal. lia.
  - cbn [for_each]. destruct (accepted env block_size) eqn:Ha.
    + rewrite tuning_step_accepted, configs_accepted, n_accepted_accepted
        by done.
      destruct (decide (tune_idx = t)) as [->|Hne].
      { rewrite Z.sub_diag. change (Z.to_nat 0) with 0%nat.
        rewrite lookup_head.
        destruct (run_tuning _ _ _ _) as [k'|]; [|done].
        rewrite !bind_Some, tuning_loop_passed by lia. do 2 f_equal. lia. }
      destruct (decide (tune_idx = t + 1)) as [->|Hne1].
      { replace (t + 1 - t) with 1 by lia. change (Z.to_nat 1) with 1%nat.
        rewrite lookup_tail, lookup_head.
        destruct (run_tuning _ _ _ _) as [k'|]; [|done].
        rewrite !bind_Some, tuning_loop_passed by lia. do 2 f_equal. lia. }
      rewrite bind_Some, IH by lia.
      replace (Z.to_nat (tune_idx - t))
        with (S (S (Z.to_nat (tune_idx - (t + 2))))) by lia.
      rewrite !lookup_tail.
      replace (t + 2 + 2 * n_accepted env sizes)
        with (t + 2 * (1 + n_accepted env sizes)) by lia.
      done.
    + rewrite tuning_step_rejected, configs_rejected, n_accepted_rejected
        by done.
      by rewrite bind_Some, IH.
Qed.

(** Dispatch runs the configuration that the enumeration over the accepted
    block sizes has at position [tune_idx], and nothing if there is none. *)
Lemma runCudaVariant_tunings env vid tune_idx k :
  vid = Base_CUDA ∨ vid = RAJA_CUDA →
  runCudaVariant env vid tune_idx k
  = match load (tunings env) tune_idx with
    | Some cfg => run_tuning env vid cfg k
    | None => Some k
    end.
Proof.
  intros Hvid. unfold runCudaVariant, load, tunings.
  rewrite decide_True by done.
  destruct (decide (0 ≤ tune_idx)) as [Hi|Hi].
  - rewrite tuning_loop by done. rewrite Z.sub_0_r.
    destruct (_ !! _) as [cfg|]; [|done].
    by destruct (run_tuning env vid cfg k).
  - by rewrite tuning_loop_passed by lia.
Qed.
End dispatch.

(** ** Printing does not interfere with the variants *)

Lemma for_each_commute {A St} (g : St → St) (body : A → St → option St)
    (l : list A) (s : St) :
  (∀ x s, body x (g s) = g <$> body x s) →
  for_each body l (g s) = g <$> for_each body l s.
Proof.
  intros Hb. revert s. induction l as [|x l IH]; intros s; [done|].
  cbn [for_each]. rewrite Hb. destruct (body x s) as [s'|]; [|done].
  cbn. apply IH.
Qed.

Section print_frame.
Context `{RealOps Real_type}.
Implicit Types (k : PI_REDUCE Real_type) (env : Collaborators Real_type).

Lemma Block_rep_print env block_size irep o k :
  Block_rep env block_size irep (print o k)
  = print o <$> Block_rep env block_size irep k.
Proof. unfold Block_rep. cbn. by destruct (reduce_on_device _ _ _ _ _ _). Qed.

Lemma OccGS_rep_print env block_size max_grid_size irep o k :
  OccGS_rep env block_size max_grid_size irep (print o k)
  = print o <$> OccGS_rep env block_size max_grid_size irep k.
Proof. unfold OccGS_rep. cbn. by destruct (reduce_on_device _ _ _ _ _ _). Qed.

Lemma RAJA_rep_print env occ_calc block_size irep o k :
  RAJA_rep env occ_calc block_size irep (print o k)
  = print o <$> RAJA_rep env occ_calc block_size irep k.
Proof. reflexivity. Qed.

Lemma runCudaVariantBlock_print env block_size vid o k :
  vid = Base_CUDA ∨ vid = RAJA_CUDA →
  runCudaVariantBlock env block_size vid (print o k)
  = print o <$> runCudaVariantBlock env block_size vid k.
Proof.
  intros [->| ->]; unfold runCudaVariantBlock; cbn [decide].
  - rewrite !decide_True by done.
    change (call ?c (print o k)) with (print o (call c k)).
    change (getRunReps (print o k)) with (getRunReps k).
    rewrite (for_each_commute (print o)) by (intros; apply Block_rep_print).
    by destruct (for_each _ _ _).
  - rewrite decide_False by done. rewrite !decide_True by done.
    rewrite decide_False by done. rewrite !decide_True by done.
    change (call ?c (print o k)) with (print o (call c k)).
    change (getRunReps (print o k)) with (getRunReps k).
    rewrite (for_each_commute (print o)) by (intros; apply RAJA_rep_print).
    by destruct (for_each _ _ _).
Qed.

Lemma runCudaVariantOccGS_print env block_size vid o k :
  vid = Base_CUDA ∨ vid = RAJA_CUDA →
  runCudaVariantOccGS env block_size vid (print o k)
  = print o <$> runCudaVariantOccGS env block_size vid k.
Proof.
  intros [->| ->]; unfold runCudaVariantOccGS.
  - rewrite !decide_True by done.
    change (call ?c (call ?c' (print o k))) with (print o (call c (call c' k))).
    change (getRunReps (print o k)) with (getRunReps k).
    rewrite (for_each_commute (print o)) by (intros; apply OccGS_rep_print).
    by destruct (for_each _ _ _).
  - rewrite decide_False by done. rewrite !decide_True by done.
    rewrite decide_False by done. rewrite !decide_True by done.
    change (call ?c (print o k)) with (print o (call c k)).
    change (getRunReps (print o k)) with (getRunReps k).
    rewrite (for_each_commute (print o)) by (intros; apply RAJA_rep_print).
    by destruct (for_each _ _ _).
Qed.

Lemma run_tuning_print env vid cfg o k :
  vid = Base_CUDA ∨ vid = RAJA_CUDA →
  run_tuning env vid cfg (print o k) = print o <$> run_tuning env vid cfg k.
Proof.
  intros Hvid. destruct cfg as [block_size []]; cbn [run_tuning].
  - change (call ?c (print o k)) with (print o (call c k)).
    by apply runCudaVariantBlock_print.
  - change (call ?c (print o k)) with (print o (call c k)).
    by apply runCudaVariantOccGS_print.
Qed.

Lemma runCudaVariant_print env vid tune_idx o k :
  vid = Base_CUDA ∨ vid = RAJA_CUDA →
  runCudaVariant env vid tune_idx (print o k)
  = print o <$> runCudaVariant env vid tune_idx k.
Proof.
  intros Hvid. rewrite !runCudaVariant_tunings by done.
  destruct (load (tunings env) tune_idx) as [cfg|]; [|done].
  by apply run_tuning_print.
Qed.
End print_frame.

(** ** Claims on the dispatcher *)

Lemma load_fmap {A B} (f : A → B) (l : list A) (ix : Z) :
  load (f <$> l) ix = f <$> load l ix.
Proof. unfold load. case_decide; [apply list_lookup_fmap|done]. Qed.

Lemma tuning_name_inj (c1 c2 : Z * grid_strategy) :
  tuning_name c1 = tuning_name c2 → c1 = c2.
Proof.
  destruct c1 as [b1 []], c2 as [b2 []]; cbn [tuning_name]; intros Hn.
  - apply (inj (String.app "block_")), (inj pretty) in Hn. by subst.
  - cbn in Hn. discriminate.
  - cbn in Hn. discriminate.
  - apply (inj (String.app "occgs_")), (inj pretty) in Hn. by subst.
Qed.

Lemma setCudaTuningDefinitions_tunings `{RealOps Real_type}
    (env : Collaborators Real_type) (vid : VariantID) :
  vid = Base_CUDA ∨ vid = RAJA_CUDA →
  setCudaTuningDefinitions env vid = tuning_name <$> tunings env.
Proof.
  intros Hvid. unfold setCudaTuningDefinitions, tunings.
  rewrite decide_True by done.
  induction (gpu_block_sizes_type env) as [|block_size sizes IH]; [done|].
  cbn [flat_map]. rewrite IH, filter_cons.
  destruct (accepted env block_size) eqn:Ha.
  - by rewrite decide_True by done.
  - rewrite decide_False; [done|congruence].
Qed.

(** C10.  For [Base_CUDA] and [RAJA_CUDA], every candidate list and every
    filter: the names that [setCudaTuningDefinitions] registers are the
    names of the configurations ([block_B] then [occgs_B] for each accepted
    [B], in list order), and [runCudaVariant] with [tune_idx = t] runs the
    configuration at position [t] of the same enumeration (nothing when
    there is none); so the name at position [t] is the name of what
    dispatch runs for [t], and a name determines its configuration. *)
Theorem tuning_names_match_dispatch
    `{RealOps Real_type} (env : Collaborators Real_type) (vid : VariantID) :
  vid = Base_CUDA ∨ vid = RAJA_CUDA →
  setCudaTuningDefinitions env vid = tuning_name <$> tunings env ∧
  (∀ tune_idx k,
     runCudaVariant env vid tune_idx k
     = match load (tunings env) tune_idx with
       | Some cfg => run_tuning env vid cfg k
       | None => Some k
       end) ∧
  (∀ t, load (setCudaTuningDefinitions env vid) t
        = tuning_name <$> load (tunings env) t) ∧
  (∀ c1 c2, tuning_name c1 = tuning_name c2 → c1 = c2).
Proof.
  intros Hvid. repeat split.
  - by apply setCudaTuningDefinitions_tunings.
  - intros tune_idx k. by apply runCudaVariant_tunings.
  - intros t. rewrite setCudaTuningDefinitions_tunings by done.
    apply load_fmap.
  - apply tuning_name_inj.
Qed.

Lemma tuning_names_match_dispatch_witness :
  setCudaTuningDefinitions (example_env [128; 256; 512] [128; 512]) Base_CUDA
  = ["block_128"; "occgs_128"; "block_512"; "occgs_512"] ∧
  load (tunings (example_env [128; 256; 512] [128; 512])) 3
  = Some (512, occupancy_capped_grid) ∧
  ∀ k, runCudaVariant (example_env [128; 256; 512] [128; 512]) Base_CUDA 3 k
       = runCudaVariantOccGS (example_env [128; 256; 512] [128; 512]) 512
           Base_CUDA (call [setBlockSize 512] k).
Proof.
  destruct (tuning_names_match_dispatch
              (example_env [128; 256; 512] [128; 512]) Base_CUDA
              (or_introl eq_refl)) as (Hnames & Hrun & _ & _).
  split; [exact Hnames|]. split; [reflexivity|].
  intros k. exact (Hrun 3 k).
Defined.

(** C5, as amended.  For every candidate list and every filter: a block
    size that fails the filter produces no run and leaves the counter [t]
    as it is; a block size that passes advances [t] by two.  So
    [tune_idx] names the configuration at that position of the enumeration
    over the accepted block sizes only (plain, then occupancy-capped, per
    accepted size in list order), and an index past its end selects
    nothing; which configuration an index names depends on the filter. *)
Theorem rejected_block_sizes_are_not_counted
    `{RealOps Real_type} (env : Collaborators Real_type) (vid : VariantID)
    (tune_idx : Z) :
  vid = Base_CUDA ∨ vid = RAJA_CUDA →
  (∀ block_size t k, accepted env block_size = false →
     tuning_step env vid tune_idx block_size (t, k) = Some (t, k)) ∧
  (∀ block_size t k s, accepted env block_size = true →
     tuning_step env vid tune_idx block_size (t, k) = Some s →
     s.1 = t + 2) ∧
  (∀ k, runCudaVariant env vid tune_idx k
        = match load (tunings env) tune_idx with
          | Some cfg => run_tuning env vid cfg k
          | None => Some k
          end) ∧
  (Z.of_nat (length (tunings env)) ≤ tune_idx →
   ∀ k, runCudaVariant env vid tune_idx k = Some k).
Proof.
  intros Hvid. repeat split.
  - intros. by apply tuning_step_rejected.
  - intros block_size t k s Ha. rewrite tuning_step_accepted by done.
    repeat case_decide; intros Hs.
    + destruct (run_tuning _ _ _ _); [|done]. by injection Hs as <-.
    + destruct (run_tuning _ _ _ _); [|done]. by injection Hs as <-.
    + by injection Hs as <-.
  - intros k. by apply runCudaVariant_tunings.
  - intros Hlen k. rewrite runCudaVariant_tunings by done.
    unfold load. case_decide; [|done].
    rewrite lookup_ge_None_2; [done|lia].
Qed.

Lemma rejected_block_sizes_witness :
  runCudaVariant (example_env [128; 256] [256]) RAJA_CUDA 0
    (example_kernel 8 (1 # 8)%Q 0%Q)
  = runCudaVariantBlock (example_env [128; 256] [256]) 256 RAJA_CUDA
      (call [setBlockSize 256] (example_kernel 8 (1 # 8)%Q 0%Q)) ∧
  runCudaVariant (example_env [128; 256] [256]) RAJA_CUDA 2
    (example_kernel 8 (1 # 8)%Q 0%Q)
  = Some (example_kernel 8 (1 # 8)%Q 0%Q).
Proof.
  destruct (rejected_block_sizes_are_not_counted
              (example_env [128; 256] [256]) RAJA_CUDA 0
              (or_intror eq_refl)) as (_ & _ & Hrun & _).
  destruct (rejected_block_sizes_are_not_counted
              (example_env [128; 256] [256]) RAJA_CUDA 2
              (or_intror eq_refl)) as (_ & _ & _ & Hpast).
  split; [exact (Hrun _)|]. apply Hpast. apply Z.leb_le. reflexivity.
Defined.

(** C5 as stated fails: with the candidates 128 and 256 and a filter that
    accepts only 256, the step for 128 leaves [t] at 0, and [tune_idx = 0]
    runs block size 256, while with a filter that accepts both it runs
    block size 128. *)
Lemma tuning_index_depends_on_filter :
  let k := example_kernel 8 (1 # 8)%Q 0%Q in
  let all := example_env [128; 256] [] in
  let only_256 := example_env [128; 256] [256] in
  tuning_step only_256 Base_CUDA 0 128 (0, k) = Some (0, k) ∧
  ∃ k1 k2,
    runCudaVariant all Base_CUDA 0 k = Some k1 ∧
    runCudaVariant only_256 Base_CUDA 0 k = Some k2 ∧
    calls k1 !! 0%nat = Some (setBlockSize 128) ∧
    calls k1 !! 4%nat = Some (pi_reduce_launch 1 128 1024) ∧
    calls k2 !! 0%nat = Some (setBlockSize 256) ∧
    calls k2 !! 4%nat = Some (pi_reduce_launch 1 256 2048).
Proof.
  cbv zeta. split; [reflexivity|].
  eexists _, _.
  split; [vm_compute; reflexivity|]. split; [vm_compute; reflexivity|].
  repeat split.
Qed.

(** C9.  A variant id outside the set a dispatcher declares is reported
    on the output stream and nothing else happens: the dispatcher returns
    (it does not abort), no timer call, allocation or launch is made, no
    member changes; and a declared variant dispatched afterwards behaves
    as it would have without the report, which stays in the stream.  This
    holds for [PI_REDUCE::runCudaVariant] and its two implementations, and
    for [CONVECTION3DPA::runOpenMPTargetVariant], whose declared variants
    are empty stubs. *)
Theorem unknown_variant_is_reported
    `{RealOps Real_type} (env : Collaborators Real_type)
    (vid vid_omp : VariantID) (tune_idx : Z) (k : PI_REDUCE Real_type)
    (c : CONVECTION3DPA) :
  vid ≠ Base_CUDA → vid ≠ RAJA_CUDA →
  vid_omp ≠ Base_OpenMPTarget → vid_omp ≠ RAJA_OpenMPTarget →
  let report := unknown_Cuda_variant vid in
  (runCudaVariant env vid tune_idx k = Some (print report k) ∧
   calls (print report k) = calls k ∧
   m_pi (print report k) = m_pi k ∧
   getCout (print report k) = getCout k ++ report) ∧
  (∀ block_size,
     runCudaVariantBlock env block_size vid k = Some (print report k) ∧
     runCudaVariantOccGS env block_size vid k = Some (print report k)) ∧
  (∀ vid' tune_idx', vid' = Base_CUDA ∨ vid' = RAJA_CUDA →
     runCudaVariant env vid' tune_idx' (print report k)
     = print report <$> runCudaVariant env vid' tune_idx' k) ∧
  (runOpenMPTargetVariant vid_omp tune_idx c
   = {| c3d_calls := c3d_calls c;
        c3d_getCout := c3d_getCout c ++ unknown_OpenMPTarget_variant vid_omp |}) ∧
  runOpenMPTargetVariant Base_OpenMPTarget tune_idx c = c ∧
  runOpenMPTargetVariant RAJA_OpenMPTarget tune_idx c = c.
Proof.
  intros Hb Hr Hob Hor report. repeat split.
  - unfold runCudaVariant. rewrite decide_False; [done|tauto].
  - unfold runCudaVariantBlock. by rewrite !decide_False by done.
  - unfold runCudaVariantOccGS. by rewrite !decide_False by done.
  - intros vid' tune_idx' Hvid'. by apply runCudaVariant_print.
  - unfold runOpenMPTargetVariant. by rewrite !decide_False by done.
Qed.

Lemma unknown_variant_witness :
  runCudaVariant (example_env [256] []) Lambda_CUDA 0
    (example_kernel 8 (1 # 8)%Q 0%Q)
  = Some {| m_dx := (1 # 8)%Q; m_pi_init := 0%Q; m_pi := 0%Q;
            getActualProblemSize := 8; getRunReps := 1; calls := [];
            getCout := [out_string "
  PI_REDUCE : Unknown Cuda variant id = ";
                        out_VariantID Lambda_CUDA; out_endl] |}.
Proof.
  assert (Lambda_CUDA ≠ Base_CUDA) as H1 by discriminate.
  assert (Lambda_CUDA ≠ RAJA_CUDA) as H2 by discriminate.
  assert (Lambda_CUDA ≠ Base_OpenMPTarget) as H3 by discriminate.
  assert (Lambda_CUDA ≠ RAJA_OpenMPTarget) as H4 by discriminate.
  exact (proj1 (proj1 (unknown_variant_is_reported (example_env [256] [])
                         Lambda_CUDA Lambda_CUDA 0
                         (example_kernel 8 (1 # 8)%Q 0%Q)
                         {| c3d_calls := []; c3d_getCout := [] |}
                         H1 H2 H3 H4))).
Defined.

(** ** [poly_floyd_warshall]: the guard and the accesses *)

Section fw_safety.
Context `{RealOps Real_type}.
Implicit Types (d : device Real_type) (th : thread_id)
  (o : POLYBENCH_FLOYD_WARSHALL Real_type) (env : fw_Collaborators Real_type).

Lemma dev_load_in_range ix d :
  0 ≤ ix < Z.of_nat (length (pin d)) →
  dev_load ix d
  = Some (at_index (pin d) ix,
          {| pin := pin d; accesses := accesses d ++ [Load ix] |}).
Proof.
  intros Hix. unfold dev_load, at_index.
  by destruct (load_is_Some (pin d) ix Hix) as [v ->].
Qed.

Lemma dev_store_in_range ix v d :
  0 ≤ ix < Z.of_nat (length (pin d)) →
  dev_store ix v d
  = Some {| pin := <[Z.to_nat ix := v]> (pin d);
            accesses := accesses d ++ [Store ix] |}.
Proof. intros Hix. unfold dev_store, store. by rewrite decide_True. Qed.

Lemma offset_in_matrix (N i j : Z) :
  0 ≤ i < N → 0 ≤ j < N → 0 ≤ j + i * N < N * N.
Proof. intros. nia. Qed.

Lemma BODY_in_range k N i j d :
  0 ≤ i < N → 0 ≤ j < N → 0 ≤ k < N →
  length (pin d) = Z.to_nat (N * N) →
  POLYBENCH_FLOYD_WARSHALL_BODY k N i j d
  = Some {| pin := <[Z.to_nat (j + i * N) := relax_cell (pin d) k N i j]>
                     (pin d);
            accesses := accesses d ++ body_accesses k N i j |}.
Proof.
  intros Hi Hj Hk Hlen.
  pose proof (offset_in_matrix N i j Hi Hj).
  pose proof (offset_in_matrix N i k Hi Hk).
  pose proof (offset_in_matrix N k j Hk Hj).
  unfold POLYBENCH_FLOYD_WARSHALL_BODY.
  rewrite dev_load_in_range by lia. cbn [mbind option_bind pin accesses].
  rewrite dev_load_in_range by (cbn [pin]; lia).
  cbn [mbind option_bind pin accesses].
  rewrite dev_load_in_range by (cbn [pin]; lia).
  cbn [mbind option_bind pin accesses].
  rewrite dev_store_in_range by (cbn [pin]; lia).
  cbn [pin accesses]. unfold body_accesses, relax_cell, entry.
  by rewrite <- !app_assoc.
Qed.

Lemma BODY_accesses_in_matrix k N i j :
  0 ≤ i < N → 0 ≤ j < N → 0 ≤ k < N →
  Forall (in_matrix N) (body_accesses k N i j).
Proof.
  intros Hi Hj Hk. unfold body_accesses, in_matrix.
  repeat apply Forall_cons_2; cbn; [nia..|apply Forall_nil_2].
Qed.

(** The guard: a thread outside the matrix does nothing. *)
Lemma kernel_outside j_block_size i_block_size k N th d :
  N ≤ thread_i i_block_size th ∨ N ≤ thread_j j_block_size th →
  poly_floyd_warshall j_block_size i_block_size k N th d = Some d.
Proof.
  intros Hout. unfold poly_floyd_warshall, thread_i, thread_j in *.
  rewrite decide_False; [done|lia].
Qed.

Lemma kernel_lam_outside j_block_size i_block_size N body th d :
  N ≤ thread_i i_block_size th ∨ N ≤ thread_j j_block_size th →
  poly_floyd_warshall_lam j_block_size i_block_size N body th d = Some d.
Proof.
  intros Hout. unfold poly_floyd_warshall_lam, thread_i, thread_j in *.
  rewrite decide_False; [done|lia].
Qed.

Lemma kernel_inside j_block_size i_block_size k N th d :
  thread_i i_block_size th < N → thread_j j_block_size th < N →
  poly_floyd_warshall j_block_size i_block_size k N th d
  = POLYBENCH_FLOYD_WARSHALL_BODY k N (thread_i i_block_size th)
      (thread_j j_block_size th) d.
Proof.
  intros Hi Hj. unfold poly_floyd_warshall, thread_i, thread_j in *.
  by rewrite decide_True.
Qed.

(** The lambda variant runs the same body under the same guard. *)
Lemma kernel_lam_same j_block_size i_block_size k N th d :
  poly_floyd_warshall_lam j_block_size i_block_size N
    (λ i j, POLYBENCH_FLOYD_WARSHALL_BODY k N i j) th d
  = poly_floyd_warshall j_block_size i_block_size k N th d.
Proof. reflexivity. Qed.

Lemma eval_nblocks_32 (N block_size : Z) :
  32 ≤ block_size → eval_nblocks N block_size = Some (nblocks N block_size).
Proof.
  intros HB. unfold eval_nblocks. rewrite decide_False; [done|].
  unfold i_block_sz, j_block_sz.
  pose proof (Z.div_str_pos block_size 32 ltac:(lia)). lia.
Qed.

(** Below 32 threads per block the first pass of the launch loop faults
    before any launch. *)
Lemma Base_rep_faults_below_32 env block_size irep o :
  0 ≤ block_size < 32 → 0 < m_N o →
  Base_rep env block_size irep o = None ∧
  Lambda_rep env block_size irep o = None.
Proof.
  intros HB HN. unfold Base_rep, Lambda_rep.
  replace (m_N o) with (Z.of_nat (S (Z.to_nat (m_N o - 1)))) at 2 4 by lia.
  rewrite seqZ_cons by lia. cbn [for_each].
  unfold Base_launch, Lambda_launch, eval_nblocks.
  unfold i_block_sz, j_block_sz. rewrite Z.div_small by done.
  by rewrite !decide_True by done.
Qed.

Lemma Lambda_launch_device env block_size irep k o :
  fw_device <$> Lambda_launch env block_size irep k o
  = fw_device <$> Base_launch env block_size irep k o.
Proof.
  unfold Lambda_launch, Base_launch, launch_threads.
  destruct (eval_nblocks _ _) as [nb|]; [|done]. rewrite !bind_Some.
  rewrite (for_each_ext _ (poly_floyd_warshall j_block_sz
                             (i_block_sz block_size) k (m_N o)))
    by (intros; apply kernel_lam_same).
  by destruct (for_each _ _ _).
Qed.

Lemma thread_cell_nonneg j_block_size i_block_size th :
  0 ≤ j_block_size → 0 ≤ i_block_size → valid_thread th →
  0 ≤ thread_i i_block_size th ∧ 0 ≤ thread_j j_block_size th.
Proof. unfold valid_thread, thread_i, thread_j. intros. nia. Qed.

(** One thread: it returns, keeps the size of the array and touches only
    elements of the matrix. *)
Lemma kernel_safe j_block_size i_block_size k N th d :
  0 ≤ j_block_size → 0 ≤ i_block_size → valid_thread th →
  0 ≤ k < N → length (pin d) = Z.to_nat (N * N) →
  ∃ d' new,
    poly_floyd_warshall j_block_size i_block_size k N th d = Some d' ∧
    length (pin d') = length (pin d) ∧
    accesses d' = accesses d ++ new ∧ Forall (in_matrix N) new.
Proof.
  intros Hj Hi Hth Hk Hlen.
  destruct (thread_cell_nonneg j_block_size i_block_size th) as [Hi0 Hj0];
    [done..|].
  destruct (decide (thread_i i_block_size th < N
                    ∧ thread_j j_block_size th < N)) as [[Hin1 Hin2]|Hout].
  - rewrite kernel_inside, BODY_in_range by (done || lia).
    eexists _, _. split; [done|]. cbn [pin accesses].
    split; [by rewrite length_insert|]. split; [done|].
    apply BODY_accesses_in_matrix; lia.
  - rewrite kernel_outside by lia. exists d, [].
    by rewrite app_nil_r.
Qed.

Lemma launch_safe j_block_size i_block_size k N sched d :
  0 ≤ j_block_size → 0 ≤ i_block_size → Forall valid_thread sched →
  0 ≤ k < N → length (pin d) = Z.to_nat (N * N) →
  ∃ d' new,
    launch_threads (poly_floyd_warshall j_block_size i_block_size k N)
      sched d = Some d' ∧
    length (pin d') = length (pin d) ∧
    accesses d' = accesses d ++ new ∧ Forall (in_matrix N) new.
Proof.
  intros Hj Hi Hs Hk. revert d.
  induction Hs as [|th sched Hth _ IH]; intros d Hlen.
  - exists d, []. by rewrite app_nil_r.
  - destruct (kernel_safe j_block_size i_block_size k N th d)
      as (d1 & new1 & E1 & Hl1 & Ha1 & Hin1); [done..|].
    destruct (IH d1) as (d2 & new2 & E2 & Hl2 & Ha2 & Hin2); [congruence|].
    exists d2, (new1 ++ new2). unfold launch_threads in *.
    cbn [for_each]. rewrite E1, bind_Some, E2.
    split; [done|]. split; [congruence|].
    split; [by rewrite Ha2, Ha1, app_assoc|by apply Forall_app].
Qed.

Lemma Base_launch_safe env block_size irep N k o :
  32 ≤ block_size → Forall valid_thread (thread_order env irep k) →
  0 ≤ k < N → m_N o = N →
  length (pin (fw_device o)) = Z.to_nat (N * N) →
  ∃ d' new,
    launch_threads (poly_floyd_warshall j_block_sz (i_block_sz block_size) k N)
      (thread_order env irep k) (fw_device o) = Some d' ∧
    Base_launch env block_size irep k o
    = Some (fw_call [launch_call env N block_size k; cudaGetLastError]
              (fw_set_device d' o)) ∧
    length (pin d') = length (pin (fw_device o)) ∧
    accesses d' = accesses (fw_device o) ++ new ∧ Forall (in_matrix N) new.
Proof.
  intros HB Hs Hk HN Hlen.
  destruct (launch_safe j_block_sz (i_block_sz block_size) k N
              (thread_order env irep k) (fw_device o))
    as (d1 & new1 & E1 & Hl1 & Ha1 & Hin1);
    [done|apply Z.div_pos; (done || lia)|done..|].
  exists d1, new1. unfold Base_launch.
  rewrite HN, eval_nblocks_32, bind_Some, E1 by done. done.
Qed.

(** The launch loop over the indices [ks]: it issues one launch per index,
    in order, and stays inside the matrix. *)
Lemma launch_loop_safe env block_size irep N ks o :
  32 ≤ block_size →
  (∀ k, Forall valid_thread (thread_order env irep k)) →
  Forall (λ k, 0 ≤ k < N) ks → m_N o = N →
  length (pin (fw_device o)) = Z.to_nat (N * N) →
  ∃ o' new,
    for_each (Base_launch env block_size irep) ks o = Some o' ∧
    m_N o' = N ∧ fw_getRunReps o' = fw_getRunReps o ∧
    fw_getCout o' = fw_getCout o ∧
    length (pin (fw_device o')) = length (pin (fw_device o)) ∧
    fw_calls o' = fw_calls o ++ launch_calls env N block_size ks ∧
    accesses (fw_device o') = accesses (fw_device o) ++ new ∧
    Forall (in_matrix N) new.
Proof.
  intros HB Hsched Hks. revert o.
  induction Hks as [|k ks Hk _ IH]; intros o HN Hlen.
  - exists o, []. by rewrite !app_nil_r.
  - cbn [for_each].
    destruct (Base_launch_safe env block_size irep N k o)
      as (d1 & new1 & _ & -> & Hl1 & Ha1 & Hin1); [done..|].
    rewrite !bind_Some.
    set (o1 := fw_call _ (fw_set_device d1 o)).
    destruct (IH o1) as (o2 & new2 & E2 & HN2 & HR & HC & Hl2 & Hc2 & Ha2 & Hin2).
    { done. }
    { cbn. congruence. }
    exists o2, (new1 ++ new2). rewrite E2.
    split; [done|]. split; [done|]. split; [done|]. split; [done|].
    split; [cbn in *; congruence|].
    split; [by rewrite Hc2; cbn; rewrite <- app_assoc|].
    split; [by rewrite Ha2; cbn; rewrite Ha1, app_assoc|by apply Forall_app].
Qed.
End fw_safety.

(** ** The grid of a launch *)

Lemma elem_of_grid_threads (nb nt : dim3) (th : thread_id) :
  th ∈ grid_threads nb nt ↔
  0 ≤ blockIdx_x th < dim_x nb ∧ 0 ≤ blockIdx_y th < dim_y nb ∧
  0 ≤ threadIdx_x th < dim_x nt ∧ 0 ≤ threadIdx_y th < dim_y nt.
Proof.
  unfold grid_threads. split.
  - intros Hth.
    apply list_elem_of_bind in Hth as (b_y & Hth & Hby).
    apply list_elem_of_bind in Hth as (b_x & Hth & Hbx).
    apply list_elem_of_bind in Hth as (t_y & Hth & Hty).
    apply list_elem_of_bind in Hth as (t_x & Hth & Htx).
    apply list_elem_of_singleton in Hth. subst th. cbn.
    apply elem_of_seqZ in Hby, Hbx, Hty, Htx. lia.
  - intros (Hbx & Hby & Htx & Hty). destruct th as [bx by_ tx ty]. cbn in *.
    apply list_elem_of_bind. exists by_. split; [|apply elem_of_seqZ; lia].
    apply list_elem_of_bind. exists bx. split; [|apply elem_of_seqZ; lia].
    apply list_elem_of_bind. exists ty. split; [|apply elem_of_seqZ; lia].
    apply list_elem_of_bind. exists tx. split; [|apply elem_of_seqZ; lia].
    by apply list_elem_of_singleton.
Qed.

Lemma thread_schedule_valid (nb nt : dim3) (sched : list thread_id) :
  sched ≡ₚ grid_threads nb nt → Forall valid_thread sched.
Proof.
  intros Hs. apply Forall_forall. intros th Hth. rewrite Hs in Hth.
  apply elem_of_grid_threads in Hth. unfold valid_thread. lia.
Qed.

(** Every element of the matrix is assigned to a thread of the grid. *)
Lemma grid_covers_matrix (N block_size i j : Z) :
  32 ≤ block_size → 0 ≤ i < N → 0 ≤ j < N →
  ∃ th, th ∈ grid_threads (nblocks N block_size)
               (nthreads_per_block block_size) ∧
        thread_i (i_block_sz block_size) th = i ∧
        thread_j j_block_sz th = j.
Proof.
  intros HB Hi Hj.
  assert (0 < i_block_sz block_size) as Hib.
  { unfold i_block_sz, j_block_sz. apply Z.div_str_pos. lia. }
  assert (0 < j_block_sz) as Hjb by done.
  pose proof (RAJA_DIVIDE_CEILING_INT_spec N (i_block_sz block_size) Hib) as Hgi.
  pose proof (RAJA_DIVIDE_CEILING_INT_spec N j_block_sz Hjb) as Hgj.
  cbn zeta in Hgi, Hgj.
  pose proof (Z.div_mod i (i_block_sz block_size) ltac:(lia)) as Hdi.
  pose proof (Z.mod_pos_bound i (i_block_sz block_size) Hib) as Hmi.
  pose proof (Z.div_mod j j_block_sz ltac:(lia)) as Hdj.
  pose proof (Z.mod_pos_bound j j_block_sz Hjb) as Hmj.
  exists {| blockIdx_x := j `div` j_block_sz;
            blockIdx_y := i `div` i_block_sz block_size;
            threadIdx_x := j `mod` j_block_sz;
            threadIdx_y := i `mod` i_block_sz block_size |}.
  split; [|unfold thread_i, thread_j; cbn; lia].
  apply elem_of_grid_threads. cbn.
  assert (0 ≤ j `div` j_block_sz) by (apply Z.div_pos; lia).
  assert (0 ≤ i `div` i_block_sz block_size) by (apply Z.div_pos; lia).
  repeat split; try lia.
  - apply Z.div_lt_upper_bound; lia.
  - apply Z.div_lt_upper_bound; lia.
Qed.

(** C8.  For every matrix order [N], launch index [k] and block size of
    at least 32 (with a smaller one [i_block_sz] is 0 and the host divides
    by zero when it computes the grid): a thread of [poly_floyd_warshall]
    (or of [poly_floyd_warshall_lam]) whose coordinates give [i >= N] or
    [j >= N] makes no access and changes nothing; every thread of a launch
    [0 <= k < N] on an N×N array returns without fault and touches only
    elements of the matrix; and for [N <= 1] one pass of the launch loop
    issues no launch ([N <= 0]) or the single launch [k = 0] ([N = 1]),
    every access of which is inside the matrix. *)
Theorem guard_keeps_accesses_in_matrix
    `{RealOps Real_type} (env : fw_Collaborators Real_type)
    (block_size irep k N : Z) (th : thread_id) (d : device Real_type)
    (o : POLYBENCH_FLOYD_WARSHALL Real_type) :
  32 ≤ block_size → valid_thread th →
  let i := thread_i (i_block_sz block_size) th in
  let j := thread_j j_block_sz th in
  (N ≤ i ∨ N ≤ j →
   poly_floyd_warshall j_block_sz (i_block_sz block_size) k N th d = Some d ∧
   ∀ body, poly_floyd_warshall_lam j_block_sz (i_block_sz block_size) N body
             th d = Some d) ∧
  (0 ≤ k < N → length (pin d) = Z.to_nat (N * N) →
   ∃ d' new,
     poly_floyd_warshall j_block_sz (i_block_sz block_size) k N th d
     = Some d' ∧
     accesses d' = accesses d ++ new ∧ Forall (in_matrix N) new) ∧
  (m_N o ≤ 1 →
   length (pin (fw_device o)) = Z.to_nat (m_N o * m_N o) →
   (∀ k, thread_schedule (nblocks (m_N o) block_size)
           (nthreads_per_block block_size) (thread_order env irep k)) →
   ∃ o' new,
     Base_rep env block_size irep o = Some o' ∧
     fw_calls o'
     = fw_calls o ++ (if decide (m_N o = 1)
                      then [launch_call env 1 block_size 0; cudaGetLastError]
                      else []) ∧
     accesses (fw_device o') = accesses (fw_device o) ++ new ∧
     Forall (in_matrix (m_N o)) new).
Proof.
  intros HB Hth i j. split; [|split].
  - intros Hout. split; [by apply kernel_outside|].
    intros body. by apply kernel_lam_outside.
  - intros Hk Hlen.
    destruct (kernel_safe j_block_sz (i_block_sz block_size) k N th d)
      as (d' & new & E & _ & Ha & Hin);
      [done|apply Z.div_pos; (done || lia)|done..|].
    by exists d', new.
  - intros HN Hlen Hsched. unfold Base_rep.
    destruct (launch_loop_safe env block_size irep (m_N o)
                (seqZ 0 (m_N o)) o)
      as (o' & new & E & _ & _ & _ & _ & Hc & Ha & Hin); [done| | |done..|].
    + intros k'. apply (thread_schedule_valid _ _ _ (Hsched k')).
    + apply Forall_seqZ. lia.
    + exists o', new. split; [done|]. split; [|done].
      rewrite Hc. f_equal. unfold launch_calls.
      case_decide as H1; [by rewrite H1|].
      by rewrite seqZ_nil by lia.
Qed.

Lemma example_fw_env_schedules N block_size irep k :
  thread_schedule (nblocks N block_size) (nthreads_per_block block_size)
    (thread_order (example_fw_env N block_size) irep k).
Proof. apply reverse_Permutation. Qed.

(** A 1×1 matrix and one block of 32×1 threads: thread 5 is outside the
    matrix; the single launch makes the four accesses of thread 0. *)
Lemma guard_keeps_accesses_in_matrix_witness :
  poly_floyd_warshall j_block_sz (i_block_sz 32) 0 1
    {| blockIdx_x := 0; blockIdx_y := 0; threadIdx_x := 5; threadIdx_y := 0 |}
    {| pin := [7%Q]; accesses := [] |}
  = Some {| pin := [7%Q]; accesses := [] |} ∧
  ∃ o' new,
    Base_rep (example_fw_env 1 32) 32 0 (example_fw 1 [7%Q]) = Some o' ∧
    fw_calls o'
    = [poly_floyd_warshall_launch 1 1 32 1 0 0 0; cudaGetLastError] ∧
    accesses (fw_device o') = new ∧ Forall (in_matrix 1) new.
Proof.
  set (th := {| blockIdx_x := 0; blockIdx_y := 0;
                threadIdx_x := 5; threadIdx_y := 0 |}).
  assert (32 ≤ 32) as HB by lia.
  assert (valid_thread th) as Hth by (repeat split; cbn; lia).
  destruct (guard_keeps_accesses_in_matrix (example_fw_env 1 32) 32 0 0 1 th
              {| pin := [7%Q]; accesses := [] |} (example_fw 1 [7%Q])
              HB Hth) as (Hout & _ & Hchain).
  split.
  - apply Hout. right. subst th. unfold thread_j, j_block_sz. cbn. lia.
  - apply Hchain.
    + cbn. lia.
    + reflexivity.
    + intros k. apply example_fw_env_schedules.
Defined.

(** ** Shortest paths in exact arithmetic *)

Section exact_order.
Context `{ExactOrder Real_type}.
Implicit Types (a b x z : Real_type).

Lemma rle_refl a : rle a a.
Proof. apply rltb_irrefl. Qed.

Lemma rmin_cases a b : rmin a b = a ∨ rmin a b = b.
Proof. unfold rmin. destruct (rltb b a); auto. Qed.

Lemma rmin_le_l a b : rle (rmin a b) a.
Proof.
  unfold rmin, rle. destruct (rltb b a) eqn:E; [|apply rltb_irrefl].
  by apply rltb_asym.
Qed.

Lemma rmin_le_r a b : rle (rmin a b) b.
Proof.
  unfold rmin, rle. destruct (rltb b a) eqn:E; [apply rltb_irrefl|done].
Qed.

Lemma rmin_idem a x : rmin (rmin a x) x = rmin a x.
Proof.
  unfold rmin. destruct (rltb x a) eqn:E; [|by rewrite E].
  by rewrite rltb_irrefl.
Qed.

Lemma rle_add_nonneg_r a z : rle r_zero z → rle a (a ⊕ z).
Proof.
  intros Hz. rewrite <- (radd_0_r a) at 1.
  apply radd_le_mono; [apply rle_refl|done].
Qed.

Lemma rle_add_nonneg_l a z : rle r_zero z → rle a (z ⊕ a).
Proof.
  intros Hz. rewrite <- (radd_0_l a) at 1.
  apply radd_le_mono; [done|apply rle_refl].
Qed.

Lemma rmin_absorb_r a z : rle r_zero z → rmin a (a ⊕ z) = a.
Proof.
  intros Hz. unfold rmin. by rewrite (rle_add_nonneg_r a z Hz).
Qed.

Lemma rmin_absorb_l a z : rle r_zero z → rmin a (z ⊕ a) = a.
Proof.
  intros Hz. unfold rmin. by rewrite (rle_add_nonneg_l a z Hz).
Qed.

Lemma rle_add_nonneg a b : rle r_zero a → rle r_zero b → rle r_zero (a ⊕ b).
Proof.
  intros Ha Hb. rewrite <- (radd_0_l r_zero). by apply radd_le_mono.
Qed.
End exact_order.

Section shortest_paths.
Context `{ExactOrder Real_type}.
Variables (M : list Real_type) (N : Z).
Hypothesis M_non_negative :
  ∀ i j, 0 ≤ i < N → 0 ≤ j < N → rle r_zero (entry M N i j).

Lemma path_weight_app i p1 v p2 j :
  path_weight M N i (p1 ++ v :: p2) j
  = path_weight M N i p1 v ⊕ path_weight M N v p2 j.
Proof.
  revert i. induction p1 as [|u p1 IH]; intros i; [done|].
  cbn [app path_weight]. by rewrite IH, radd_assoc.
Qed.

Lemma path_weight_non_negative i p j :
  0 ≤ i < N → 0 ≤ j < N → Forall (λ v, 0 ≤ v < N) p →
  rle r_zero (path_weight M N i p j).
Proof.
  intros Hi Hj Hp. revert i Hi.
  induction Hp as [|v p Hv _ IH]; intros i Hi; cbn [path_weight].
  - by apply M_non_negative.
  - apply rle_add_nonneg; [by apply M_non_negative|by apply IH].
Qed.

Lemma vertices_below (k : Z) (p : list Z) :
  Forall (λ v, 0 ≤ v < k + 1) p → k ∉ p → Forall (λ v, 0 ≤ v < k) p.
Proof.
  rewrite !Forall_forall. intros Hp Hk v Hv.
  assert (v ≠ k) by (by intros ->). specialize (Hp v Hv). lia.
Qed.

Lemma vertices_weaken (k k' : Z) (p : list Z) :
  k ≤ k' → Forall (λ v, 0 ≤ v < k) p → Forall (λ v, 0 ≤ v < k') p.
Proof.
  intros Hk Hp. eapply Forall_impl; [exact Hp|]. intros v Hv. cbn in *. lia.
Qed.

(** Paths with no intermediate vertex: the matrix itself. *)
Lemma shortest_via_0 i j : shortest_via M N 0 i j (entry M N i j).
Proof.
  split.
  - exists []. split; [apply Forall_nil_2|done].
  - intros p Hp. destruct p as [|v p]; [apply rle_refl|].
    apply Forall_cons_1 in Hp as [Hv _]. lia.
Qed.

(** The relaxation through vertex [k], on a matrix [D] that holds the
    shortest paths through the vertices below [k]. *)
Section relaxation_step.
Variables (D : Z → Z → Real_type) (k : Z).
Hypothesis k_in_matrix : 0 ≤ k < N.
Hypothesis D_shortest :
  ∀ i j, 0 ≤ i < N → 0 ≤ j < N → shortest_via M N k i j (D i j).

Lemma D_non_negative i j : 0 ≤ i < N → 0 ≤ j < N → rle r_zero (D i j).
Proof.
  intros Hi Hj. destruct (D_shortest i j Hi Hj) as [(p & Hp & <-) _].
  apply path_weight_non_negative; [done..|].
  by apply (vertices_weaken k N); [lia|].
Qed.

Lemma from_k_lower_bound (n : nat) p j :
  (length p ≤ n)%nat → 0 ≤ j < N → Forall (λ v, 0 ≤ v < k + 1) p →
  rle (D k j) (path_weight M N k p j).
Proof.
  revert p. induction n as [|n IH]; intros p Hn Hj Hp.
  - destruct p; [|cbn in Hn; lia].
    by apply (D_shortest k j); [..|apply Forall_nil_2].
  - destruct (decide (k ∈ p)) as [Hin|Hnot].
    + apply list_elem_of_split_l in Hin as (q1 & q2 & -> & Hq1).
      apply Forall_app in Hp as [Hp1 Hp2].
      apply Forall_cons_1 in Hp2 as [_ Hp2].
      rewrite length_app in Hn. cbn in Hn.
      rewrite path_weight_app, <- (radd_0_l (D k j)).
      apply radd_le_mono.
      * apply path_weight_non_negative; [done..|].
        by apply (vertices_weaken (k + 1) N); [lia|].
      * apply IH; [lia|done..].
    + apply (D_shortest k j); [done..|]. by apply vertices_below.
Qed.

Lemma relaxation_lower_bound i j p :
  0 ≤ i < N → 0 ≤ j < N → Forall (λ v, 0 ≤ v < k + 1) p →
  rle (rmin (D i j) (D i k ⊕ D k j)) (path_weight M N i p j).
Proof.
  intros Hi Hj Hp. destruct (decide (k ∈ p)) as [Hin|Hnot].
  - apply list_elem_of_split_l in Hin as (p1 & p2 & -> & Hp1).
    apply Forall_app in Hp as [Hq1 Hq2].
    apply Forall_cons_1 in Hq2 as [_ Hq2].
    rewrite path_weight_app.
    eapply rle_trans; [apply rmin_le_r|].
    apply radd_le_mono.
    + apply (D_shortest i k); [done..|]. by apply vertices_below.
    + by apply (from_k_lower_bound (length p2)).
  - eapply rle_trans; [apply rmin_le_l|].
    apply (D_shortest i j); [done..|]. by apply vertices_below.
Qed.

Lemma relaxation_shortest i j :
  0 ≤ i < N → 0 ≤ j < N →
  shortest_via M N (k + 1) i j (rmin (D i j) (D i k ⊕ D k j)).
Proof.
  intros Hi Hj. split; [|intros p Hp; by apply relaxation_lower_bound].
  destruct (rmin_cases (D i j) (D i k ⊕ D k j)) as [-> | ->].
  - destruct (D_shortest i j Hi Hj) as [(p & Hp & Hw) _].
    exists p. split; [by apply (vertices_weaken k); [lia|]|done].
  - destruct (D_shortest i k Hi k_in_matrix) as [(p1 & Hp1 & Hw1) _].
    destruct (D_shortest k j k_in_matrix Hj) as [(p2 & Hp2 & Hw2) _].
    exists (p1 ++ k :: p2). split.
    + apply Forall_app. split; [by apply (vertices_weaken k); [lia|]|].
      apply Forall_cons_2; [lia|by apply (vertices_weaken k); [lia|]].
    + by rewrite path_weight_app, Hw1, Hw2.
Qed.
End relaxation_step.
End shortest_paths.

(** ** One launch is one relaxation step *)

Lemma offset_injective (N i j i' j' : Z) :
  0 ≤ j < N → 0 ≤ j' < N → j + i * N = j' + i' * N → i = i' ∧ j = j'.
Proof.
  intros Hj Hj' Heq.
  assert (i = i') as ->; [|lia].
  destruct (Z.lt_trichotomy i i') as [Hlt|[Heq'|Hgt]]; [nia|done|nia].
Qed.

Section fw_launch.
Context `{ExactOrder Real_type}.
Implicit Types (d : device Real_type) (th : thread_id) (M : list Real_type).

Lemma entry_insert M N i j i' j' v :
  0 ≤ i < N → 0 ≤ j < N → 0 ≤ i' < N → 0 ≤ j' < N →
  length M = Z.to_nat (N * N) →
  entry (<[Z.to_nat (j + i * N) := v]> M) N i' j'
  = if decide (i' = i ∧ j' = j) then v else entry M N i' j'.
Proof.
  intros Hi Hj Hi' Hj' Hlen.
  pose proof (offset_in_matrix N i j Hi Hj).
  pose proof (offset_in_matrix N i' j' Hi' Hj').
  unfold entry, at_index. rewrite !load_lookup by lia.
  case_decide as Hc.
  - destruct Hc as [-> ->]. by rewrite list_lookup_insert_eq by lia.
  - rewrite list_lookup_insert_ne; [done|].
    intros Heq. apply Hc.
    destruct (offset_injective N i j i' j') as [-> ->]; [done..|lia|done].
Qed.

Section one_launch.
Variables (M0 : list Real_type) (N k : Z) (j_block_size i_block_size : Z).
Hypothesis k_in_matrix : 0 ≤ k < N.
Hypothesis block_shape : 0 ≤ j_block_size ∧ 0 ≤ i_block_size.
Hypothesis diagonal_non_negative : rle r_zero (entry M0 N k k).

(** Row [k] and column [k] are fixed points of the relaxation. *)
Lemma relax_cell_column i : relax_cell M0 k N i k = entry M0 N i k.
Proof. unfold relax_cell. by apply rmin_absorb_r. Qed.

Lemma relax_cell_row j : relax_cell M0 k N k j = entry M0 N k j.
Proof. unfold relax_cell. by apply rmin_absorb_l. Qed.

Lemma mid_launch_column M i :
  mid_launch M0 N k M → 0 ≤ i < N → entry M N i k = entry M0 N i k.
Proof.
  intros [_ HM] Hi. destruct (HM i k Hi k_in_matrix) as [->| ->]; [done|].
  apply relax_cell_column.
Qed.

Lemma mid_launch_row M j :
  mid_launch M0 N k M → 0 ≤ j < N → entry M N k j = entry M0 N k j.
Proof.
  intros [_ HM] Hj. destruct (HM k j k_in_matrix Hj) as [->| ->]; [done|].
  apply relax_cell_row.
Qed.

Lemma mid_launch_relax M i j :
  mid_launch M0 N k M → 0 ≤ i < N → 0 ≤ j < N →
  relax_cell M k N i j = relax_cell M0 k N i j.
Proof.
  intros HM Hi Hj. unfold relax_cell at 1.
  rewrite mid_launch_column, mid_launch_row by done.
  destruct (proj2 HM i j Hi Hj) as [->| ->]; [done|].
  unfold relax_cell. apply rmin_idem.
Qed.

(** The effect of the threads [sched], in this order, in the middle of
    launch [k]: the elements they are assigned get their new value. *)
Lemma launch_relaxes sched d :
  Forall valid_thread sched → mid_launch M0 N k (pin d) →
  ∃ d', launch_threads (poly_floyd_warshall j_block_size i_block_size k N)
          sched d = Some d' ∧
        mid_launch M0 N k (pin d') ∧
        ∀ i j, 0 ≤ i < N → 0 ≤ j < N →
          (entry (pin d) N i j = relax_cell M0 k N i j ∨
           ∃ th, th ∈ sched ∧ thread_i i_block_size th = i ∧
                 thread_j j_block_size th = j) →
          entry (pin d') N i j = relax_cell M0 k N i j.
Proof.
  intros Hs. revert d.
  induction Hs as [|th sched Hth _ IH]; intros d Hmid.
  - exists d. split; [done|]. split; [done|].
    intros i j Hi Hj [Hd|(th & Hin & _)]; [done|].
    by apply elem_of_nil in Hin.
  - unfold launch_threads. cbn [for_each].
    destruct (thread_cell_nonneg j_block_size i_block_size th)
      as [Hi0 Hj0]; [tauto..|done|].
    destruct (decide (thread_i i_block_size th < N
                      ∧ thread_j j_block_size th < N)) as [[Hin1 Hin2]|Hout].
    + rewrite kernel_inside by done.
      rewrite BODY_in_range by (done || lia || apply Hmid).
      rewrite bind_Some, mid_launch_relax by (done || lia).
      set (i0 := thread_i i_block_size th) in *.
      set (j0 := thread_j j_block_size th) in *.
      set (d1 := {| pin := _; accesses := _ |}).
      assert (∀ i j, 0 ≤ i < N → 0 ≤ j < N →
                entry (pin d1) N i j
                = if decide (i = i0 ∧ j = j0) then relax_cell M0 k N i0 j0
                  else entry (pin d) N i j) as Hd1.
      { intros i j Hi Hj. apply entry_insert; (done || lia || apply Hmid). }
      destruct (IH d1) as (d' & E & Hmid' & Hd').
      { split; [cbn; rewrite length_insert; apply Hmid|].
        intros i j Hi Hj. rewrite Hd1 by done. case_decide as Hc.
        - destruct Hc as [-> ->]. by right.
        - by apply Hmid. }
      exists d'. split; [done|]. split; [done|].
      intros i j Hi Hj Hcase. apply Hd'; [done..|].
      destruct (decide (i = i0 ∧ j = j0)) as [[-> ->]|Hne].
      * left. rewrite Hd1 by done. by rewrite decide_True.
      * destruct Hcase as [Hd|(th' & Hth' & Hi' & Hj')].
        -- left. rewrite Hd1 by done. by rewrite decide_False.
        -- apply elem_of_cons in Hth' as [->|Hth'];
             [exfalso; apply Hne; by subst|].
           right. by exists th'.
    + rewrite kernel_outside by lia. rewrite bind_Some.
      destruct (IH d Hmid) as (d' & E & Hmid' & Hd').
      exists d'. split; [done|]. split; [done|].
      intros i j Hi Hj [Hd|(th' & Hth' & Hi' & Hj')].
      * apply Hd'; auto.
      * apply Hd'; [done..|].
        apply elem_of_cons in Hth' as [->|Hth']; [lia|].
        right. by exists th'.
Qed.
End one_launch.

(** A whole launch of the grid of [runCudaVariantImpl], in any order of
    its threads, relaxes every element of the matrix through vertex [k]. *)
Lemma launch_relaxes_matrix (N k block_size : Z) sched d :
  32 ≤ block_size → 0 ≤ k < N →
  thread_schedule (nblocks N block_size) (nthreads_per_block block_size)
    sched →
  length (pin d) = Z.to_nat (N * N) →
  rle r_zero (entry (pin d) N k k) →
  ∃ d', launch_threads
          (poly_floyd_warshall j_block_sz (i_block_sz block_size) k N)
          sched d = Some d' ∧
        length (pin d') = Z.to_nat (N * N) ∧
        ∀ i j, 0 ≤ i < N → 0 ≤ j < N →
          entry (pin d') N i j = relax_cell (pin d) k N i j.
Proof.
  intros HB Hk Hs Hlen Hkk.
  assert (0 ≤ j_block_sz ∧ 0 ≤ i_block_sz block_size) as Hshape.
  { split; [done|]. apply Z.div_pos; [lia|done]. }
  destruct (launch_relaxes (pin d) N k j_block_sz (i_block_sz block_size)
              Hk Hshape Hkk sched d) as (d' & E & [Hlen' _] & Hd').
  - by eapply thread_schedule_valid.
  - split; [done|]. by left.
  - exists d'. split; [done|]. split; [done|].
    intros i j Hi Hj. apply Hd'; [done..|]. right.
    destruct (grid_covers_matrix N block_size i j HB Hi Hj)
      as (th & Hth & Hti & Htj).
    exists th. split; [|done]. unfold thread_schedule in Hs. by rewrite Hs.
Qed.
End fw_launch.

(** ** The chain of launches *)

Lemma Q_rle_iff (a b : Q) : rle a b ↔ (a <= b)%Q.
Proof.
  unfold rle. cbn. unfold Qltb. rewrite negb_false_iff. apply Qle_bool_iff.
Qed.

#[export] Instance Q_ExactOrder : ExactOrder Q.
Proof.
  split.
  - apply Q_ExactSum.
  - intros a. apply Q_rle_iff, Qle_refl.
  - intros a b Hab. apply Q_rle_iff. cbn in Hab. unfold Qltb in Hab.
    apply negb_true_iff in Hab.
    destruct (Qlt_le_dec b a) as [Hlt|Hle]; [|done].
    apply Qlt_le_weak, Qle_bool_iff in Hlt. congruence.
  - intros a b c. rewrite !Q_rle_iff. apply Qle_trans.
  - intros a b c d. rewrite !Q_rle_iff. apply Qplus_le_compat.
Qed.

Section fw_chain.
Context `{ExactOrder Real_type}.
Implicit Types (o : POLYBENCH_FLOYD_WARSHALL Real_type)
  (env : fw_Collaborators Real_type) (M : list Real_type).

Lemma non_negative_entry M N i j :
  non_negative M → length M = Z.to_nat (N * N) →
  0 ≤ i < N → 0 ≤ j < N → rle r_zero (entry M N i j).
Proof.
  intros HM Hlen Hi Hj. pose proof (offset_in_matrix N i j Hi Hj).
  unfold entry, at_index.
  destruct (load_is_Some M (j + i * N)) as [x Hx]; [lia|].
  rewrite Hx. rewrite load_lookup in Hx by lia.
  by eapply Forall_lookup_1 in HM.
Qed.

Lemma entries_non_negative M N :
  0 ≤ N → length M = Z.to_nat (N * N) →
  (∀ i j, 0 ≤ i < N → 0 ≤ j < N → rle r_zero (entry M N i j)) →
  non_negative M.
Proof.
  intros HN0 Hlen HM. apply Forall_lookup_2. intros ix x Hx.
  pose proof (lookup_lt_Some _ _ _ Hx) as Hlt.
  assert (0 < N) as HN.
  { destruct (decide (N = 0)) as [->|]; [cbn in Hlen; lia|lia]. }
  pose proof (Z.div_mod (Z.of_nat ix) N ltac:(lia)) as Hdm.
  pose proof (Z.mod_pos_bound (Z.of_nat ix) N HN) as Hm.
  assert (0 ≤ Z.of_nat ix `div` N < N) as Hd.
  { split; [apply Z.div_pos; lia|]. apply Z.div_lt_upper_bound; nia. }
  specialize (HM _ _ Hd Hm). unfold entry, at_index in HM.
  rewrite load_lookup in HM by nia.
  replace (Z.to_nat (Z.of_nat ix `mod` N + Z.of_nat ix `div` N * N))
    with ix in HM by lia.
  by rewrite Hx in HM.
Qed.

(** The state after the launches [k = 0 .. n-1] of one pass of the loop. *)
Lemma launch_loop_shortest env block_size irep M N (n : nat) o :
  32 ≤ block_size → m_N o = N → pin (fw_device o) = M →
  length M = Z.to_nat (N * N) → non_negative M →
  (∀ k, thread_schedule (nblocks N block_size)
          (nthreads_per_block block_size) (thread_order env irep k)) →
  Z.of_nat n ≤ N →
  ∃ o', for_each (Base_launch env block_size irep) (seqZ 0 (Z.of_nat n)) o
        = Some o' ∧
        m_N o' = N ∧ length (pin (fw_device o')) = Z.to_nat (N * N) ∧
        fw_calls o'
        = fw_calls o ++ launch_calls env N block_size (seqZ 0 (Z.of_nat n)) ∧
        ∀ i j, 0 ≤ i < N → 0 ≤ j < N →
          shortest_via M N (Z.of_nat n) i j
            (entry (pin (fw_device o')) N i j).
Proof.
  intros HB HN HM Hlen Hnn Hsched.
  assert (∀ i j, 0 ≤ i < N → 0 ≤ j < N → rle r_zero (entry M N i j)) as Hnn'
    by (intros; by apply non_negative_entry).
  induction n as [|n IH]; intros Hn.
  - exists o. split; [done|]. split; [done|]. split; [congruence|].
    split; [by rewrite app_nil_r|].
    intros i j Hi Hj. rewrite HM. apply shortest_via_0.
  - destruct IH as (o1 & E1 & HN1 & Hlen1 & Hc1 & Hsp1); [lia|].
    rewrite seqZ_S, for_each_app, E1, bind_Some, for_each_singleton.
    rewrite Z.add_0_l. set (k := Z.of_nat n) in *.
    assert (0 ≤ k < N) as Hk by lia.
    destruct (launch_relaxes_matrix N k block_size (thread_order env irep k)
                (fw_device o1) HB Hk (Hsched k) Hlen1)
      as (d' & E & Hlen' & Hd').
    { apply (D_non_negative M N Hnn' (λ i j, entry (pin (fw_device o1)) N i j)
               k Hk Hsp1); done. }
    unfold Base_launch. rewrite HN1, eval_nblocks_32, bind_Some by done.
    rewrite E, bind_Some.
    eexists. split; [done|]. cbn.
    split; [done|]. split; [done|].
    split.
    { rewrite Hc1, <- app_assoc. f_equal. unfold launch_calls.
      by rewrite bind_app. }
    intros i j Hi Hj. rewrite Hd' by done.
    replace (Z.of_nat (S n)) with (k + 1) by lia.
    apply (relaxation_shortest M N Hnn'
             (λ i j, entry (pin (fw_device o1)) N i j) k Hk Hsp1); done.
Qed.
End fw_chain.

(** C2, as amended.  In exact arithmetic, for every N×N matrix with
    non-negative entries and every block size of at least 32: one pass of
    the repetition loop of [runCudaVariantImpl], [Base_CUDA], issues exactly
    the launches [k = 0, 1, .., N-1], in this order and all on the stream
    of the one resource; after launch [k]
    every element [(i, j)] of the matrix is the weight of a shortest path
    from [i] to [j] among the paths whose intermediate vertices are at most
    [k], in whatever order the threads of each launch run; the matrix that
    the pass leaves is again non-negative, so the same holds for the next
    repetition. *)
Theorem launches_in_order_keep_shortest_paths
    `{ExactOrder Real_type} (env : fw_Collaborators Real_type)
    (block_size irep : Z) (o : POLYBENCH_FLOYD_WARSHALL Real_type) :
  let N := m_N o in
  let M := pin (fw_device o) in
  32 ≤ block_size → 0 ≤ N → length M = Z.to_nat (N * N) → non_negative M →
  (∀ k, thread_schedule (nblocks N block_size)
          (nthreads_per_block block_size) (thread_order env irep k)) →
  (∃ o', Base_rep env block_size irep o = Some o' ∧
         fw_calls o' = fw_calls o ++ launch_calls env N block_size (seqZ 0 N) ∧
         length (pin (fw_device o')) = Z.to_nat (N * N) ∧
         non_negative (pin (fw_device o'))) ∧
  ∀ k, 0 ≤ k < N →
    ∃ o_k,
      for_each (Base_launch env block_size irep) (seqZ 0 (k + 1)) o
      = Some o_k ∧
      Base_rep env block_size irep o
      = for_each (Base_launch env block_size irep)
          (seqZ (k + 1) (N - (k + 1))) o_k ∧
      ∀ i j, 0 ≤ i < N → 0 ≤ j < N →
        shortest_via M N (k + 1) i j (entry (pin (fw_device o_k)) N i j).
Proof.
  intros N M HB HN Hlen Hnn Hsched.
  assert (∀ i j, 0 ≤ i < N → 0 ≤ j < N → rle r_zero (entry M N i j)) as Hnn'
    by (intros; by apply non_negative_entry).
  split.
  - destruct (launch_loop_shortest env block_size irep M N (Z.to_nat N) o)
      as (o' & E & _ & Hlen' & Hc & Hsp); [done..|lia|].
    rewrite Z2Nat.id in E, Hc, Hsp by done.
    exists o'. split; [done|]. split; [done|]. split; [done|].
    apply (entries_non_negative _ N); [done..|].
    intros i j Hi Hj. destruct (Hsp i j Hi Hj) as [(p & Hp & <-) _].
    apply path_weight_non_negative; [done..|].
    eapply Forall_impl; [exact Hp|]. intros v Hv. cbn in *. lia.
  - intros k Hk.
    destruct (launch_loop_shortest env block_size irep M N
                (Z.to_nat (k + 1)) o)
      as (o_k & E & _ & _ & _ & Hsp); [done..|lia|].
    rewrite Z2Nat.id in E, Hsp by lia.
    exists o_k. split; [done|]. split; [|done].
    unfold Base_rep. fold N.
    replace N with ((k + 1) + (N - (k + 1))) at 1 by lia.
    rewrite seqZ_app, for_each_app, E by lia. by rewrite Z.add_0_l.
Qed.

(** Three vertices; each launch runs its 32 threads last to first. *)
Lemma launches_in_order_witness :
  let M := [0; 8; 5;  3; 0; 9;  7; 2; 0]%Q in
  let o := example_fw 3 M in
  let env := example_fw_env 3 32 in
  (∃ o', Base_rep env 32 0 o = Some o' ∧
         fw_calls o'
         = [poly_floyd_warshall_launch 1 3 32 1 0 0 0; cudaGetLastError;
            poly_floyd_warshall_launch 1 3 32 1 0 0 1; cudaGetLastError;
            poly_floyd_warshall_launch 1 3 32 1 0 0 2; cudaGetLastError] ∧
         length (pin (fw_device o')) = Z.to_nat (3 * 3) ∧
         non_negative (pin (fw_device o'))) ∧
  ∀ k, 0 ≤ k < 3 →
    ∃ o_k,
      for_each (Base_launch env 32 0) (seqZ 0 (k + 1)) o = Some o_k ∧
      Base_rep env 32 0 o
      = for_each (Base_launch env 32 0) (seqZ (k + 1) (3 - (k + 1))) o_k ∧
      ∀ i j, 0 ≤ i < 3 → 0 ≤ j < 3 →
        shortest_via M 3 (k + 1) i j (entry (pin (fw_device o_k)) 3 i j).
Proof.
  cbv zeta.
  apply (launches_in_order_keep_shortest_paths (example_fw_env 3 32) 32 0
           (example_fw 3 [0; 8; 5;  3; 0; 9;  7; 2; 0]%Q)).
  - lia.
  - cbn. lia.
  - reflexivity.
  - unfold non_negative. cbn. repeat constructor.
  - intros k. apply example_fw_env_schedules.
Defined.

(** The run of the witness: the matrix after the three launches. *)
Example three_vertices_shortest_paths :
  (λ o, Qred <$> pin (fw_device o))
  <$> Base_rep (example_fw_env 3 32) 32 0
        (example_fw 3 [0; 8; 5;  3; 0; 9;  7; 2; 0]%Q)
  = Some [0; 7; 5;  3; 0; 8;  5; 2; 0]%Q.
Proof. vm_compute. reflexivity. Qed.

(** C2 as stated fails for a matrix with a negative entry: on the 1×1
    matrix [-1] the launch [k = 0] stores [min(-1, -1 + -1) = -2], while
    the path through the vertex 0 twice weighs [-3]; no entry is the weight
    of a shortest path. *)
Lemma negative_weight_has_no_shortest_path :
  ∃ o', Base_rep (example_fw_env 1 32) 32 0 (example_fw 1 [(-1)%Q])
        = Some o' ∧
        pin (fw_device o') = [(-2 # 1)%Q] ∧
        path_weight [(-1)%Q] 1 0 [0; 0] 0 = (-3 # 1)%Q ∧
        ¬ shortest_via [(-1)%Q] 1 (0 + 1) 0 0
            (entry (pin (fw_device o')) 1 0 0).
Proof.
  eexists. split; [vm_compute; reflexivity|].
  split; [reflexivity|]. split; [reflexivity|].
  intros [_ Hlow]. specialize (Hlow [0; 0]).
  assert (Forall (λ v, 0 ≤ v < 0 + 1) [0; 0]) as Hp
    by (repeat constructor; lia).
  specialize (Hlow Hp). vm_compute in Hlow. discriminate.
Qed.
(** ** More on the kernel [pi_reduce]: the grid-stride loop *)

Section grid_stride_fold.
Context `{RealOps Real_type}.
Implicit Types (dx pi_init : Real_type).

Lemma partial_of_fold block_size dx pi_init (n : nat) gridDim b t :
  0 < block_size → 0 ≤ b < gridDim → 0 ≤ t < block_size →
  partial_of block_size dx pi_init (Z.of_nat n) gridDim b t
  = foldl (λ acc i, acc ⊕ midpoint_term dx i) pi_init
      (thread_indices (gridDim * block_size) (b * block_size + t)
         (Z.of_nat n)).
Proof.
  intros HB Hb Ht. induction n as [|n IH].
  - change (Z.of_nat 0) with 0. by rewrite partial_of_0 by lia.
  - rewrite Nat2Z.inj_succ, <- Z.add_1_r.
    rewrite partial_of_extend, thread_indices_extend by lia.
    rewrite foldl_app, <- IH. by case_decide.
Qed.
End grid_stride_fold.

(** X1.  Lines 34-40 of [pi_reduce], in every arithmetic (binary64
    included): at the first barrier the slot of thread [t] of block [b]
    holds the seed [pi_init] with the terms of the indices
    [b * block_size + t], [+ gridDim * block_size], ... below [iend] added
    to it one after the other, in increasing order of the index. *)
Theorem thread_slot_is_left_fold
    `{RealOps Real_type} (block_size : Z) (dx pi_init : Real_type)
    (iend gridDim b t : Z) :
  0 < block_size → 0 ≤ b < gridDim → 0 ≤ t < block_size →
  thread_partial block_size dx pi_init iend gridDim b t
  = Some (foldl (λ acc i, acc ⊕ midpoint_term dx i) pi_init
            (thread_indices (gridDim * block_size) (b * block_size + t)
               iend)).
Proof.
  intros HB Hb Ht. destruct (decide (0 ≤ iend)) as [Hiend|Hiend].
  - rewrite thread_partial_value by lia.
    rewrite <- (Z2Nat.id iend Hiend). by rewrite partial_of_fold.
  - rewrite thread_partial_empty by nia.
    unfold thread_indices. by rewrite seqZ_nil by lia.
Qed.

Lemma thread_slot_is_left_fold_witness :
  thread_partial 2 (1 # 8)%Q 0%Q 8 2 1 0
  = Some (foldl (λ acc i, acc ⊕ midpoint_term (1 # 8)%Q i) 0%Q [2; 6]).
Proof.
  apply (thread_slot_is_left_fold 2 (1 # 8)%Q 0%Q 8 2 1 0); lia.
Defined.

(** X2.  The grid-stride loop of [pi_reduce] on a launch of [gridDim]
    blocks of [block_size] threads, in every arithmetic: enlarging the
    domain from [n] to [n + 1] elements adds the term of the index [n] to
    the slot (at the first barrier) of exactly one thread of the grid, the
    thread [(n mod stride) / block_size, (n mod stride) mod block_size]
    with [stride = gridDim * block_size], and leaves the slot of every
    other thread as it was.  So every index of the domain is visited by
    exactly one thread. *)
Theorem each_index_is_added_by_one_thread
    `{RealOps Real_type} (block_size : Z) (dx pi_init : Real_type)
    (gridDim n : Z) :
  0 < block_size → 0 < gridDim → 0 ≤ n →
  let stride := gridDim * block_size in
  let owner_b := (n `mod` stride) `div` block_size in
  let owner_t := (n `mod` stride) `mod` block_size in
  (0 ≤ owner_b < gridDim ∧ 0 ≤ owner_t < block_size) ∧
  ∀ b t, 0 ≤ b < gridDim → 0 ≤ t < block_size →
    thread_partial block_size dx pi_init (n + 1) gridDim b t
    = (v ← thread_partial block_size dx pi_init n gridDim b t;
       Some (if decide (b = owner_b ∧ t = owner_t)
             then v ⊕ midpoint_term dx n else v)).
Proof.
  intros HB HG Hn stride owner_b owner_t.
  assert (0 < stride) as Hs by (unfold stride; nia).
  pose proof (Z.mod_pos_bound n stride Hs) as Hr.
  pose proof (Z.div_mod (n `mod` stride) block_size ltac:(lia)) as Hdm.
  pose proof (Z.mod_pos_bound (n `mod` stride) block_size HB) as Ht.
  fold owner_b owner_t in Hdm, Ht.
  assert (0 ≤ owner_b < gridDim) as Hb.
  { split; [apply Z.div_pos; lia|].
    apply Z.div_lt_upper_bound; [lia|].
    assert (stride = block_size * gridDim) by (unfold stride; lia). lia. }
  split; [done|]. intros b t Hb' Ht'.
  rewrite !thread_partial_value by lia. rewrite bind_Some. f_equal.
  rewrite partial_of_extend by lia. fold stride.
  destruct (decide (n `mod` stride = b * block_size + t)) as [E|E].
  - rewrite decide_True; [done|].
    assert (b = owner_b) by nia. lia.
  - rewrite decide_False; [done|]. intros [-> ->]. lia.
Qed.

Lemma each_index_is_added_by_one_thread_witness :
  (0 ≤ 1 < 2 ∧ 0 ≤ 3 < 4) ∧
  ∀ b t, 0 ≤ b < 2 → 0 ≤ t < 4 →
    thread_partial 4 (1 # 20)%Q 0%Q (15 + 1) 2 b t
    = (v ← thread_partial 4 (1 # 20)%Q 0%Q 15 2 b t;
       Some (if decide (b = 1 ∧ t = 3)
             then (v + midpoint_term (1 # 20)%Q 15)%Q else v)).
Proof.
  assert (0 < 4) as HB by lia.
  assert (0 < 2) as HG by lia.
  assert (0 ≤ 15) as Hn by lia.
  exact (each_index_is_added_by_one_thread 4 (1 # 20)%Q 0%Q 2 15 HB HG Hn).
Defined.

(** X3.  The launch of [runCudaVariantBlock]: on the grid of
    [RAJA_DIVIDE_CEILING_INT(iend, block_size)] blocks the stride is at
    least [iend], so a thread runs the loop body at most once; in every
    arithmetic its slot at the first barrier is [pi_init] plus the term of
    its own index [b * block_size + t] when that index is below [iend], and
    [pi_init] alone otherwise. *)
Theorem plain_grid_one_term_per_thread
    `{RealOps Real_type} (block_size : Z) (dx pi_init : Real_type)
    (iend b t : Z) :
  0 < block_size → 0 ≤ t < block_size →
  let grid_size := RAJA_DIVIDE_CEILING_INT iend block_size in
  0 ≤ b < grid_size →
  thread_partial block_size dx pi_init iend grid_size b t
  = Some (if decide (b * block_size + t < iend)
          then pi_init ⊕ midpoint_term dx (b * block_size + t)
          else pi_init).
Proof.
  intros HB Ht grid_size Hb.
  pose proof (RAJA_DIVIDE_CEILING_INT_spec iend block_size HB) as Hg.
  cbv zeta in Hg. fold grid_size in Hg.
  case_decide as Hi; [|apply thread_partial_empty; lia].
  unfold thread_partial.
  assert (0 ≤ b * block_size + t) as H0 by nia.
  destruct (Z.to_nat iend) as [|n] eqn:En; [lia|].
  cbn. rewrite decide_True by done.
  destruct n; cbn; by rewrite ?decide_False by lia.
Qed.

Lemma plain_grid_one_term_per_thread_witness :
  thread_partial 4 (1 # 10)%Q 0%Q 10 3 2 1
  = Some (0 + midpoint_term (1 # 10)%Q 9)%Q ∧
  thread_partial 4 (1 # 10)%Q 0%Q 10 3 2 2 = Some 0%Q.
Proof.
  assert (0 < 4) as HB by lia.
  assert (0 ≤ 2 < RAJA_DIVIDE_CEILING_INT 10 4) as Hb
    by (vm_compute; split; congruence).
  split.
  - exact (plain_grid_one_term_per_thread 4 (1 # 10)%Q 0%Q 10 2 1 HB
             ltac:(lia) Hb).
  - exact (plain_grid_one_term_per_thread 4 (1 # 10)%Q 0%Q 10 2 2 HB
             ltac:(lia) Hb).
Defined.
(** ** More on [runCudaVariantBlock] and [runCudaVariantOccGS]: whole runs *)

(** Two loop bodies that agree on the states an invariant admits. *)
Lemma for_each_ext_inv {A St} (I : St → Prop)
    (body body' : A → St → option St) (l : list A) (s : St) :
  I s → (∀ x s, I s → body x s = body' x s) →
  (∀ x s s', I s → body' x s = Some s' → I s') →
  for_each body l s = for_each body' l s.
Proof.
  intros Hs Hext Hinv. revert s Hs. induction l as [|x l IH]; intros s Hs.
  - done.
  - cbn. rewrite Hext by done. destruct (body' x s) as [s'|] eqn:E; [|done].
    cbn. apply IH. by eapply Hinv.
Qed.

Section whole_runs.
Context `{RealOps Real_type}.
Implicit Types (k : PI_REDUCE Real_type) (env : Collaborators Real_type).

(** The same problem: the members a repetition reads and never writes. *)
Local Abbreviation same_problem k0 k :=
  (getActualProblemSize k0 = getActualProblemSize k ∧
   getRunReps k0 = getRunReps k ∧ m_dx k0 = m_dx k ∧
   m_pi_init k0 = m_pi_init k ∧ getCout k0 = getCout k).

(** A [Base_CUDA] repetition loop on a fixed grid: every pass resets the
    accumulator, so the value left in [m_pi] is that of the last pass. *)
Lemma Base_reps_loop env block_size grid_size
    (body : Z → PI_REDUCE Real_type → option (PI_REDUCE Real_type))
    (n : nat) k :
  0 < block_size →
  (∀ irep, block_schedule grid_size (block_order env irep grid_size)) →
  (∀ irep k0, same_problem k0 k →
     body irep k0
     = (h ← reduce_on_device block_size grid_size
              (block_order env irep grid_size) (m_dx k) (m_pi_init k)
              (getActualProblemSize k);
        Some (after_rep grid_size block_size (dpi_read h) k0))) →
  ∃ k', for_each body (seqZ 0 (Z.of_nat n)) k = Some k' ∧
        same_problem k' k ∧
        calls k' = calls k
                   ++ concat (replicate n
                        (rep_calls grid_size block_size
                           (sizeof_Real_type * block_size))) ∧
        match n with
        | O => m_pi k' = m_pi k
        | S n' =>
            ∃ h, reduce_on_device block_size grid_size
                   (block_order env (Z.of_nat n') grid_size) (m_dx k)
                   (m_pi_init k) (getActualProblemSize k) = Some h ∧
                 m_pi k' = dpi_read h ⊗ r_four
        end.
Proof.
  intros HB Hs Hbody. induction n as [|n IH].
  - exists k. cbn. by rewrite app_nil_r.
  - destruct IH as (k1 & E1 & Hp & Hcalls & _).
    rewrite seqZ_S, for_each_app, E1, bind_Some, for_each_singleton.
    rewrite Z.add_0_l, (Hbody _ _ Hp), concat_replicate_S_end.
    rewrite reduce_on_device_history by done. rewrite bind_Some.
    eexists. split; [done|]. cbn [calls after_rep set_m_pi call].
    rewrite Hcalls, app_assoc.
    destruct Hp as (? & ? & ? & ? & ?). repeat split; try done.
    eexists. split; done.
Qed.

Lemma Block_rep_body env block_size irep k0 k :
  same_problem k0 k →
  Block_rep env block_size irep k0
  = (let grid_size :=
       RAJA_DIVIDE_CEILING_INT (getActualProblemSize k) block_size in
     h ← reduce_on_device block_size grid_size
           (block_order env irep grid_size) (m_dx k) (m_pi_init k)
           (getActualProblemSize k);
     Some (after_rep grid_size block_size (dpi_read h) k0)).
Proof.
  intros (E1 & _ & E2 & E3 & _). unfold Block_rep. by rewrite E1, E2, E3.
Qed.

Lemma OccGS_rep_body env block_size max_grid_size irep k0 k :
  same_problem k0 k →
  OccGS_rep env block_size max_grid_size irep k0
  = (let grid_size :=
       Z.min (RAJA_DIVIDE_CEILING_INT (getActualProblemSize k) block_size)
         max_grid_size in
     h ← reduce_on_device block_size grid_size
           (block_order env irep grid_size) (m_dx k) (m_pi_init k)
           (getActualProblemSize k);
     Some (after_rep grid_size block_size (dpi_read h) k0)).
Proof.
  intros (E1 & _ & E2 & E3 & _). unfold OccGS_rep. by rewrite E1, E2, E3.
Qed.

(** The whole [Base_CUDA] branch of [runCudaVariantBlock]. *)
Lemma runCudaVariantBlock_Base env block_size k :
  0 < block_size →
  (∀ irep grid_size, block_schedule grid_size (block_order env irep grid_size)) →
  let iend := getActualProblemSize k in
  let grid_size := RAJA_DIVIDE_CEILING_INT iend block_size in
  let shmem := sizeof_Real_type * block_size in
  ∃ k', runCudaVariantBlock env block_size Base_CUDA k = Some k' ∧
        same_problem k' k ∧
        calls k' = calls k ++ [allocData 1; startTimer] ++
                   concat (replicate (Z.to_nat (getRunReps k))
                             (rep_calls grid_size block_size shmem)) ++
                   [stopTimer; deallocData] ∧
        match Z.to_nat (getRunReps k) with
        | O => m_pi k' = m_pi k
        | S n' =>
            ∃ h, reduce_on_device block_size grid_size
                   (block_order env (Z.of_nat n') grid_size) (m_dx k)
                   (m_pi_init k) iend = Some h ∧
                 m_pi k' = dpi_read h ⊗ r_four
        end.
Proof.
  intros HB Hs iend g shmem.
  unfold runCudaVariantBlock. rewrite decide_True by done.
  set (k0 := call [allocData 1; startTimer] k).
  destruct (Base_reps_loop env block_size g (Block_rep env block_size)
              (Z.to_nat (getRunReps k)) k0 HB (λ irep, Hs irep g))
    as (k1 & E1 & Hp & Hc & Hv).
  { intros irep k' Hp. by rewrite (Block_rep_body env block_size irep k' k0). }
  rewrite (seqZ_to_nat 0 (getRunReps k)), E1, bind_Some.
  eexists. split; [done|]. cbn. rewrite Hc. cbn.
  rewrite <- !app_assoc. split; [done|]. split; [done|].
  destruct (Z.to_nat (getRunReps k)); done.
Qed.

(** The whole [Base_CUDA] branch of [runCudaVariantOccGS]. *)
Lemma runCudaVariantOccGS_Base env block_size k :
  0 < block_size →
  (∀ irep grid_size, block_schedule grid_size (block_order env irep grid_size)) →
  let iend := getActualProblemSize k in
  let shmem := sizeof_Real_type * block_size in
  let grid_size :=
    Z.min (RAJA_DIVIDE_CEILING_INT iend block_size)
      (getCudaOccupancyMaxBlocks env block_size shmem) in
  ∃ k', runCudaVariantOccGS env block_size Base_CUDA k = Some k' ∧
        same_problem k' k ∧
        calls k' = calls k ++ [allocData 1; startTimer] ++
                   concat (replicate (Z.to_nat (getRunReps k))
                             (rep_calls grid_size block_size shmem)) ++
                   [stopTimer; deallocData] ∧
        match Z.to_nat (getRunReps k) with
        | O => m_pi k' = m_pi k
        | S n' =>
            ∃ h, reduce_on_device block_size grid_size
                   (block_order env (Z.of_nat n') grid_size) (m_dx k)
                   (m_pi_init k) iend = Some h ∧
                 m_pi k' = dpi_read h ⊗ r_four
        end.
Proof.
  intros HB Hs iend shmem g.
  unfold runCudaVariantOccGS. rewrite decide_True by done.
  fold shmem.
  set (cap := getCudaOccupancyMaxBlocks env block_size shmem).
  set (k0 := call [startTimer] (call [allocData 1] k)).
  destruct (Base_reps_loop env block_size g (OccGS_rep env block_size cap)
              (Z.to_nat (getRunReps k)) k0 HB (λ irep, Hs irep g))
    as (k1 & E1 & Hp & Hc & Hv).
  { intros irep k' Hp.
    by rewrite (OccGS_rep_body env block_size cap irep k' k0). }
  change (getRunReps (call [allocData 1] k)) with (getRunReps k).
  rewrite (seqZ_to_nat 0 (getRunReps k)). fold k0. rewrite E1, bind_Some.
  eexists. split; [done|]. cbn. rewrite Hc. cbn.
  rewrite <- !app_assoc. split; [done|]. split; [done|].
  destruct (Z.to_nat (getRunReps k)); done.
Qed.

(** The [RAJA_CUDA] repetition loop. *)
Lemma RAJA_reps_loop env occ_calc block_size (n : nat) k :
  ∃ k', for_each (RAJA_rep env occ_calc block_size) (seqZ 0 (Z.of_nat n)) k
        = Some k' ∧
        same_problem k' k ∧ calls k' = calls k ∧
        m_pi k'
        = match n with
          | O => m_pi k
          | S _ => r_four
                   ⊗ RAJA_forall_ReduceSum env occ_calc block_size
                       (m_pi_init k) 0 (getActualProblemSize k)
                       (midpoint_term (m_dx k))
          end.
Proof.
  induction n as [|n IH].
  - by exists k.
  - destruct IH as (k1 & E1 & (E2 & E3 & E4 & E5 & E6) & Hc & _).
    rewrite seqZ_S, for_each_app, E1, bind_Some, for_each_singleton.
    unfold RAJA_rep. eexists. split; [done|]. cbn.
    by rewrite E2, E4, E5.
Qed.

(** The whole [RAJA_CUDA] branch of either implementation. *)
Lemma RAJA_run env occ_calc block_size k :
  (k0 ← for_each (RAJA_rep env occ_calc block_size)
          (seqZ 0 (getRunReps k)) (call [startTimer] k);
   Some (call [stopTimer] k0))
  = Some {| m_dx := m_dx k; m_pi_init := m_pi_init k;
            m_pi := if decide (0 < getRunReps k)
                    then r_four
                         ⊗ RAJA_forall_ReduceSum env occ_calc block_size
                             (m_pi_init k) 0 (getActualProblemSize k)
                             (midpoint_term (m_dx k))
                    else m_pi k;
            getActualProblemSize := getActualProblemSize k;
            getRunReps := getRunReps k;
            calls := calls k ++ [startTimer; stopTimer];
            getCout := getCout k |}.
Proof.
  destruct (RAJA_reps_loop env occ_calc block_size
              (Z.to_nat (getRunReps k)) (call [startTimer] k))
    as (k1 & E1 & (E2 & E3 & E4 & E5 & E6) & Hc & Hv).
  rewrite (seqZ_to_nat 0 (getRunReps k)), E1, bind_Some.
  destruct k1 as [dx1 init1 pi1 iend1 reps1 calls1 cout1].
  cbn in *. subst. unfold call. cbn. f_equal. f_equal.
  - destruct (Z.to_nat (getRunReps k)) eqn:En; case_decide; (done || lia).
  - by rewrite <- app_assoc.
Qed.
End whole_runs.
(** ** Properties of whole runs of the reduction *)

Section device_sums.
Context `{ExactSum Real_type}.

Lemma rsum_replicate_zero (n : nat) :
  rsum (replicate n (r_zero : Real_type)) = r_zero.
Proof.
  induction n as [|n IH]; [apply rsum_nil|].
  cbn [replicate]. by rewrite rsum_cons, IH, radd_0_l.
Qed.

(** The accumulator after a launch on a power-of-two block, the empty grid
    of an empty domain included. *)
Lemma reduce_on_device_sum_0 (m : nat) block_size grid_size sched
    (dx pi_init : Real_type) iend :
  block_size = 2 ^ Z.of_nat m → 0 ≤ iend → 0 ≤ grid_size →
  (grid_size = 0 → iend = 0) → block_schedule grid_size sched →
  ∃ h, reduce_on_device block_size grid_size sched dx pi_init iend = Some h ∧
       dpi_read h
       = pi_init ⊕ (rsum (replicate (Z.to_nat (grid_size * block_size)) pi_init)
                    ⊕ rsum (midpoint_term dx <$> seqZ 0 iend)).
Proof.
  intros HB Hiend Hg Hg0 Hs.
  assert (0 < block_size) as Hpos by (subst; apply Z.pow_pos_nonneg; lia).
  destruct (decide (grid_size = 0)) as [Hz|Hz].
  - rewrite reduce_on_device_history by done.
    eexists. split; [done|]. cbn [dpi_read].
    rewrite (block_schedule_empty grid_size _ ltac:(lia) Hs), Hz, (Hg0 Hz).
    rewrite Z.mul_0_l. change (Z.to_nat 0) with 0%nat.
    rewrite seqZ_nil by lia. cbn [replicate fmap list_fmap foldl].
    by rewrite rsum_nil, radd_0_l, radd_0_r.
  - apply (reduce_on_device_sum m); (done || lia).
Qed.
End device_sums.

(** X4.  In exact arithmetic and for every block size, power of two or
    not: the value read back after a launch does not depend on the order in
    which the blocks' atomic updates land; it is the reset value plus the
    sum of the blocks' totals [ppi[0]]. *)
Theorem accumulator_independent_of_block_order
    `{ExactSum Real_type} (block_size grid_size : Z) (sched1 sched2 : list Z)
    (dx pi_init : Real_type) (iend : Z) :
  0 < block_size →
  block_schedule grid_size sched1 → block_schedule grid_size sched2 →
  ∃ h1 h2,
    reduce_on_device block_size grid_size sched1 dx pi_init iend = Some h1 ∧
    reduce_on_device block_size grid_size sched2 dx pi_init iend = Some h2 ∧
    dpi_read h1 = dpi_read h2 ∧
    dpi_read h1
    = pi_init ⊕ rsum (total_of block_size dx pi_init iend grid_size
                      <$> seqZ 0 grid_size).
Proof.
  intros HB Hs1 Hs2. rewrite !reduce_on_device_history by done.
  eexists _, _. split; [done|]. split; [done|]. cbn [dpi_read].
  rewrite !foldl_apply_write.
  rewrite (rsum_perm _ _ (fmap_Permutation _ _ _ Hs1)).
  by rewrite (rsum_perm _ _ (fmap_Permutation _ _ _ Hs2)).
Qed.

Lemma accumulator_independent_of_block_order_witness :
  ∃ h1 h2,
    reduce_on_device 3 2 [0; 1] (1 # 6)%Q 1%Q 6 = Some h1 ∧
    reduce_on_device 3 2 [1; 0] (1 # 6)%Q 1%Q 6 = Some h2 ∧
    dpi_read h1 = dpi_read h2 ∧
    dpi_read h1 = (1 + rsum (total_of 3 (1 # 6)%Q 1%Q 6 2 <$> seqZ 0 2))%Q.
Proof.
  assert (0 < 3) as HB by lia.
  assert (block_schedule 2 [0; 1]) as Hs1
    by (unfold block_schedule; cbn; reflexivity).
  assert (block_schedule 2 [1; 0]) as Hs2
    by (unfold block_schedule; cbn; apply Permutation_swap).
  exact (accumulator_independent_of_block_order 3 2 [0; 1] [1; 0]
           (1 # 6)%Q 1%Q 6 HB Hs1 Hs2).
Defined.

(** X5.  [runCudaVariantBlock], [Base_CUDA], in every arithmetic: the run
    returns; the device buffer is allocated before the timer starts and
    freed after it stops, with the calls of [run_reps] repetitions in
    between; no repetition builds on the one before, since each resets the
    accumulator from [m_pi_init]: with [run_reps <= 0] the member [m_pi] is
    left as it was, otherwise it is four times the value read back by the
    last repetition. *)
Theorem Block_run_keeps_last_repetition
    `{RealOps Real_type} (env : Collaborators Real_type) (block_size : Z)
    (k : PI_REDUCE Real_type) :
  0 < block_size →
  (∀ irep grid_size, block_schedule grid_size (block_order env irep grid_size)) →
  let iend := getActualProblemSize k in
  let grid_size := RAJA_DIVIDE_CEILING_INT iend block_size in
  let shmem := sizeof_Real_type * block_size in
  ∃ k', runCudaVariantBlock env block_size Base_CUDA k = Some k' ∧
        calls k' = calls k ++ [allocData 1; startTimer] ++
                   concat (replicate (Z.to_nat (getRunReps k))
                             (rep_calls grid_size block_size shmem)) ++
                   [stopTimer; deallocData] ∧
        getCout k' = getCout k ∧
        (getRunReps k ≤ 0 → m_pi k' = m_pi k) ∧
        (0 < getRunReps k →
         ∃ h, reduce_on_device block_size grid_size
                (block_order env (getRunReps k - 1) grid_size) (m_dx k)
                (m_pi_init k) iend = Some h ∧
              m_pi k' = dpi_read h ⊗ r_four).
Proof.
  intros HB Hs iend g shmem.
  destruct (runCudaVariantBlock_Base env block_size k HB Hs)
    as (k' & E & (_ & _ & _ & _ & Hc) & Hcalls & Hv).
  exists k'. split; [done|]. split; [done|]. split; [done|].
  destruct (Z.to_nat (getRunReps k)) as [|n] eqn:En.
  - split; [done|lia].
  - split; [lia|]. intros _.
    replace (getRunReps k - 1) with (Z.of_nat n) by lia. done.
Qed.

Lemma Block_run_keeps_last_repetition_witness :
  ∃ k', runCudaVariantBlock (example_env [4] []) 4 Base_CUDA
          (example_kernel 10 (1 # 10)%Q 0%Q) = Some k' ∧
        calls k' = [allocData 1; startTimer; cudaMemcpyAsync_HostToDevice;
                     pi_reduce_launch 3 4 32; cudaGetLastError;
                     cudaMemcpyAsync_DeviceToHost; cudaStreamSynchronize;
                     stopTimer; deallocData] ∧
        getCout k' = [] ∧
        (1 ≤ 0 → m_pi k' = 0%Q) ∧
        (0 < 1 →
         ∃ h, reduce_on_device 4 3 [2; 1; 0] (1 # 10)%Q 0%Q 10 = Some h ∧
              m_pi k' = (dpi_read h * 4)%Q).
Proof.
  assert (0 < 4) as HB by lia.
  exact (Block_run_keeps_last_repetition (example_env [4] []) 4
           (example_kernel 10 (1 # 10)%Q 0%Q) HB (example_env_schedules [4] [])).
Defined.

(** X6.  [runCudaVariantOccGS], [Base_CUDA], in exact arithmetic, for a
    block size that is a power of two, an occupancy answer of at least one
    block and at least one repetition: the capped grid still adds every
    term of the midpoint rule once, the threads striding over the domain;
    [m_pi] is four times the sum of [m_pi_init] from the reset,
    [m_pi_init] once per thread of the capped grid, and the midpoint-rule
    sum. *)
Theorem OccGS_run_midpoint_rule
    `{ExactSum Real_type} (m : nat) (env : Collaborators Real_type)
    (block_size : Z) (k : PI_REDUCE Real_type) :
  let iend := getActualProblemSize k in
  let shmem := sizeof_Real_type * block_size in
  let max_grid_size := getCudaOccupancyMaxBlocks env block_size shmem in
  let grid_size :=
    Z.min (RAJA_DIVIDE_CEILING_INT iend block_size) max_grid_size in
  block_size = 2 ^ Z.of_nat m → 0 ≤ iend → 0 < max_grid_size →
  0 < getRunReps k →
  (∀ irep grid_size, block_schedule grid_size (block_order env irep grid_size)) →
  ∃ k', runCudaVariantOccGS env block_size Base_CUDA k = Some k' ∧
        m_pi k'
        = (m_pi_init k
           ⊕ (rsum (replicate (Z.to_nat (grid_size * block_size))
                      (m_pi_init k))
              ⊕ rsum (midpoint_term (m_dx k) <$> seqZ 0 iend)))
          ⊗ r_four.
Proof.
  intros iend shmem cap g HB Hiend Hcap Hreps Hs.
  assert (0 < block_size) as Hpos by (subst; apply Z.pow_pos_nonneg; lia).
  destruct (runCudaVariantOccGS_Base env block_size k Hpos Hs)
    as (k' & E & _ & _ & Hv).
  exists k'. split; [done|].
  destruct (Z.to_nat (getRunReps k)) as [|n] eqn:En; [lia|].
  destruct Hv as (h & Hh & ->). fold iend shmem cap g in Hh.
  pose proof (RAJA_DIVIDE_CEILING_INT_spec iend block_size Hpos) as Hn.
  cbv zeta in Hn.
  destruct (reduce_on_device_sum_0 m block_size g
              (block_order env (Z.of_nat n) g) (m_dx k) (m_pi_init k) iend)
    as (h' & Hh' & Hr); [done|done|unfold g; nia|unfold g; nia|apply Hs|].
  rewrite Hh in Hh'. injection Hh' as <-. by rewrite Hr.
Qed.

Lemma OccGS_run_midpoint_rule_witness :
  ∃ k', runCudaVariantOccGS (example_env [4] []) 4 Base_CUDA
          (example_kernel 10 (1 # 10)%Q (1 # 2)%Q) = Some k' ∧
        m_pi k'
        = (((1 # 2) + (rsum (replicate 8 (1 # 2)%Q)
                       + rsum (midpoint_term (1 # 10)%Q <$> seqZ 0 10))) * 4)%Q.
Proof.
  assert (4 = 2 ^ Z.of_nat 2) as HB by reflexivity.
  assert (0 ≤ 10) as Hiend by lia.
  assert (0 < 2) as Hcap by lia.
  assert (0 < 1) as Hreps by lia.
  exact (OccGS_run_midpoint_rule 2 (example_env [4] []) 4
           (example_kernel 10 (1 # 10)%Q (1 # 2)%Q) HB Hiend Hcap Hreps
           (example_env_schedules [4] [])).
Defined.

(** X7.  In exact arithmetic, for a block size that is a power of two and
    [m_pi_init = 0]: the plain tuning and the occupancy-capped tuning of
    [Base_CUDA] leave the same [m_pi], four times the midpoint-rule sum,
    whatever the occupancy answer (at least one block), the number of
    repetitions (at least one) and the order of the blocks. *)
Theorem plain_and_capped_grid_agree_on_zero_seed
    `{ExactSum Real_type} (m : nat) (env : Collaborators Real_type)
    (block_size : Z) (k : PI_REDUCE Real_type) :
  let iend := getActualProblemSize k in
  block_size = 2 ^ Z.of_nat m → m_pi_init k = r_zero → 0 ≤ iend →
  0 < getCudaOccupancyMaxBlocks env block_size (sizeof_Real_type * block_size) →
  0 < getRunReps k →
  (∀ irep grid_size, block_schedule grid_size (block_order env irep grid_size)) →
  ∃ k1 k2,
    runCudaVariantBlock env block_size Base_CUDA k = Some k1 ∧
    runCudaVariantOccGS env block_size Base_CUDA k = Some k2 ∧
    m_pi k1 = rsum (midpoint_term (m_dx k) <$> seqZ 0 iend) ⊗ r_four ∧
    m_pi k2 = m_pi k1.
Proof.
  intros iend HB Hinit Hiend Hcap Hreps Hs.
  assert (0 < block_size) as Hpos by (subst; apply Z.pow_pos_nonneg; lia).
  destruct (runCudaVariantBlock_Base env block_size k Hpos Hs)
    as (k1 & E1 & _ & _ & Hv1).
  destruct (runCudaVariantOccGS_Base env block_size k Hpos Hs)
    as (k2 & E2 & _ & _ & Hv2).
  exists k1, k2. split; [done|]. split; [done|].
  destruct (Z.to_nat (getRunReps k)) as [|n] eqn:En; [lia|].
  destruct Hv1 as (h1 & Hh1 & ->). destruct Hv2 as (h2 & Hh2 & ->).
  fold iend in Hh1, Hh2.
  pose proof (RAJA_DIVIDE_CEILING_INT_spec iend block_size Hpos) as Hn.
  cbv zeta in Hn.
  set (g1 := RAJA_DIVIDE_CEILING_INT iend block_size) in *.
  set (g2 := Z.min g1 _) in *.
  destruct (reduce_on_device_sum_0 m block_size g1
              (block_order env (Z.of_nat n) g1) (m_dx k) (m_pi_init k) iend)
    as (h1' & Hh1' & Hr1); [done|done|nia|nia|apply Hs|].
  destruct (reduce_on_device_sum_0 m block_size g2
              (block_order env (Z.of_nat n) g2) (m_dx k) (m_pi_init k) iend)
    as (h2' & Hh2' & Hr2);
    [done|done|unfold g2; nia|unfold g2; nia|apply Hs|].
  rewrite Hh1 in Hh1'. injection Hh1' as <-.
  rewrite Hh2 in Hh2'. injection Hh2' as <-.
  rewrite Hr1, Hr2, Hinit, !rsum_replicate_zero, !radd_0_l. done.
Qed.

Lemma plain_and_capped_grid_agree_witness :
  ∃ k1 k2,
    runCudaVariantBlock (example_env [4] []) 4 Base_CUDA
      (example_kernel 10 (1 # 10)%Q 0%Q) = Some k1 ∧
    runCudaVariantOccGS (example_env [4] []) 4 Base_CUDA
      (example_kernel 10 (1 # 10)%Q 0%Q) = Some k2 ∧
    m_pi k1 = (rsum (midpoint_term (1 # 10)%Q <$> seqZ 0 10) * 4)%Q ∧
    m_pi k2 = m_pi k1.
Proof.
  assert (4 = 2 ^ Z.of_nat 2) as HB by reflexivity.
  assert (0 ≤ 10) as Hiend by lia.
  assert (0 < 2) as Hcap by lia.
  assert (0 < 1) as Hreps by lia.
  exact (plain_and_capped_grid_agree_on_zero_seed 2 (example_env [4] []) 4
           (example_kernel 10 (1 # 10)%Q 0%Q) HB eq_refl Hiend Hcap Hreps
           (example_env_schedules [4] [])).
Defined.

(** X8.  In every arithmetic: when the occupancy query answers at least
    the normal grid size, the cap does not bind and
    [runCudaVariantOccGS], [Base_CUDA], is [runCudaVariantBlock],
    [Base_CUDA]: the same calls in the same order and the same [m_pi]. *)
Theorem OccGS_is_Block_when_cap_does_not_bind
    `{RealOps Real_type} (env : Collaborators Real_type) (block_size : Z)
    (k : PI_REDUCE Real_type) :
  RAJA_DIVIDE_CEILING_INT (getActualProblemSize k) block_size
  ≤ getCudaOccupancyMaxBlocks env block_size (sizeof_Real_type * block_size) →
  runCudaVariantOccGS env block_size Base_CUDA k
  = runCudaVariantBlock env block_size Base_CUDA k.
Proof.
  intros Hcap. unfold runCudaVariantOccGS, runCudaVariantBlock.
  rewrite !decide_True by done.
  set (cap := getCudaOccupancyMaxBlocks env block_size _) in *.
  assert (call [startTimer] (call [allocData 1] k)
          = call [allocData 1; startTimer] k) as ->.
  { unfold call. cbn. by rewrite <- app_assoc. }
  change (getRunReps (call [allocData 1] k)) with (getRunReps k).
  f_equal.
  apply (for_each_ext_inv
           (λ k0, getActualProblemSize k0 = getActualProblemSize k)).
  - done.
  - intros irep k0 E. unfold OccGS_rep, Block_rep.
    rewrite E, Z.min_l by done. done.
  - intros irep k0 k1 E. unfold Block_rep.
    destruct (reduce_on_device _ _ _ _ _ _); [|done].
    cbn. by intros [= <-].
Qed.

Lemma OccGS_is_Block_witness :
  runCudaVariantOccGS (example_env [4] []) 4 Base_CUDA
    (example_kernel 8 (1 # 8)%Q 0%Q)
  = runCudaVariantBlock (example_env [4] []) 4 Base_CUDA
      (example_kernel 8 (1 # 8)%Q 0%Q).
Proof.
  apply (OccGS_is_Block_when_cap_does_not_bind (example_env [4] []) 4
           (example_kernel 8 (1 # 8)%Q 0%Q)).
  vm_compute. congruence.
Defined.

(** X9.  The [RAJA_CUDA] branches of [runCudaVariantBlock] and
    [runCudaVariantOccGS], in every arithmetic: they always return, the
    host makes the two timer calls and nothing else (no allocation, no
    copy, no launch of [pi_reduce], no output), and [m_pi] is [4.0] times
    the value of the reducer of the (last) repetition, seeded with
    [m_pi_init] and run over [0 .. iend-1] with the policy of the variant;
    without a repetition [m_pi] is left as it was. *)
Theorem RAJA_variant_times_the_reducer
    `{RealOps Real_type} (env : Collaborators Real_type) (block_size : Z)
    (k : PI_REDUCE Real_type) :
  let pi occ_calc :=
    RAJA_forall_ReduceSum env occ_calc block_size (m_pi_init k) 0
      (getActualProblemSize k) (midpoint_term (m_dx k)) in
  let result occ_calc :=
    {| m_dx := m_dx k; m_pi_init := m_pi_init k;
       m_pi := if decide (0 < getRunReps k) then r_four ⊗ pi occ_calc
               else m_pi k;
       getActualProblemSize := getActualProblemSize k;
       getRunReps := getRunReps k;
       calls := calls k ++ [startTimer; stopTimer];
       getCout := getCout k |} in
  runCudaVariantBlock env block_size RAJA_CUDA k = Some (result false) ∧
  runCudaVariantOccGS env block_size RAJA_CUDA k = Some (result true).
Proof.
  intros pi result.
  unfold runCudaVariantBlock, runCudaVariantOccGS.
  rewrite !(decide_False (P := RAJA_CUDA = Base_CUDA)) by done.
  rewrite !decide_True by done. split; apply RAJA_run.
Qed.

(** X20.  [runCudaVariantBlock], [Base_CUDA], in exact arithmetic and for
    a block size that is a power of two: after a run of one or more
    repetitions [m_pi] is four times the sum of [m_pi_init] from the
    reset, [m_pi_init] once per launched thread, and the midpoint-rule
    sum; the value depends neither on the number of repetitions nor on the
    order of the blocks in any of them. *)
Theorem Block_run_midpoint_rule
    `{ExactSum Real_type} (m : nat) (env : Collaborators Real_type)
    (block_size : Z) (k : PI_REDUCE Real_type) :
  let iend := getActualProblemSize k in
  let grid_size := RAJA_DIVIDE_CEILING_INT iend block_size in
  block_size = 2 ^ Z.of_nat m → 0 ≤ iend → 0 < getRunReps k →
  (∀ irep grid_size, block_schedule grid_size (block_order env irep grid_size)) →
  ∃ k', runCudaVariantBlock env block_size Base_CUDA k = Some k' ∧
        m_pi k'
        = (m_pi_init k
           ⊕ (rsum (replicate (Z.to_nat (grid_size * block_size))
                      (m_pi_init k))
              ⊕ rsum (midpoint_term (m_dx k) <$> seqZ 0 iend)))
          ⊗ r_four.
Proof.
  intros iend g HB Hiend Hreps Hs.
  assert (0 < block_size) as Hpos by (subst; apply Z.pow_pos_nonneg; lia).
  destruct (runCudaVariantBlock_Base env block_size k Hpos Hs)
    as (k' & E & _ & _ & Hv).
  exists k'. split; [done|].
  destruct (Z.to_nat (getRunReps k)) as [|n] eqn:En; [lia|].
  destruct Hv as (h & Hh & ->). fold iend g in Hh.
  pose proof (RAJA_DIVIDE_CEILING_INT_spec iend block_size Hpos) as Hn.
  cbv zeta in Hn. fold g in Hn.
  destruct (reduce_on_device_sum_0 m block_size g
              (block_order env (Z.of_nat n) g) (m_dx k) (m_pi_init k) iend)
    as (h' & Hh' & Hr); [done|done|nia|nia|apply Hs|].
  rewrite Hh in Hh'. injection Hh' as <-. by rewrite Hr.
Qed.

Lemma Block_run_midpoint_rule_all_witness :
  ∃ k', runCudaVariantBlock (example_env [4] []) 4 Base_CUDA
          (example_kernel 10 (1 # 10)%Q (1 # 2)%Q) = Some k' ∧
        m_pi k'
        = (((1 # 2) + (rsum (replicate 12 (1 # 2)%Q)
                       + rsum (midpoint_term (1 # 10)%Q <$> seqZ 0 10))) * 4)%Q.
Proof.
  assert (4 = 2 ^ Z.of_nat 2) as HB by reflexivity.
  assert (0 ≤ 10) as Hiend by lia.
  assert (0 < 1) as Hreps by lia.
  exact (Block_run_midpoint_rule 2 (example_env [4] []) 4
           (example_kernel 10 (1 # 10)%Q (1 # 2)%Q) HB Hiend Hreps
           (example_env_schedules [4] [])).
Defined.
(** ** More on the dispatcher [runCudaVariant] and the tuning names *)

(** A loop keeps what each pass keeps. *)
Lemma for_each_invariant {A St} (I : St → Prop)
    (body : A → St → option St) (l : list A) (s s' : St) :
  (∀ x s s', I s → body x s = Some s' → I s') →
  I s → for_each body l s = Some s' → I s'.
Proof.
  intros Hbody. revert s. induction l as [|x l IH]; intros s Hs Hrun.
  - cbn in Hrun. by injection Hrun as <-.
  - cbn in Hrun. destruct (body x s) as [s1|] eqn:E; [|done].
    cbn in Hrun. eapply IH; [|done]. by eapply Hbody.
Qed.

Section enumeration.
Context `{RealOps Real_type}.
Implicit Types (k : PI_REDUCE Real_type) (env : Collaborators Real_type).

Lemma pairs_lookup (sizes : list Z) (p : nat) :
  (sizes ≫= λ block_size,
     [(block_size, plain_grid); (block_size, occupancy_capped_grid)])
    !! (2 * p)%nat
  = (λ block_size, (block_size, plain_grid)) <$> sizes !! p ∧
  (sizes ≫= λ block_size,
     [(block_size, plain_grid); (block_size, occupancy_capped_grid)])
    !! S (2 * p)
  = (λ block_size, (block_size, occupancy_capped_grid)) <$> sizes !! p.
Proof.
  revert p. induction sizes as [|block_size sizes IH]; intros p; [done|].
  destruct p as [|p]; [done|].
  replace (2 * S p)%nat with (S (S (2 * p))) by lia.
  cbn [mbind list_bind app]. rewrite !lookup_tail. apply IH.
Qed.

Lemma elem_of_pairs (sizes : list Z) (block_size : Z) (g : grid_strategy) :
  (block_size, g)
  ∈ (sizes ≫= λ block_size,
       [(block_size, plain_grid); (block_size, occupancy_capped_grid)])
  ↔ block_size ∈ sizes.
Proof.
  rewrite list_elem_of_bind. split.
  - intros (b & Hin & Hb). rewrite !elem_of_cons, elem_of_nil in Hin.
    destruct Hin as [[= -> _]|[[= -> _]|[]]]; done.
  - intros Hb. exists block_size. split; [|done].
    destruct g; rewrite !elem_of_cons; auto.
Qed.

Lemma NoDup_pairs (sizes : list Z) :
  NoDup (sizes ≫= λ block_size,
           [(block_size, plain_grid); (block_size, occupancy_capped_grid)])
  ↔ NoDup sizes.
Proof.
  induction sizes as [|block_size sizes IH];
    [split; intros _; apply NoDup_nil_2|].
  cbn [mbind list_bind app]. rewrite !NoDup_cons, IH, elem_of_cons.
  rewrite !elem_of_pairs. split.
  - intros (Hn & ? & ?). done.
  - intros (? & ?). split; [|done]. intros [[=]|?]; done.
Qed.

(** The members of the kernel object that no CUDA variant writes, and the
    calls logged so far. *)
Local Abbreviation kept k k' :=
  (m_dx k' = m_dx k ∧ m_pi_init k' = m_pi_init k ∧
   getActualProblemSize k' = getActualProblemSize k ∧
   getRunReps k' = getRunReps k ∧ calls k `prefix_of` calls k').

Lemma kept_refl k : kept k k.
Proof. done. Qed.

Lemma kept_call k k' cs : kept k k' → kept k (call cs k').
Proof.
  intros (? & ? & ? & ? & Hp). repeat split; try done.
  cbn. by apply prefix_app_r.
Qed.

Lemma kept_set_m_pi k k' v : kept k k' → kept k (set_m_pi v k').
Proof. intros (? & ? & ? & ? & Hp). done. Qed.

Lemma kept_reps k (body : Z → PI_REDUCE Real_type → option (PI_REDUCE Real_type))
    (l : list Z) k0 k' :
  (∀ irep k1 k2, body irep k1 = Some k2 → kept k1 k2 ∧ getCout k2 = getCout k1) →
  kept k k0 → for_each body l k0 = Some k' →
  kept k k' ∧ getCout k' = getCout k0.
Proof.
  intros Hbody Hk Hrun.
  apply (for_each_invariant
           (λ k1, kept k k1 ∧ getCout k1 = getCout k0) body l k0 k');
    [|done|done].
  intros irep k1 k2 [(? & ? & ? & ? & Hp) Hc] E.
  destruct (Hbody irep k1 k2 E) as [(? & ? & ? & ? & Hp') Hc'].
  repeat split; try congruence. by etrans.
Qed.

Lemma Block_rep_kept env block_size irep k1 k2 :
  Block_rep env block_size irep k1 = Some k2 →
  kept k1 k2 ∧ getCout k2 = getCout k1.
Proof.
  unfold Block_rep. destruct (reduce_on_device _ _ _ _ _ _); [|done].
  cbn. intros [= <-]. repeat split. cbn. by apply prefix_app_r.
Qed.

Lemma OccGS_rep_kept env block_size max_grid_size irep k1 k2 :
  OccGS_rep env block_size max_grid_size irep k1 = Some k2 →
  kept k1 k2 ∧ getCout k2 = getCout k1.
Proof.
  unfold OccGS_rep. destruct (reduce_on_device _ _ _ _ _ _); [|done].
  cbn. intros [= <-]. repeat split. cbn. by apply prefix_app_r.
Qed.

Lemma RAJA_rep_kept env occ_calc block_size irep k1 k2 :
  RAJA_rep env occ_calc block_size irep k1 = Some k2 →
  kept k1 k2 ∧ getCout k2 = getCout k1.
Proof. unfold RAJA_rep. by intros [= <-]. Qed.

Lemma runCudaVariantBlock_kept env block_size vid k k' :
  runCudaVariantBlock env block_size vid k = Some k' →
  kept k k' ∧ (vid = Base_CUDA ∨ vid = RAJA_CUDA → getCout k' = getCout k).
Proof.
  unfold runCudaVariantBlock. repeat case_decide.
  - destruct (for_each _ _ _) as [k1|] eqn:E; [|done]. cbn. intros [= <-].
    destruct (kept_reps k _ _ _ _ (Block_rep_kept env block_size)
                (kept_call k k _ (kept_refl k)) E) as [Hk Hc].
    split; [by apply kept_call|done].
  - destruct (for_each _ _ _) as [k1|] eqn:E; [|done]. cbn. intros [= <-].
    destruct (kept_reps k _ _ _ _ (RAJA_rep_kept env false block_size)
                (kept_call k k _ (kept_refl k)) E) as [Hk Hc].
    split; [by apply kept_call|done].
  - intros [= <-]. split; [done|]. intros [?|?]; done.
Qed.

Lemma runCudaVariantOccGS_kept env block_size vid k k' :
  runCudaVariantOccGS env block_size vid k = Some k' →
  kept k k' ∧ (vid = Base_CUDA ∨ vid = RAJA_CUDA → getCout k' = getCout k).
Proof.
  unfold runCudaVariantOccGS. repeat case_decide.
  - destruct (for_each _ _ _) as [k1|] eqn:E; [|done]. cbn. intros [= <-].
    destruct (kept_reps k _ _ _ _ (OccGS_rep_kept env block_size _)
                (kept_call k _ _ (kept_call k k _ (kept_refl k))) E)
      as [Hk Hc].
    split; [by apply kept_call|done].
  - destruct (for_each _ _ _) as [k1|] eqn:E; [|done]. cbn. intros [= <-].
    destruct (kept_reps k _ _ _ _ (RAJA_rep_kept env true block_size)
                (kept_call k k _ (kept_refl k)) E) as [Hk Hc].
    split; [by apply kept_call|done].
  - intros [= <-]. split; [done|]. intros [?|?]; done.
Qed.
End enumeration.

#[local] Instance tuning_name_Inj : Inj (=) (=) tuning_name.
Proof. intros c1 c2. apply tuning_name_inj. Qed.

(** X10.  The tuning index read as a position: for [Base_CUDA] and
    [RAJA_CUDA], the even index [2p] runs [runCudaVariantBlock] and the
    odd index [2p + 1] runs [runCudaVariantOccGS], both on the block size
    at position [p] among the accepted candidates and after
    [setBlockSize] of that block size; when fewer than [p + 1] candidates
    are accepted nothing runs. *)
Theorem tuning_index_is_position_and_strategy
    `{RealOps Real_type} (env : Collaborators Real_type) (vid : VariantID)
    (p : nat) (k : PI_REDUCE Real_type) :
  vid = Base_CUDA ∨ vid = RAJA_CUDA →
  let accepted_sizes :=
    filter (λ block_size, accepted env block_size = true)
      (gpu_block_sizes_type env) in
  runCudaVariant env vid (2 * Z.of_nat p) k
  = match accepted_sizes !! p with
    | Some block_size =>
        runCudaVariantBlock env block_size vid
          (call [setBlockSize block_size] k)
    | None => Some k
    end ∧
  runCudaVariant env vid (2 * Z.of_nat p + 1) k
  = match accepted_sizes !! p with
    | Some block_size =>
        runCudaVariantOccGS env block_size vid
          (call [setBlockSize block_size] k)
    | None => Some k
    end.
Proof.
  intros Hvid sizes. rewrite !runCudaVariant_tunings by done.
  unfold load, tunings. rewrite !decide_True by lia. fold sizes.
  replace (Z.to_nat (2 * Z.of_nat p)) with (2 * p)%nat by lia.
  replace (Z.to_nat (2 * Z.of_nat p + 1)) with (S (2 * p)) by lia.
  destruct (pairs_lookup sizes p) as [-> ->].
  by destruct (sizes !! p).
Qed.

Lemma tuning_index_is_position_witness :
  (∀ k, runCudaVariant (example_env [64; 128; 256] [64; 256]) Base_CUDA 2 k
        = runCudaVariantBlock (example_env [64; 128; 256] [64; 256]) 256
            Base_CUDA (call [setBlockSize 256] k)) ∧
  (∀ k, runCudaVariant (example_env [64; 128; 256] [64; 256]) Base_CUDA 3 k
        = runCudaVariantOccGS (example_env [64; 128; 256] [64; 256]) 256
            Base_CUDA (call [setBlockSize 256] k)).
Proof.
  split; intros k.
  - exact (proj1 (tuning_index_is_position_and_strategy
                    (example_env [64; 128; 256] [64; 256]) Base_CUDA 1 k
                    (or_introl eq_refl))).
  - exact (proj2 (tuning_index_is_position_and_strategy
                    (example_env [64; 128; 256] [64; 256]) Base_CUDA 1 k
                    (or_introl eq_refl))).
Defined.

(** X11.  For [Base_CUDA] and [RAJA_CUDA], [setCudaTuningDefinitions]
    registers two names per accepted block size, and the registered names
    are pairwise distinct exactly when no accepted block size occurs twice
    in the candidate list. *)
Theorem tuning_names_distinct_iff_sizes_distinct
    `{RealOps Real_type} (env : Collaborators Real_type) (vid : VariantID) :
  vid = Base_CUDA ∨ vid = RAJA_CUDA →
  let accepted_sizes :=
    filter (λ block_size, accepted env block_size = true)
      (gpu_block_sizes_type env) in
  length (setCudaTuningDefinitions env vid) = (2 * length accepted_sizes)%nat ∧
  (NoDup (setCudaTuningDefinitions env vid) ↔ NoDup accepted_sizes).
Proof.
  intros Hvid sizes. rewrite setCudaTuningDefinitions_tunings by done.
  unfold tunings. fold sizes. split.
  - rewrite length_fmap. induction sizes as [|b l IH]; [done|].
    cbn [mbind list_bind app length]. rewrite IH. lia.
  - by rewrite (NoDup_fmap tuning_name), NoDup_pairs.
Qed.

Lemma tuning_names_distinct_witness :
  length (setCudaTuningDefinitions (example_env [128; 256; 128] []) RAJA_CUDA)
  = 6%nat ∧
  (NoDup (setCudaTuningDefinitions (example_env [128; 256; 128] []) RAJA_CUDA)
   ↔ NoDup [128; 256; 128]).
Proof.
  exact (tuning_names_distinct_iff_sizes_distinct
           (example_env [128; 256; 128] []) RAJA_CUDA (or_intror eq_refl)).
Defined.

(** X12.  Whatever the variant id, the tuning index and the arithmetic, a
    call of [runCudaVariant] that returns has changed neither the step
    [m_dx], nor the initial value [m_pi_init], nor the problem size, nor
    the number of repetitions; the calls logged before it are a prefix of
    the calls logged after it; and for [Base_CUDA] and [RAJA_CUDA] nothing
    is sent to [getCout()]. *)
Theorem runCudaVariant_keeps_the_problem
    `{RealOps Real_type} (env : Collaborators Real_type) (vid : VariantID)
    (tune_idx : Z) (k k' : PI_REDUCE Real_type) :
  runCudaVariant env vid tune_idx k = Some k' →
  m_dx k' = m_dx k ∧ m_pi_init k' = m_pi_init k ∧
  getActualProblemSize k' = getActualProblemSize k ∧
  getRunReps k' = getRunReps k ∧
  calls k `prefix_of` calls k' ∧
  (vid = Base_CUDA ∨ vid = RAJA_CUDA → getCout k' = getCout k).
Proof.
  intros Hrun.
  destruct (decide (vid = Base_CUDA ∨ vid = RAJA_CUDA)) as [Hvid|Hvid].
  - rewrite runCudaVariant_tunings in Hrun by done.
    destruct (load (tunings env) tune_idx) as [[block_size []]|].
    + apply runCudaVariantBlock_kept in Hrun
        as [(? & ? & ? & ? & Hp) Hc].
      repeat split; try done. etrans; [|done]. by apply prefix_app_r.
    + apply runCudaVariantOccGS_kept in Hrun
        as [(? & ? & ? & ? & Hp) Hc].
      repeat split; try done. etrans; [|done]. by apply prefix_app_r.
    + by injection Hrun as <-.
  - unfold runCudaVariant in Hrun. rewrite decide_False in Hrun by done.
    by injection Hrun as <-.
Qed.

Lemma runCudaVariant_keeps_the_problem_witness :
  ∃ k', runCudaVariant (example_env [4] []) Base_CUDA 1
          (example_kernel 10 (1 # 10)%Q 0%Q) = Some k' ∧
        m_dx k' = (1 # 10)%Q ∧ m_pi_init k' = 0%Q ∧
        getActualProblemSize k' = 10 ∧ getRunReps k' = 1 ∧
        [] `prefix_of` calls k' ∧
        (Base_CUDA = Base_CUDA ∨ Base_CUDA = RAJA_CUDA → getCout k' = []).
Proof.
  destruct (runCudaVariant (example_env [4] []) Base_CUDA 1
              (example_kernel 10 (1 # 10)%Q 0%Q)) as [k'|] eqn:E;
    [|vm_compute in E; discriminate].
  exists k'. split; [done|].
  exact (runCudaVariant_keeps_the_problem (example_env [4] []) Base_CUDA 1
           (example_kernel 10 (1 # 10)%Q 0%Q) k' E).
Defined.
(** ** More on [runCudaVariantImpl]: the variants side by side *)

(** Two loops whose states stay related under a common view. *)
Lemma for_each_view {A S1 S2 V} (v1 : S1 → V) (v2 : S2 → V)
    (body1 : A → S1 → option S1) (body2 : A → S2 → option S2)
    (l : list A) (s1 : S1) (s2 : S2) :
  (∀ x s1 s2, v1 s1 = v2 s2 → v1 <$> body1 x s1 = v2 <$> body2 x s2) →
  v1 s1 = v2 s2 →
  v1 <$> for_each body1 l s1 = v2 <$> for_each body2 l s2.
Proof.
  intros Hbody. revert s1 s2.
  induction l as [|x l IH]; intros s1 s2 Hv; [cbn; by f_equal|].
  cbn [for_each]. specialize (Hbody x s1 s2 Hv).
  destruct (body1 x s1) as [s1'|], (body2 x s2) as [s2'|]; try done.
  cbn in Hbody. injection Hbody as Hv'. rewrite !bind_Some. by apply IH.
Qed.

Lemma without_error_checks_app cs1 cs2 :
  without_error_checks (cs1 ++ cs2)
  = without_error_checks cs1 ++ without_error_checks cs2.
Proof. apply filter_app. Qed.

Section variants.
Context `{RealOps Real_type}.
Implicit Types (o : POLYBENCH_FLOYD_WARSHALL Real_type)
  (env : fw_Collaborators Real_type).

Lemma without_error_checks_launch env N block_size k :
  without_error_checks [launch_call env N block_size k; cudaGetLastError]
  = [launch_call env N block_size k] ∧
  without_error_checks [launch_call env N block_size k]
  = [launch_call env N block_size k].
Proof.
  unfold without_error_checks.
  rewrite !filter_cons, filter_nil, decide_True by done.
  by rewrite decide_False by (intros Hne; by apply Hne).
Qed.

Lemma launch_view env block_size irep k o1 o2 :
  fw_view o1 = fw_view o2 →
  fw_view <$> Lambda_launch env block_size irep k o1
  = fw_view <$> Base_launch env block_size irep k o2.
Proof.
  unfold fw_view. intros [= EN ER ED EC EO].
  unfold Lambda_launch, Base_launch, launch_threads.
  rewrite EN, ED. destruct (eval_nblocks _ _) as [nb|]; [|done].
  rewrite !bind_Some.
  rewrite (for_each_ext _ _ _ _
             (kernel_lam_same j_block_sz (i_block_sz block_size) k (m_N o2))).
  destruct (for_each _ _ _) as [d|]; [|done].
  cbn. unfold fw_view. cbn. rewrite !without_error_checks_app, EC, ER, EO, EN.
  destruct (without_error_checks_launch env (m_N o2) block_size k) as [-> ->].
  done.
Qed.

Lemma rep_view env block_size irep o1 o2 :
  fw_view o1 = fw_view o2 →
  fw_view <$> Lambda_rep env block_size irep o1
  = fw_view <$> Base_rep env block_size irep o2.
Proof.
  intros Hv. unfold Lambda_rep, Base_rep.
  replace (m_N o1) with (m_N o2) by (by injection Hv).
  apply for_each_view; [|done]. intros. by apply launch_view.
Qed.

(** The calls a pass of the [Lambda_CUDA] loops logs. *)
Lemma Lambda_launches_log env block_size irep ks o o' :
  for_each (Lambda_launch env block_size irep) ks o = Some o' →
  m_N o' = m_N o ∧ fw_getRunReps o' = fw_getRunReps o ∧
  fw_calls o' = fw_calls o ++ (launch_call env (m_N o) block_size <$> ks).
Proof.
  revert o. induction ks as [|k ks IH]; intros o Hrun.
  - cbn in Hrun. injection Hrun as <-. by rewrite app_nil_r.
  - cbn [for_each] in Hrun.
    destruct (Lambda_launch env block_size irep k o) as [o1|] eqn:E; [|done].
    rewrite bind_Some in Hrun. apply IH in Hrun as (EN & ER & EC).
    unfold Lambda_launch in E.
    destruct (eval_nblocks _ _) as [nb|]; [|done]. rewrite bind_Some in E.
    destruct (launch_threads _ _ _) as [d|]; [|done].
    cbn in E. injection E as <-. cbn in *.
    rewrite EC, <- app_assoc. done.
Qed.

Lemma Lambda_reps_log env block_size (n : nat) o o' :
  for_each (Lambda_rep env block_size) (seqZ 0 (Z.of_nat n)) o = Some o' →
  m_N o' = m_N o ∧ fw_getRunReps o' = fw_getRunReps o ∧
  fw_calls o'
  = fw_calls o
    ++ concat (replicate n
         (launch_call env (m_N o) block_size <$> seqZ 0 (m_N o))).
Proof.
  revert o'. induction n as [|n IH]; intros o' Hrun.
  - cbn in Hrun. injection Hrun as <-. by rewrite app_nil_r.
  - rewrite seqZ_S, for_each_app in Hrun.
    destruct (for_each _ (seqZ 0 (Z.of_nat n)) o) as [o1|] eqn:E; [|done].
    rewrite bind_Some, for_each_singleton in Hrun.
    destruct (IH o1 eq_refl) as (EN & ER & EC).
    unfold Lambda_rep in Hrun.
    apply Lambda_launches_log in Hrun as (EN' & ER' & EC').
    rewrite concat_replicate_S_end, app_assoc, <- EC, <- EN.
    repeat split; congruence.
Qed.
End variants.

(** X13.  [runCudaVariantImpl], in every arithmetic and for every order of
    the threads: the [Lambda_CUDA] variant leaves what the [Base_CUDA]
    variant leaves (the same matrix after the same accesses, the same
    launches between the same timer calls, the same output); the one
    difference is that it does not check [cudaGetLastError()] after a
    launch, so its log holds the launches [k = 0 .. N-1] of each
    repetition and nothing else between the timer calls. *)
Theorem Lambda_variant_leaves_what_Base_leaves
    `{RealOps Real_type} (env : fw_Collaborators Real_type) (block_size : Z)
    (o : POLYBENCH_FLOYD_WARSHALL Real_type) :
  fw_view <$> runCudaVariantImpl env block_size Lambda_CUDA o
  = fw_view <$> runCudaVariantImpl env block_size Base_CUDA o ∧
  ∀ o', runCudaVariantImpl env block_size Lambda_CUDA o = Some o' →
    fw_calls o'
    = fw_calls o ++ [startTimer]
      ++ concat (replicate (Z.to_nat (fw_getRunReps o))
           (launch_call env (m_N o) block_size <$> seqZ 0 (m_N o)))
      ++ [stopTimer].
Proof.
  unfold runCudaVariantImpl.
  rewrite (decide_False (P := Lambda_CUDA = Base_CUDA)) by done.
  rewrite !decide_True by done. split.
  - pose proof (for_each_view fw_view fw_view
                  (Lambda_rep env block_size) (Base_rep env block_size)
                  (seqZ 0 (fw_getRunReps o))
                  (fw_call [startTimer] o) (fw_call [startTimer] o)
                  (rep_view env block_size) eq_refl) as Hv.
    destruct (for_each (Lambda_rep _ _) _ _) as [o1|],
             (for_each (Base_rep _ _) _ _) as [o2|]; try done.
    cbn in Hv. injection Hv as EN ER ED EC EO. cbn. unfold fw_view. cbn.
    by rewrite !without_error_checks_app, EN, ER, ED, EC, EO.
  - intros o' Hrun. rewrite (seqZ_to_nat 0 (fw_getRunReps o)) in Hrun.
    destruct (for_each _ _ _) as [o1|] eqn:E; [|done].
    cbn in Hrun. injection Hrun as <-.
    apply Lambda_reps_log in E as (EN & ER & EC). cbn in *.
    rewrite EC, <- !app_assoc. done.
Qed.
(** ** More on [runCudaVariantImpl]: whole runs and the grid *)

Section fw_runs.
Context `{RealOps Real_type}.
Implicit Types (o : POLYBENCH_FLOYD_WARSHALL Real_type)
  (env : fw_Collaborators Real_type).

(** The repetition loop of [Base_CUDA]: every pass issues the same
    launches and stays inside the matrix. *)
Lemma Base_reps_safe env block_size N (n : nat) o :
  32 ≤ block_size →
  (∀ irep k, Forall valid_thread (thread_order env irep k)) →
  m_N o = N → length (pin (fw_device o)) = Z.to_nat (N * N) →
  ∃ o' new,
    for_each (Base_rep env block_size) (seqZ 0 (Z.of_nat n)) o = Some o' ∧
    m_N o' = N ∧ fw_getRunReps o' = fw_getRunReps o ∧
    fw_getCout o' = fw_getCout o ∧
    length (pin (fw_device o')) = length (pin (fw_device o)) ∧
    fw_calls o'
    = fw_calls o
      ++ concat (replicate n (launch_calls env N block_size (seqZ 0 N))) ∧
    accesses (fw_device o') = accesses (fw_device o) ++ new ∧
    Forall (in_matrix N) new.
Proof.
  intros HB Hv HN Hlen. induction n as [|n IH].
  - exists o, []. cbn. rewrite !app_nil_r. done.
  - destruct IH as (o1 & new1 & E1 & HN1 & HR1 & HO1 & Hlen1 & HC1 & HA1 & HF1).
    rewrite seqZ_S, for_each_app, E1, bind_Some, for_each_singleton.
    rewrite Z.add_0_l. unfold Base_rep. rewrite HN1.
    destruct (launch_loop_safe env block_size (Z.of_nat n) N (seqZ 0 N) o1)
      as (o2 & new2 & E2 & HN2 & HR2 & HO2 & Hlen2 & HC2 & HA2 & HF2);
      [done|done| |done|congruence|].
    { apply Forall_forall. intros k Hk. apply elem_of_seqZ in Hk. lia. }
    exists o2, (new1 ++ new2). split; [done|].
    rewrite concat_replicate_S_end, HC2, HC1, HA2, HA1, <- !app_assoc.
    repeat split; try congruence. by apply Forall_app.
Qed.

Lemma Base_launch_fw_print env block_size irep k s o :
  Base_launch env block_size irep k (fw_print s o)
  = fw_print s <$> Base_launch env block_size irep k o.
Proof.
  unfold Base_launch. cbn. destruct (eval_nblocks _ _) as [nb|]; [|done].
  rewrite !bind_Some. by destruct (launch_threads _ _ _).
Qed.

Lemma Lambda_launch_fw_print env block_size irep k s o :
  Lambda_launch env block_size irep k (fw_print s o)
  = fw_print s <$> Lambda_launch env block_size irep k o.
Proof.
  unfold Lambda_launch. cbn. destruct (eval_nblocks _ _) as [nb|]; [|done].
  rewrite !bind_Some. by destruct (launch_threads _ _ _).
Qed.

Lemma runCudaVariantImpl_fw_print env block_size vid s o :
  vid = Base_CUDA ∨ vid = Lambda_CUDA ∨ vid = RAJA_CUDA →
  runCudaVariantImpl env block_size vid (fw_print s o)
  = fw_print s <$> runCudaVariantImpl env block_size vid o.
Proof.
  intros Hvid. unfold runCudaVariantImpl.
  change (fw_getRunReps (fw_print s o)) with (fw_getRunReps o).
  change (fw_call [startTimer] (fw_print s o))
    with (fw_print s (fw_call [startTimer] o)).
  destruct Hvid as [->|[->| ->]].
  - rewrite !decide_True by done.
    rewrite (for_each_commute (fw_print s)).
    + by destruct (for_each _ _ _).
    + intros irep o'. unfold Base_rep.
      change (m_N (fw_print s o')) with (m_N o').
      apply for_each_commute. intros. apply Base_launch_fw_print.
  - rewrite !(decide_False (P := Lambda_CUDA = Base_CUDA)) by done.
    rewrite !decide_True by done.
    rewrite (for_each_commute (fw_print s)).
    + by destruct (for_each _ _ _).
    + intros irep o'. unfold Lambda_rep.
      change (m_N (fw_print s o')) with (m_N o').
      apply for_each_commute. intros. apply Lambda_launch_fw_print.
  - rewrite !(decide_False (P := RAJA_CUDA = Base_CUDA)) by done.
    rewrite !(decide_False (P := RAJA_CUDA = Lambda_CUDA)) by done.
    rewrite !decide_True by done.
    rewrite (for_each_commute (fw_print s)).
    + by destruct (for_each _ _ _).
    + intros irep o'. cbn. by destruct (RAJA_kernel_resource _ _ _ _).
Qed.
End fw_runs.

Lemma NoDup_grid_threads (nb nt : dim3) : NoDup (grid_threads nb nt).
Proof.
  unfold grid_threads.
  apply NoDup_bind; [|intros b_y _|apply NoDup_seqZ].
  { intros y1 y2 th _ _ H1 H2.
    apply list_elem_of_bind in H1 as (? & H1 & _).
    apply list_elem_of_bind in H1 as (? & H1 & _).
    apply list_elem_of_bind in H1 as (? & H1 & _).
    apply list_elem_of_singleton in H1.
    apply list_elem_of_bind in H2 as (? & H2 & _).
    apply list_elem_of_bind in H2 as (? & H2 & _).
    apply list_elem_of_bind in H2 as (? & H2 & _).
    apply list_elem_of_singleton in H2. congruence. }
  apply NoDup_bind; [|intros b_x _|apply NoDup_seqZ].
  { intros x1 x2 th _ _ H1 H2.
    apply list_elem_of_bind in H1 as (? & H1 & _).
    apply list_elem_of_bind in H1 as (? & H1 & _).
    apply list_elem_of_singleton in H1.
    apply list_elem_of_bind in H2 as (? & H2 & _).
    apply list_elem_of_bind in H2 as (? & H2 & _).
    apply list_elem_of_singleton in H2. congruence. }
  apply NoDup_bind; [|intros t_y _|apply NoDup_seqZ].
  { intros y1 y2 th _ _ H1 H2.
    apply list_elem_of_bind in H1 as (? & H1 & _).
    apply list_elem_of_singleton in H1.
    apply list_elem_of_bind in H2 as (? & H2 & _).
    apply list_elem_of_singleton in H2. congruence. }
  apply NoDup_bind; [|intros t_x _; apply NoDup_singleton|apply NoDup_seqZ].
  intros x1 x2 th _ _ H1 H2.
  apply list_elem_of_singleton in H1. apply list_elem_of_singleton in H2.
  congruence.
Qed.

(** X14.  [runCudaVariantImpl], [Base_CUDA], in every arithmetic, for a
    block size of at least 32 and an N×N device array: the whole run
    returns; between [startTimer] and [stopTimer] it issues, once per
    repetition, the launches [k = 0 .. N-1] in this order, each followed by
    [cudaGetLastError()]; every access any thread makes to the array is
    inside the matrix, and nothing is printed. *)
Theorem Base_run_stays_in_matrix
    `{RealOps Real_type} (env : fw_Collaborators Real_type) (block_size : Z)
    (o : POLYBENCH_FLOYD_WARSHALL Real_type) :
  let N := m_N o in
  32 ≤ block_size → length (pin (fw_device o)) = Z.to_nat (N * N) →
  (∀ irep k, thread_schedule (nblocks N block_size)
               (nthreads_per_block block_size) (thread_order env irep k)) →
  ∃ o' new,
    runCudaVariantImpl env block_size Base_CUDA o = Some o' ∧
    fw_calls o'
    = fw_calls o ++ [startTimer]
      ++ concat (replicate (Z.to_nat (fw_getRunReps o))
           (launch_calls env N block_size (seqZ 0 N)))
      ++ [stopTimer] ∧
    length (pin (fw_device o')) = Z.to_nat (N * N) ∧
    accesses (fw_device o') = accesses (fw_device o) ++ new ∧
    Forall (in_matrix N) new ∧
    fw_getCout o' = fw_getCout o.
Proof.
  intros N HB Hlen Hs. unfold runCudaVariantImpl.
  rewrite decide_True by done.
  destruct (Base_reps_safe env block_size N (Z.to_nat (fw_getRunReps o))
              (fw_call [startTimer] o))
    as (o1 & new & E & HN & HR & HO & Hlen1 & HC & HA & HF);
    [lia| |done|done|].
  { intros irep k. apply (thread_schedule_valid _ _ _ (Hs irep k)). }
  rewrite (seqZ_to_nat 0 (fw_getRunReps o)), E, bind_Some.
  exists (fw_call [stopTimer] o1), new. split; [done|]. cbn in *.
  rewrite HC, <- !app_assoc. repeat split; try done. congruence.
Qed.

Lemma Base_run_stays_in_matrix_witness :
  ∃ o' new,
    runCudaVariantImpl (example_fw_env 2 32) 32 Base_CUDA
      (example_fw 2 [0; 5; 1; 0]%Q) = Some o' ∧
    fw_calls o'
    = [startTimer;
       poly_floyd_warshall_launch 1 2 32 1 0 0 0; cudaGetLastError;
       poly_floyd_warshall_launch 1 2 32 1 0 0 1; cudaGetLastError;
       stopTimer] ∧
    length (pin (fw_device o')) = 4%nat ∧
    accesses (fw_device o') = new ∧
    Forall (in_matrix 2) new ∧
    fw_getCout o' = [].
Proof.
  assert (32 ≤ 32) as HB by lia.
  exact (Base_run_stays_in_matrix (example_fw_env 2 32) 32
           (example_fw 2 [0; 5; 1; 0]%Q) HB eq_refl
           (example_fw_env_schedules 2 32)).
Defined.

(** X15.  [runCudaVariantImpl] with a variant id other than [Base_CUDA],
    [Lambda_CUDA] and [RAJA_CUDA]: the id is reported on [getCout()] and
    nothing else happens (the timer is not started, no kernel is launched,
    the device array is not touched); a variant run afterwards does what
    it would have done without the report, which stays in the output. *)
Theorem fw_unknown_variant_is_reported
    `{RealOps Real_type} (env : fw_Collaborators Real_type)
    (block_size : Z) (vid : VariantID)
    (o : POLYBENCH_FLOYD_WARSHALL Real_type) :
  vid ≠ Base_CUDA → vid ≠ Lambda_CUDA → vid ≠ RAJA_CUDA →
  let report := fw_unknown_Cuda_variant vid in
  runCudaVariantImpl env block_size vid o
  = Some {| m_N := m_N o; fw_getRunReps := fw_getRunReps o;
            fw_device := fw_device o; fw_calls := fw_calls o;
            fw_getCout := fw_getCout o ++ report |} ∧
  ∀ block_size' vid',
    vid' = Base_CUDA ∨ vid' = Lambda_CUDA ∨ vid' = RAJA_CUDA →
    (o1 ← runCudaVariantImpl env block_size vid o;
     runCudaVariantImpl env block_size' vid' o1)
    = fw_print report <$> runCudaVariantImpl env block_size' vid' o.
Proof.
  intros H1 H2 H3 report.
  assert (runCudaVariantImpl env block_size vid o = Some (fw_print report o))
    as E by (unfold runCudaVariantImpl; by rewrite !decide_False by done).
  split; [done|]. intros block_size' vid' Hvid'.
  rewrite E, bind_Some. by apply runCudaVariantImpl_fw_print.
Qed.

Lemma fw_unknown_variant_witness :
  runCudaVariantImpl (example_fw_env 1 32) 32 RAJA_OpenMPTarget
    (example_fw 1 [7%Q])
  = Some {| m_N := 1; fw_getRunReps := 1;
            fw_device := {| pin := [7%Q]; accesses := [] |};
            fw_calls := [];
            fw_getCout := [out_string "
  POLYBENCH_FLOYD_WARSHALL : Unknown Cuda variant id = ";
                           out_VariantID RAJA_OpenMPTarget; out_endl] |}.
Proof.
  refine (proj1 (fw_unknown_variant_is_reported (example_fw_env 1 32) 32
                   RAJA_OpenMPTarget (example_fw 1 [7%Q]) _ _ _)); done.
Defined.

(** X16.  The thread block shape and the grid of a launch
    ([j_block_sz], [i_block_sz], [nthreads_per_block], [nblocks]) with the
    index computation of the kernels: for a block size of at least 32, the
    grid lists no thread twice, and every element [(i, j)] of the N×N
    matrix is the element of exactly one thread of the grid; so within a
    launch no two threads are assigned the same element. *)
Theorem one_thread_per_matrix_element (N block_size i j : Z) :
  32 ≤ block_size → 0 ≤ i < N → 0 ≤ j < N →
  let grid :=
    grid_threads (nblocks N block_size) (nthreads_per_block block_size) in
  NoDup grid ∧
  ∃ th, th ∈ grid ∧
        thread_i (i_block_sz block_size) th = i ∧
        thread_j j_block_sz th = j ∧
        ∀ th', th' ∈ grid →
          thread_i (i_block_sz block_size) th' = i →
          thread_j j_block_sz th' = j → th' = th.
Proof.
  intros HB Hi Hj grid. split; [apply NoDup_grid_threads|].
  destruct (grid_covers_matrix N block_size i j HB Hi Hj)
    as (th & Hth & Ei & Ej).
  exists th. split; [done|]. split; [done|]. split; [done|].
  intros th' Hth' Ei' Ej'.
  assert (0 < i_block_sz block_size) as Hib.
  { unfold i_block_sz, j_block_sz. apply Z.div_str_pos. lia. }
  apply elem_of_grid_threads in Hth, Hth'.
  unfold thread_i, thread_j, j_block_sz in *. cbn in Hth, Hth'.
  unfold j_block_sz in *.
  destruct th as [bx by_ tx ty], th' as [bx' by' tx' ty']. cbn in *.
  assert (bx' = bx) by nia. assert (by' = by_) by nia.
  f_equal; lia.
Qed.

Lemma one_thread_per_matrix_element_witness :
  NoDup (grid_threads (nblocks 40 64) (nthreads_per_block 64)) ∧
  ∃ th, th ∈ grid_threads (nblocks 40 64) (nthreads_per_block 64) ∧
        thread_i (i_block_sz 64) th = 37 ∧ thread_j j_block_sz th = 33 ∧
        ∀ th', th' ∈ grid_threads (nblocks 40 64) (nthreads_per_block 64) →
          thread_i (i_block_sz 64) th' = 37 →
          thread_j j_block_sz th' = 33 → th' = th.
Proof.
  apply (one_thread_per_matrix_element 40 64 37 33); lia.
Defined.
(** ** Repetitions of the Floyd-Warshall chain *)

Section closed_matrices.
Context `{ExactOrder Real_type}.
Implicit Types (M D : list Real_type)
  (o : POLYBENCH_FLOYD_WARSHALL Real_type)
  (env : fw_Collaborators Real_type).

(** Two N×N arrays with the same elements are the same array. *)
Lemma matrix_ext M D N :
  0 ≤ N → length M = Z.to_nat (N * N) → length D = Z.to_nat (N * N) →
  (∀ i j, 0 ≤ i < N → 0 ≤ j < N → entry M N i j = entry D N i j) →
  M = D.
Proof.
  intros HN0 HM HD Hentries. apply list_eq. intros ix.
  destruct (decide (ix < length M)%nat) as [Hlt|Hge].
  - assert (0 < N) as HN.
    { destruct (decide (N = 0)) as [->|]; [cbn in HM; lia|lia]. }
    pose proof (Z.div_mod (Z.of_nat ix) N ltac:(lia)) as Hdm.
    pose proof (Z.mod_pos_bound (Z.of_nat ix) N HN) as Hm.
    assert (0 ≤ Z.of_nat ix `div` N < N) as Hd.
    { split; [apply Z.div_pos; lia|]. apply Z.div_lt_upper_bound; nia. }
    specialize (Hentries _ _ Hd Hm). unfold entry, at_index in Hentries.
    rewrite !load_lookup in Hentries by nia.
    replace (Z.to_nat (Z.of_nat ix `mod` N + Z.of_nat ix `div` N * N))
      with ix in Hentries by lia.
    destruct (lookup_lt_is_Some_2 M ix Hlt) as [x Hx].
    destruct (lookup_lt_is_Some_2 D ix ltac:(lia)) as [y Hy].
    rewrite Hx, Hy in *. cbn in Hentries. by subst.
  - rewrite !lookup_ge_None_2 by lia. done.
Qed.

(** The weights of shortest paths satisfy the triangle inequality. *)
Lemma shortest_triangle M N D i j k :
  0 ≤ k < N →
  (∀ i j, 0 ≤ i < N → 0 ≤ j < N → shortest_via M N N i j (entry D N i j)) →
  0 ≤ i < N → 0 ≤ j < N →
  rle (entry D N i j) (entry D N i k ⊕ entry D N k j).
Proof.
  intros Hk HD Hi Hj.
  destruct (HD i k Hi Hk) as [(p1 & Hp1 & <-) _].
  destruct (HD k j Hk Hj) as [(p2 & Hp2 & <-) _].
  destruct (HD i j Hi Hj) as [_ Hlow].
  rewrite <- path_weight_app. apply Hlow.
  apply Forall_app. split; [done|]. by apply Forall_cons.
Qed.

Lemma shortest_non_negative M N D i j :
  (∀ i j, 0 ≤ i < N → 0 ≤ j < N → rle r_zero (entry M N i j)) →
  (∀ i j, 0 ≤ i < N → 0 ≤ j < N → shortest_via M N N i j (entry D N i j)) →
  0 ≤ i < N → 0 ≤ j < N → rle r_zero (entry D N i j).
Proof.
  intros HM HD Hi Hj. destruct (HD i j Hi Hj) as [(p & Hp & <-) _].
  by apply path_weight_non_negative.
Qed.

(** A launch on a matrix of shortest-path weights stores what is there. *)
Lemma launch_on_shortest M N k block_size sched (d : device Real_type) :
  32 ≤ block_size → 0 ≤ k < N →
  thread_schedule (nblocks N block_size) (nthreads_per_block block_size)
    sched →
  length (pin d) = Z.to_nat (N * N) →
  (∀ i j, 0 ≤ i < N → 0 ≤ j < N → rle r_zero (entry M N i j)) →
  (∀ i j, 0 ≤ i < N → 0 ≤ j < N →
     shortest_via M N N i j (entry (pin d) N i j)) →
  ∃ d', launch_threads
          (poly_floyd_warshall j_block_sz (i_block_sz block_size) k N)
          sched d = Some d' ∧
        pin d' = pin d.
Proof.
  intros HB Hk Hs Hlen HM HD.
  destruct (launch_relaxes_matrix N k block_size sched d HB Hk Hs Hlen)
    as (d' & E & Hlen' & Hd').
  { by apply (shortest_non_negative M). }
  exists d'. split; [done|].
  apply (matrix_ext _ _ N); [lia|done|done|].
  intros i j Hi Hj. rewrite Hd' by done. unfold relax_cell, rmin.
  by rewrite (shortest_triangle M N (pin d) i j k).
Qed.

Lemma Base_launch_unfold env block_size irep k o :
  Base_launch env block_size irep k o
  = (_ ← eval_nblocks (m_N o) block_size;
     d ← launch_threads
           (poly_floyd_warshall j_block_sz (i_block_sz block_size) k (m_N o))
           (thread_order env irep k) (fw_device o);
     Some (fw_call [launch_call env (m_N o) block_size k; cudaGetLastError]
             (fw_set_device d o))).
Proof. done. Qed.

(** The launches of one pass on a matrix of shortest-path weights. *)
Lemma launches_on_shortest env block_size irep M N ks o :
  32 ≤ block_size → Forall (λ k, 0 ≤ k < N) ks → m_N o = N →
  (∀ k, thread_schedule (nblocks N block_size)
          (nthreads_per_block block_size) (thread_order env irep k)) →
  length (pin (fw_device o)) = Z.to_nat (N * N) →
  (∀ i j, 0 ≤ i < N → 0 ≤ j < N → rle r_zero (entry M N i j)) →
  (∀ i j, 0 ≤ i < N → 0 ≤ j < N →
     shortest_via M N N i j (entry (pin (fw_device o)) N i j)) →
  ∃ o', for_each (Base_launch env block_size irep) ks o = Some o' ∧
        m_N o' = N ∧ pin (fw_device o') = pin (fw_device o).
Proof.
  intros HB Hks HN Hs Hlen HM. revert o HN Hlen.
  induction Hks as [|k ks Hk Hks IH]; intros o HN Hlen HD.
  - by exists o.
  - cbn [for_each].
    rewrite Base_launch_unfold, HN, eval_nblocks_32, bind_Some by done.
    destruct (launch_on_shortest M N k block_size (thread_order env irep k)
                (fw_device o) HB Hk (Hs k) Hlen HM HD) as (d' & -> & Hd').
    rewrite !bind_Some.
    destruct (IH (fw_call [launch_call env N block_size k; cudaGetLastError]
                    (fw_set_device d' o)))
      as (o' & E & HN' & Hpin); [done|cbn; congruence|cbn; by rewrite Hd'|].
    exists o'. split; [done|]. split; [done|]. cbn in Hpin. congruence.
Qed.

(** Repetitions on a matrix of shortest-path weights. *)
Lemma reps_on_shortest env block_size M N (irep0 : Z) (n : nat) o :
  32 ≤ block_size → m_N o = N →
  (∀ irep k, thread_schedule (nblocks N block_size)
               (nthreads_per_block block_size) (thread_order env irep k)) →
  length (pin (fw_device o)) = Z.to_nat (N * N) →
  (∀ i j, 0 ≤ i < N → 0 ≤ j < N → rle r_zero (entry M N i j)) →
  (∀ i j, 0 ≤ i < N → 0 ≤ j < N →
     shortest_via M N N i j (entry (pin (fw_device o)) N i j)) →
  ∃ o', for_each (Base_rep env block_size) (seqZ irep0 (Z.of_nat n)) o
        = Some o' ∧
        m_N o' = N ∧ pin (fw_device o') = pin (fw_device o).
Proof.
  intros HB HN Hs Hlen HM HD. induction n as [|n IH].
  - by exists o.
  - destruct IH as (o1 & E1 & HN1 & Hpin1).
    rewrite seqZ_S, for_each_app, E1, bind_Some, for_each_singleton.
    unfold Base_rep. rewrite HN1.
    destruct (launches_on_shortest env block_size (irep0 + Z.of_nat n) M N
                (seqZ 0 N) o1) as (o2 & E2 & HN2 & Hpin2);
      [done| |done|done|congruence|done|by rewrite Hpin1|].
    { apply Forall_forall. intros k Hk. apply elem_of_seqZ in Hk. lia. }
    exists o2. split; [done|]. split; [done|]. congruence.
Qed.
End closed_matrices.

(** X17.  [runCudaVariantImpl], [Base_CUDA], in exact arithmetic, with
    the relaxation of the specification, for an N×N matrix with
    non-negative entries, a block size of at least 32 and at least one
    repetition: the first repetition leaves the weights of the shortest
    paths of the input graph, and every further repetition stores these
    weights again; so the matrix after the run is the matrix after the
    first repetition, whatever the number of repetitions and the order of
    the threads. *)
Theorem repetitions_after_the_first_change_nothing
    `{ExactOrder Real_type} (env : fw_Collaborators Real_type)
    (block_size : Z) (o : POLYBENCH_FLOYD_WARSHALL Real_type) :
  let N := m_N o in
  let M := pin (fw_device o) in
  32 ≤ block_size → 0 ≤ N → length M = Z.to_nat (N * N) → non_negative M →
  0 < fw_getRunReps o →
  (∀ irep k, thread_schedule (nblocks N block_size)
               (nthreads_per_block block_size) (thread_order env irep k)) →
  ∃ o1 o',
    Base_rep env block_size 0 (fw_call [startTimer] o) = Some o1 ∧
    runCudaVariantImpl env block_size Base_CUDA o = Some o' ∧
    pin (fw_device o') = pin (fw_device o1) ∧
    ∀ i j, 0 ≤ i < N → 0 ≤ j < N →
      shortest_via M N N i j (entry (pin (fw_device o')) N i j).
Proof.
  intros N M HB HN Hlen Hnn Hreps Hs.
  assert (∀ i j, 0 ≤ i < N → 0 ≤ j < N → rle r_zero (entry M N i j)) as Hnn'
    by (intros; by apply non_negative_entry).
  destruct (launch_loop_shortest env block_size 0 M N (Z.to_nat N)
              (fw_call [startTimer] o))
    as (o1 & E1 & HN1 & Hlen1 & _ & Hsp1); [done..|apply Hs|lia|].
  rewrite Z2Nat.id in E1, Hsp1 by done.
  destruct (reps_on_shortest env block_size M N 1
              (Z.to_nat (fw_getRunReps o - 1)) o1)
    as (o2 & E2 & HN2 & Hpin2); [done..|].
  exists o1, (fw_call [stopTimer] o2). split; [exact E1|].
  split; [|split; [cbn; done|]].
  - unfold runCudaVariantImpl. rewrite decide_True by done.
    replace (fw_getRunReps o) with (1 + (fw_getRunReps o - 1)) at 1 by lia.
    rewrite seqZ_app by lia.
    change (seqZ 0 1) with [0]. rewrite for_each_app, for_each_singleton.
    change (Base_rep env block_size 0 (fw_call [startTimer] o))
      with (for_each (Base_launch env block_size 0) (seqZ 0 N)
              (fw_call [startTimer] o)).
    rewrite E1, bind_Some, Z.add_0_l.
    rewrite (seqZ_to_nat 1 (fw_getRunReps o - 1)), E2. done.
  - intros i j Hi Hj. cbn. rewrite Hpin2. by apply Hsp1.
Qed.

Lemma repetitions_after_the_first_witness :
  let M := [0; 8; 5;  3; 0; 9;  7; 2; 0]%Q in
  ∃ o1 o',
    Base_rep (example_fw_env 3 32) 32 0 (fw_call [startTimer] (example_fw 3 M))
    = Some o1 ∧
    runCudaVariantImpl (example_fw_env 3 32) 32 Base_CUDA (example_fw 3 M)
    = Some o' ∧
    pin (fw_device o') = pin (fw_device o1) ∧
    ∀ i j, 0 ≤ i < 3 → 0 ≤ j < 3 →
      shortest_via M 3 3 i j (entry (pin (fw_device o')) 3 i j).
Proof.
  assert (32 ≤ 32) as HB by lia.
  assert (0 ≤ 3) as HN by lia.
  assert (0 < 1) as Hreps by lia.
  assert (non_negative [0; 8; 5;  3; 0; 9;  7; 2; 0]%Q) as Hnn
    by (unfold non_negative; repeat constructor).
  exact (repetitions_after_the_first_change_nothing (example_fw_env 3 32) 32
           (example_fw 3 [0; 8; 5;  3; 0; 9;  7; 2; 0]%Q) HB HN eq_refl Hnn
           Hreps (example_fw_env_schedules 3 32)).
Defined.
(** ** The tree reduction for a block size that need not be a power of two *)

Section tree_any_block_size.
Context `{ExactSum Real_type}.
Variables (block_size : Z) (g : Z → Real_type).
Implicit Types (ppi : list Real_type) (S : Z → list Z).

Lemma disjoint_sums_initial :
  0 ≤ block_size →
  disjoint_sums block_size g block_size (g <$> seqZ 0 block_size).
Proof.
  intros HB. split; [by rewrite length_fmap, length_seqZ|].
  exists (λ t, [t]). split.
  - intros t Ht. rewrite at_index_fmap by done.
    rewrite fmap_cons, fmap_nil, rsum_singleton.
    split; [done|]. split; [apply NoDup_singleton|].
    split; [by apply list_elem_of_singleton|].
    apply Forall_singleton. lia.
  - intros t t' s _ _ Ht Ht'.
    apply list_elem_of_singleton in Ht, Ht'. congruence.
Qed.

Lemma disjoint_sums_step w i ppi :
  0 < i → 2 * i ≤ w → w ≤ block_size → disjoint_sums block_size g w ppi →
  ∃ ppi', tree_step block_size i ppi = Some ppi' ∧
          disjoint_sums block_size g i ppi'.
Proof.
  intros Hi Hw HB (Hlen & S & HS & Hdis).
  rewrite tree_step_value by (done || lia).
  eexists. split; [done|]. split; [by rewrite length_fmap, length_seqZ|].
  exists (λ t, if decide (t < i) then S t ++ S (t + i) else S t). split.
  - intros t Ht. rewrite at_index_fmap by lia. rewrite !decide_True by lia.
    destruct (HS t ltac:(lia)) as (-> & Hnd & Hin & Hr).
    destruct (HS (t + i) ltac:(lia)) as (-> & Hnd' & Hin' & Hr').
    rewrite fmap_app, rsum_app. split; [done|]. split.
    + apply NoDup_app. split; [done|]. split; [|done].
      intros s Hs Hs'.
      pose proof (Hdis t (t + i) s ltac:(lia) ltac:(lia) Hs Hs'). lia.
    + split; [apply elem_of_app; by left|]. by apply Forall_app.
  - intros t t' s Ht Ht'. rewrite !decide_True by lia.
    rewrite !elem_of_app. intros [Hs|Hs] [Hs'|Hs'].
    + by apply (Hdis t t' s); [lia..| |].
    + pose proof (Hdis t (t' + i) s ltac:(lia) ltac:(lia) Hs Hs'). lia.
    + pose proof (Hdis (t + i) t' s ltac:(lia) ltac:(lia) Hs Hs'). lia.
    + pose proof (Hdis (t + i) (t' + i) s ltac:(lia) ltac:(lia) Hs Hs'). lia.
Qed.

Lemma disjoint_sums_loop fuel w i ppi :
  0 ≤ i → 2 * i ≤ w → 1 ≤ w ≤ block_size → (Z.to_nat i < fuel)%nat →
  disjoint_sums block_size g w ppi →
  ∃ ppi' w', tree_loop fuel block_size i ppi = Some ppi' ∧
             1 ≤ w' ∧ disjoint_sums block_size g w' ppi'.
Proof.
  revert w i ppi. induction fuel as [|fuel IH]; intros w i ppi Hi Hw HB Hf Hinv;
    [lia|].
  cbn [tree_loop]. case_decide as Hpos.
  - destruct (disjoint_sums_step w i ppi) as (ppi1 & -> & Hinv1);
      [lia..|done|].
    rewrite bind_Some, Z.quot_div_nonneg by lia.
    pose proof (Z.div_mod i 2 ltac:(lia)).
    pose proof (Z.mod_pos_bound i 2 ltac:(lia)).
    apply (IH i); (done || lia).
  - exists ppi, w. split; [done|]. split; [lia|done].
Qed.
End tree_any_block_size.

(** X18.  The reduction loop of [pi_reduce] in exact arithmetic, for
    every block size, power of two or not: the loop never reads [ppi]
    outside its [block_size] slots, and the total [ppi[0]] that thread 0
    hands to [atomicAdd] is the sum of the slots of a set of threads of
    the block that holds thread 0 and no thread twice.  A block size that
    is not a power of two can lose slots, but no slot is counted twice. *)
Theorem block_total_counts_no_thread_twice
    `{ExactSum Real_type} (block_size : Z) (dx pi_init : Real_type)
    (iend gridDim b : Z) :
  0 < block_size → 0 ≤ b < gridDim →
  ∃ ppi threads,
    block_ppi block_size dx pi_init iend gridDim b = Some ppi ∧
    length ppi = Z.to_nat block_size ∧
    NoDup threads ∧ 0 ∈ threads ∧
    Forall (λ t, 0 ≤ t < block_size) threads ∧
    block_total block_size dx pi_init iend gridDim b
    = Some (rsum (partial_of block_size dx pi_init iend gridDim b
                  <$> threads)).
Proof.
  intros HB Hb. unfold block_total, block_ppi.
  rewrite (mapM_pointwise _
             (partial_of block_size dx pi_init iend gridDim b)).
  - rewrite bind_Some.
    pose proof (Z.div_mod block_size 2 ltac:(lia)).
    pose proof (Z.mod_pos_bound block_size 2 ltac:(lia)).
    destruct (disjoint_sums_loop block_size
                (partial_of block_size dx pi_init iend gridDim b)
                (S (Z.to_nat block_size)) block_size (block_size `div` 2)
                (partial_of block_size dx pi_init iend gridDim b
                 <$> seqZ 0 block_size))
      as (ppi & w & -> & Hw & Hlen & threads & Hthreads & _);
      [apply Z.div_pos; lia|lia|lia|lia| |].
    { apply disjoint_sums_initial. lia. }
    destruct (Hthreads 0 ltac:(lia)) as (Hv & Hnd & Hin & Hr).
    exists ppi, (threads 0). rewrite bind_Some.
    rewrite load_at_index, Hv by lia. done.
  - apply Forall_seqZ. intros t Ht. apply thread_partial_value; lia.
Qed.

Lemma block_total_counts_no_thread_twice_witness :
  ∃ ppi threads,
    block_ppi 6 (1 # 6)%Q 1%Q 6 1 0 = Some ppi ∧
    length ppi = 6%nat ∧
    NoDup threads ∧ 0 ∈ threads ∧
    Forall (λ t, 0 ≤ t < 6) threads ∧
    block_total 6 (1 # 6)%Q 1%Q 6 1 0
    = Some (rsum (partial_of 6 (1 # 6)%Q 1%Q 6 1 0 <$> threads)).
Proof.
  assert (0 < 6) as HB by lia.
  assert (0 ≤ 0 < 1) as Hb by lia.
  exact (block_total_counts_no_thread_twice 6 (1 # 6)%Q 1%Q 6 1 0 HB Hb).
Defined.
(** ** Dispatch of a known variant never fails *)

(** X19.  For [Base_CUDA] and [RAJA_CUDA], candidate block sizes that are
    all positive, and in every arithmetic: [runCudaVariant] returns for
    every tuning index; when the index names no configuration the object
    is returned as it was, and otherwise the first call it logs is
    [setBlockSize] of the block size of the configuration, before any
    timer call, allocation or launch. *)
Theorem known_variant_dispatch_returns
    `{RealOps Real_type} (env : Collaborators Real_type) (vid : VariantID)
    (tune_idx : Z) (k : PI_REDUCE Real_type) :
  vid = Base_CUDA ∨ vid = RAJA_CUDA →
  Forall (λ block_size, 0 < block_size) (gpu_block_sizes_type env) →
  (∀ irep grid_size, block_schedule grid_size (block_order env irep grid_size)) →
  ∃ k', runCudaVariant env vid tune_idx k = Some k' ∧
        match load (tunings env) tune_idx with
        | None => k' = k
        | Some cfg => ∃ rest, calls k' = calls k ++ setBlockSize cfg.1 :: rest
        end.
Proof.
  intros Hvid Hsizes Hs. rewrite runCudaVariant_tunings by done.
  destruct (load (tunings env) tune_idx) as [[block_size strategy]|] eqn:E;
    [|by exists k].
  assert (0 < block_size) as HB.
  { unfold load in E. case_decide; [|done].
    apply list_elem_of_lookup_2 in E. unfold tunings in E.
    apply list_elem_of_bind in E as (b & Hin & Hb).
    apply list_elem_of_filter in Hb as [_ Hb].
    rewrite Forall_forall in Hsizes. specialize (Hsizes b Hb).
    rewrite !elem_of_cons, elem_of_nil in Hin.
    destruct Hin as [[= -> _]|[[= -> _]|[]]]; done. }
  cbn [fst]. unfold run_tuning.
  destruct Hvid as [->| ->], strategy.
  - destruct (runCudaVariantBlock_Base env block_size
                (call [setBlockSize block_size] k) HB Hs)
      as (k' & -> & _ & Hc & _).
    exists k'. split; [done|]. eexists. rewrite Hc. cbn.
    by rewrite <- app_assoc.
  - destruct (runCudaVariantOccGS_Base env block_size
                (call [setBlockSize block_size] k) HB Hs)
      as (k' & -> & _ & Hc & _).
    exists k'. split; [done|]. eexists. rewrite Hc. cbn.
    by rewrite <- app_assoc.
  - unfold runCudaVariantBlock.
    rewrite (decide_False (P := RAJA_CUDA = Base_CUDA)) by done.
    rewrite decide_True by done.
    change (getRunReps (call [setBlockSize block_size] k))
      with (getRunReps k).
    pose proof (RAJA_run env false block_size
                  (call [setBlockSize block_size] k)) as Hrun.
    cbn in Hrun. rewrite Hrun. eexists. split; [done|]. cbn.
    eexists. by rewrite <- app_assoc.
  - unfold runCudaVariantOccGS.
    rewrite (decide_False (P := RAJA_CUDA = Base_CUDA)) by done.
    rewrite decide_True by done.
    change (getRunReps (call [setBlockSize block_size] k))
      with (getRunReps k).
    pose proof (RAJA_run env true block_size
                  (call [setBlockSize block_size] k)) as Hrun.
    cbn in Hrun. rewrite Hrun. eexists. split; [done|]. cbn.
    eexists. by rewrite <- app_assoc.
Qed.

Lemma known_variant_dispatch_witness :
  ∃ k', runCudaVariant (example_env [4; 8] []) Base_CUDA 3
          (example_kernel 10 (1 # 10)%Q 0%Q) = Some k' ∧
        ∃ rest, calls k' = [] ++ setBlockSize 8 :: rest.
Proof.
  assert (Forall (λ block_size, 0 < block_size) [4; 8]) as Hsizes
    by (repeat constructor).
  exact (known_variant_dispatch_returns (example_env [4; 8] []) Base_CUDA 3
           (example_kernel 10 (1 # 10)%Q 0%Q) (or_introl eq_refl) Hsizes
           (example_env_schedules [4; 8] [])).
Defined.
